(** * SafeSurfer: the typosquatting detection engine ([lib/typosquat.js])

    A shallow embedding of [TyposquatDetector] and the proofs of the
    properties its specification states about it.

    JavaScript strings are sequences of UTF-16 code units; every string
    operation the detector uses ([length], indexing, [===], [includes],
    [split], [startsWith], [replace] with a literal pattern that has no [u]
    flag) works on code units, so a string is a list of code units here.
    Numbers are the small integers the detector computes with, held in [Z]. *)

From Stdlib Require Import ZArith NArith Lia Bool DecimalString.
From stdpp Require Import base list strings gmap.

Local Open Scope Z_scope.

(** ** JavaScript strings *)

Module JsString.

Abbreviation codeUnit := N.
Abbreviation jsstring := (list codeUnit).

(** A string literal of the source (ASCII only). *)
Definition str (s : string) : jsstring :=
  map Ascii.N_of_ascii (String.list_ascii_of_string s).
Arguments str _%_string.

(** The double quote, which the reason templates embed. *)
Definition dquote : codeUnit := 34%N.

(** [a === b] on strings. *)
Fixpoint jseq (a b : jsstring) : bool :=
  match a, b with
  | [], [] => true
  | x :: a', y :: b' => N.eqb x y && jseq a' b'
  | _, _ => false
  end.

(** [s.startsWith(p)]. *)
Fixpoint startsWith (s p : jsstring) : bool :=
  match p, s with
  | [], _ => true
  | y :: p', x :: s' => N.eqb x y && startsWith s' p'
  | _ :: _, [] => false
  end.

(** [s.includes(sub)]: [sub] occurs at some position of [s]. *)
Fixpoint includes (s sub : jsstring) : bool :=
  startsWith s sub ||
  match s with
  | [] => false
  | _ :: s' => includes s' sub
  end.

(** [s.split(sep)] for a one-unit separator: the pieces between the
    separators, always at least one piece. *)
Fixpoint split (sep : codeUnit) (s : jsstring) : list jsstring :=
  match s with
  | [] => [[]]
  | c :: s' =>
      if N.eqb c sep then [] :: split sep s'
      else match split sep s' with
           | piece :: pieces => (c :: piece) :: pieces
           | [] => [[c]]
           end
  end.

(** [s.replace(/a/g, 'b')] for a one-unit literal pattern. *)
Definition replaceAll1 (a b : codeUnit) (s : jsstring) : jsstring :=
  map (fun c => if N.eqb c a then b else c) s.

(** [s.replace(/a1a2/g, 'b')] for a two-unit literal pattern: matches are
    found left to right and do not overlap. *)
Fixpoint replaceAll2 (a1 a2 b : codeUnit) (s : jsstring) : jsstring :=
  match s with
  | [] => []
  | x :: s' =>
      match s' with
      | y :: s'' =>
          if N.eqb x a1 && N.eqb y a2 then b :: replaceAll2 a1 a2 b s''
          else x :: replaceAll2 a1 a2 b s'
      | [] => [x]
      end
  end.

Arguments replaceAll1 (a b)%_N s.
Arguments replaceAll2 (a1 a2 b)%_N s.

(** [arr.includes(x)] on an array of strings. *)
Definition arrayIncludes (arr : list jsstring) (x : jsstring) : bool :=
  existsb (jseq x) arr.

(** White space and line terminators, the code units [trim] strips. *)
Definition isWhiteSpace (c : codeUnit) : bool :=
  existsb (N.eqb c)
    [9; 10; 11; 12; 13; 32; 160; 5760; 8192; 8193; 8194; 8195; 8196; 8197;
     8198; 8199; 8200; 8201; 8202; 8232; 8233; 8239; 8287; 12288; 65279]%N.

Fixpoint trimStart (s : jsstring) : jsstring :=
  match s with
  | c :: s' => if isWhiteSpace c then trimStart s' else s
  | [] => []
  end.

(** [s.trim()]. *)
Definition trim (s : jsstring) : jsstring :=
  rev (trimStart (rev (trimStart s))).

(** [String(n)] for an integer [n]. *)
Definition numberToString (n : Z) : jsstring :=
  str (NilZero.string_of_int (Z.to_int n)).

Definition isAscii (c : codeUnit) : bool := N.ltb c 128.

(** [toLowerCase] on one ASCII code unit: [A-Z] to [a-z]. *)
Definition asciiLower (c : codeUnit) : codeUnit :=
  if N.leb 65 c && N.leb c 90 then (c + 32)%N else c.

End JsString.
Import JsString.

(** ** The similarity engine *)

(** The table [dp] of [levenshteinDistance], an array of rows. *)
Abbreviation table := (list (list Z)).

(** [dp[i][j]]. *)
Definition tget (dp : table) (i j : nat) : Z := (dp !!! i) !!! j.

(** [dp[i][j] = v]. *)
Definition tset (dp : table) (i j : nat) (v : Z) : table :=
  <[i := <[j := v]> (dp !!! i)]> dp.

(** [Math.min(a, b, c)]. *)
Definition min3 (a b c : Z) : Z := Z.min (Z.min a b) c.

Section Levenshtein.
Variables str1 str2 : jsstring.

(** The body of the inner loop: cell [(i, j)] from its three neighbours. *)
Definition levCell (i : nat) (dp : table) (j : nat) : table :=
  if bool_decide (str1 !! (i - 1)%nat = str2 !! (j - 1)%nat)
  then tset dp i j (tget dp (i - 1) (j - 1))
  else tset dp i j
         (1 + min3 (tget dp (i - 1) j) (tget dp i (j - 1))
                   (tget dp (i - 1) (j - 1))).

(** [for (let j = 1; j <= n; j++)] of row [i]. *)
Definition levRow (n : nat) (dp : table) (i : nat) : table :=
  fold_left (levCell i) (seq 1 n) dp.

Definition levenshteinDistance : Z :=
  let m := length str1 in
  let n := length str2 in
  (* every row is an array of its own: no two rows are aliased *)
  let dp : table := replicate (m + 1) (replicate (n + 1) 0) in
  let dp := fold_left (fun dp i => tset dp i 0 (Z.of_nat i)) (seq 0 (m + 1)) dp in
  let dp := fold_left (fun dp j => tset dp 0 j (Z.of_nat j)) (seq 0 (n + 1)) dp in
  let dp := fold_left (levRow n) (seq 1 m) dp in
  tget dp m n.
End Levenshtein.


(** ** Static reference tables *)

Definition knownDomains : list jsstring :=
  map str
    ["google"; "facebook"; "amazon"; "apple"; "microsoft"; "netflix"; "paypal";
     "instagram"; "twitter"; "linkedin"; "youtube"; "whatsapp"; "telegram";
     "reddit"; "github"; "stackoverflow"; "dropbox"; "spotify"; "adobe";
     "salesforce"; "oracle"; "ibm"; "intel"; "nvidia"; "samsung"; "sony";
     "walmart"; "ebay"; "alibaba"; "zoom"; "slack"; "discord"; "twitch";
     "pinterest"; "snapchat"; "tiktok"; "uber"; "airbnb"; "booking";
     "expedia"; "chase"; "bankofamerica"; "wellsfargo"; "citibank"; "hsbc";
     "barclays"; "capitalone"; "americanexpress"; "visa"; "mastercard";
     "coinbase"; "binance"; "kraken"; "blockchain"; "metamask"; "opensea";
     "steam"; "epicgames"; "roblox"; "minecraft"; "playstation"; "xbox";
     "nintendo"; "att"; "verizon"; "tmobile"; "comcast"; "spectrum"]%string.

(** The look-alikes of [homoglyphs], as code units, keyed by the Latin letter
    (a one-unit string for a single character, ["rn"] and ["vv"] as they are). *)
Definition homoglyphs : list (string * list jsstring) :=
  [("a", [str "@"; str "4"; [0x430]; [0x105]; [0x3B1]]);
   ("b", [str "8"; [0x44C]; [0x3B2]]);
   ("c", [str "("; [0x441]; [0xE7]; [0xA2]]);
   ("d", [[0x111]; [0xF0]]);
   ("e", [str "3"; [0x435]; [0x451]; [0x454]; [0x119]]);
   ("g", [str "9"; [0x11F]]);
   ("h", [[0x4BB]]);
   ("i", [str "1"; str "l"; str "!"; str "|"; [0x456]; [0x131]]);
   ("k", [[0x3BA]]);
   ("l", [str "1"; str "i"; str "|"; [0x142]]);
   ("m", [str "rn"; [0x43C]]);
   ("n", [[0x43F]; [0x144]]);
   ("o", [str "0"; [0x43E]; [0xF8]; [0x3BF]]);
   ("p", [[0x440]; [0x3C1]]);
   ("s", [str "5"; str "$"; [0x15B]; [0x15F]]);
   ("t", [str "7"; str "+"; [0x165]]);
   ("u", [[0x3C5]; [0x446]; [0xF9]]);
   ("v", [[0x3BD]; [0x3C5]]);
   ("w", [str "vv"; [0x3C9]]);
   ("x", [[0x445]; [0xD7]]);
   ("y", [[0x443]; [0xFD]]);
   ("z", [str "2"; [0x17A]; [0x17C]])]%N%string.

Definition suspiciousTLDs : list jsstring :=
  map str
    ["xyz"; "tk"; "ml"; "ga"; "cf"; "gq"; "top"; "club"; "online"; "site";
     "website"; "space"; "fun"; "icu"; "buzz"; "monster"; "cam"; "uno"]%string.

(** ** The analysis result *)

Record AnalysisResult := mkResult {
  url : jsstring;
  isSuspicious : bool;
  riskScore : Z;
  reasons : list jsstring;
  matchedDomain : option jsstring
}.

(** What [checkSubdomainTrick] returns: [{ isSuspicious: false }] leaves the
    other two fields undefined. *)
Record SubdomainCheck := mkSubdomainCheck {
  subIsSuspicious : bool;
  subReason : option jsstring;
  subMatchedDomain : option jsstring
}.

(** Truthiness of a [null]-or-string value: [null] and the empty string are
    falsy. *)
Definition truthy (v : option jsstring) : bool :=
  match v with
  | Some (_ :: _) => true
  | _ => false
  end.

(** The reason templates of [checkSubdomainTrick] and [analyzeUrl]. *)
Definition subdomainReason (known : jsstring) : jsstring :=
  str "Subdomain trick detected: " ++ [dquote] ++ known ++ [dquote]
  ++ str " used as subdomain".

Definition similarReason (known : jsstring) (distance : Z) : jsstring :=
  str "Similar to " ++ [dquote] ++ known ++ [dquote] ++ str " ("
  ++ numberToString distance ++ str " character difference)".

Definition containsReason (known : jsstring) : jsstring :=
  str "Contains brand name " ++ [dquote] ++ known ++ [dquote].

Definition homographReason (known : jsstring) : jsstring :=
  str "Homograph attack: looks like " ++ [dquote] ++ known ++ [dquote].

Definition tldReason (tld : jsstring) : jsstring :=
  str "Suspicious TLD: ." ++ tld.

Definition dot : codeUnit := 46%N.
Definition hyphen : codeUnit := 45%N.

(** ** The part of the URL parser the detector is studied on

    [new URL(s).hostname] is the browser's, not the repository's. Two cases
    of it are fixed here, as the URL standard has them for [http] and
    [https]: an empty host is a failure, and a host made of plain labels
    (lower-case letters, digits and inner single hyphens, the last label
    starting with a letter, so that it is neither an IPv4 address nor an
    IDNA label) is returned as it is. *)

Definition isLowerLetter (c : codeUnit) : bool := N.leb 97 c && N.leb c 122.
Definition isDigit (c : codeUnit) : bool := N.leb 48 c && N.leb c 57.

Definition plainLabel (l : jsstring) : bool :=
  forallb (fun c => isLowerLetter c || isDigit c || N.eqb c hyphen) l
  && negb (startsWith l [hyphen])
  && negb (startsWith (rev l) [hyphen])
  && negb (includes l [hyphen; hyphen])
  && negb (jseq l []).

Definition plainHost (h : jsstring) : bool :=
  let labels := split dot h in
  forallb plainLabel labels
  && match last labels with
     | Some (c :: _) => isLowerLetter c
     | _ => false
     end.

(** The two services of the platform that are left open:
    [String.prototype.toLowerCase] on a string that is not all ASCII, and the
    URL parser outside the two cases above ([None] when it throws). *)
Class Platform := {
  unicodeToLowerCase : jsstring -> jsstring;
  platformUrlHostname : jsstring -> option jsstring
}.

Section Detector.
Context {platform : Platform}.

(** [s.toLowerCase()]. *)
Definition toLowerCase (s : jsstring) : jsstring :=
  if forallb isAscii s then map asciiLower s else unicodeToLowerCase s.

(** [new URL(s).hostname], [None] when the constructor throws. *)
Definition urlHostname (s : jsstring) : option jsstring :=
  let authority :=
    if startsWith s (str "https://") then Some (drop 8 s)
    else if startsWith s (str "http://") then Some (drop 7 s)
    else None in
  match authority with
  | Some [] => None
  | Some h => if plainHost h then Some h else platformUrlHostname s
  | None => platformUrlHostname s
  end.

Definition normalizeString (s : jsstring) : jsstring :=
  let normalized := toLowerCase s in
  let normalized := replaceAll1 48 111 normalized in    (* 0 -> o *)
  let normalized := replaceAll1 49 108 normalized in    (* 1 -> l *)
  let normalized := replaceAll1 51 101 normalized in    (* 3 -> e *)
  let normalized := replaceAll1 52 97 normalized in     (* 4 -> a *)
  let normalized := replaceAll1 53 115 normalized in    (* 5 -> s *)
  let normalized := replaceAll1 55 116 normalized in    (* 7 -> t *)
  let normalized := replaceAll1 56 98 normalized in     (* 8 -> b *)
  let normalized := replaceAll1 57 103 normalized in    (* 9 -> g *)
  let normalized := replaceAll1 64 97 normalized in     (* @ -> a *)
  let normalized := replaceAll1 36 115 normalized in    (* $ -> s *)
  let normalized := replaceAll2 114 110 109 normalized in  (* rn -> m *)
  let normalized := replaceAll2 118 118 119 normalized in  (* vv -> w *)
  normalized.

(** [try { ... } catch { return null; }]: the only call that throws on a
    string is the URL constructor. *)
Definition extractDomain (u : jsstring) : option jsstring :=
  let cleanUrl := trim u in
  let cleanUrl :=
    if negb (startsWith cleanUrl (str "http://"))
       && negb (startsWith cleanUrl (str "https://"))
    then str "https://" ++ cleanUrl
    else cleanUrl in
  match urlHostname cleanUrl with
  | Some hostname => Some (toLowerCase hostname)
  | None => None
  end.

Definition getBaseDomain (hostname : jsstring) : jsstring :=
  let parts := split dot hostname in
  if (2 <=? length parts)%nat then
    let secondLast := parts !!! (length parts - 2)%nat in
    if arrayIncludes
         [str "co"; str "com"; str "org"; str "net"; str "gov"; str "edu"]
         secondLast
       && (3 <=? length parts)%nat
    then parts !!! (length parts - 3)%nat
    else secondLast
  else parts !!! 0%nat.

Definition getTLD (hostname : jsstring) : jsstring :=
  let parts := split dot hostname in
  parts !!! (length parts - 1)%nat.

(** The inner loop of [checkSubdomainTrick]: is there an [i] below
    [parts.length - 2] whose label is [known] or contains it? *)
Definition labelHit (parts : list jsstring) (known : jsstring) : bool :=
  existsb
    (fun i => jseq (parts !!! i) known || includes (parts !!! i) known)
    (seq 0 (length parts - 2)).

(** The outer loop, over the brands that are left. *)
Fixpoint subdomainScan (parts : list jsstring) (brands : list jsstring)
  : SubdomainCheck :=
  match brands with
  | [] => mkSubdomainCheck false None None
  | known :: rest =>
      if labelHit parts known then
        mkSubdomainCheck true (Some (subdomainReason known)) (Some known)
      else subdomainScan parts rest
  end.

Definition checkSubdomainTrick (hostname : jsstring) : SubdomainCheck :=
  let parts := split dot hostname in
  if (3 <? length parts)%nat then subdomainScan parts knownDomains
  else mkSubdomainCheck false None None.

(** [reasons.push(r)] of a value that is never undefined here. *)
Definition pushReason (r : option jsstring) (rs : list jsstring) : list jsstring :=
  match r with
  | Some r => rs ++ [r]
  | None => rs
  end.

(** First block of [analyzeUrl]: the subdomain trick. *)
Definition subdomainStep (hostname : jsstring) (result : AnalysisResult)
  : AnalysisResult :=
  let subdomainCheck := checkSubdomainTrick hostname in
  if subIsSuspicious subdomainCheck then
    mkResult (url result) true (riskScore result + 80)
      (pushReason (subReason subdomainCheck) (reasons result))
      (subMatchedDomain subdomainCheck)
  else result.

(** The loop over [knownDomains]: [continue] and falling off the end of the
    body go on with the brands that are left, [break] returns. *)
Fixpoint brandLoop (baseDomain normalizedDomain : jsstring)
    (brands : list jsstring) (result : AnalysisResult) : AnalysisResult :=
  match brands with
  | [] => result
  | known :: rest =>
      if jseq baseDomain known then
        brandLoop baseDomain normalizedDomain rest result
      else
        let distance := levenshteinDistance normalizedDomain known in
        if (0 <? distance) && (distance <=? 2) then
          mkResult (url result) true (riskScore result + 70)
            (reasons result ++ [similarReason known distance])
            (Some known)
        else if includes baseDomain known && negb (jseq baseDomain known) then
          mkResult (url result) true (riskScore result + 60)
            (reasons result ++ [containsReason known])
            (Some known)
        else if negb (jseq normalizedDomain baseDomain) then
          let normalizedDistance := levenshteinDistance normalizedDomain known in
          if normalizedDistance =? 0 then
            mkResult (url result) true (riskScore result + 90)
              (reasons result ++ [homographReason known])
              (Some known)
          else brandLoop baseDomain normalizedDomain rest result
        else brandLoop baseDomain normalizedDomain rest result
  end.

(** The suspicious-TLD bonus. *)
Definition tldStep (tld : jsstring) (result : AnalysisResult) : AnalysisResult :=
  if arrayIncludes suspiciousTLDs tld && truthy (matchedDomain result) then
    mkResult (url result) (isSuspicious result) (riskScore result + 20)
      (reasons result ++ [tldReason tld])
      (matchedDomain result)
  else result.

(** [result.riskScore = Math.min(result.riskScore, 100)]. *)
Definition capStep (result : AnalysisResult) : AnalysisResult :=
  mkResult (url result) (isSuspicious result) (Z.min (riskScore result) 100)
    (reasons result) (matchedDomain result).

(** The result as [analyzeUrl] creates it. *)
Definition freshResult (u : jsstring) : AnalysisResult :=
  mkResult u false 0 [] None.

Definition analyzeUrl (u : jsstring) : AnalysisResult :=
  let result := freshResult u in
  let hostname := extractDomain u in
  if negb (truthy hostname) then result
  else
    let hostname := default [] hostname in
    let baseDomain := getBaseDomain hostname in
    let normalizedDomain := normalizeString baseDomain in
    let tld := getTLD hostname in
    let result := subdomainStep hostname result in
    let result := brandLoop baseDomain normalizedDomain knownDomains result in
    let result := tldStep tld result in
    capStep result.

End Detector.

(** A platform to run the detector on: lower-casing that leaves non-ASCII
    strings alone, and a URL parser that accepts nothing but plain hosts. *)
Definition samplePlatform : Platform :=
  {| unicodeToLowerCase := fun s => s;
     platformUrlHostname := fun _ => None |}.

(** ** Reference definitions the theorems compare the code with *)

(** The accumulator only grows: the score does not go down and reasons are
    only appended. *)
Definition grows (r r' : AnalysisResult) : Prop :=
  riskScore r <= riskScore r' /\ exists added, reasons r' = reasons r ++ added.

(** [reason] is what a signal that names the brand [known] pushes. *)
Definition brandSignalReason (known reason : jsstring) : Prop :=
  reason = subdomainReason known \/
  (exists distance, reason = similarReason known distance) \/
  reason = containsReason known \/
  reason = homographReason known.

(** The fields of a result agree with each other: there are reasons exactly
    when the verdict is suspicious, a matched brand is a reference brand that
    a reason names, and a verdict that is not suspicious has no matched brand
    and no score. *)
Definition consistent (r : AnalysisResult) : Prop :=
  (reasons r <> [] <-> isSuspicious r = true) /\
  (forall known, matchedDomain r = Some known ->
     In known knownDomains /\ isSuspicious r = true /\
     exists reason, In reason (reasons r) /\ brandSignalReason known reason) /\
  (isSuspicious r = false -> matchedDomain r = None /\ riskScore r = 0).

(** The subdomain trick in the words of the specification: with more than
    three labels, the labels except the last two are scanned for a brand they
    equal or contain, and the first brand of the reference set that is found
    wins. *)
Definition labelsExceptLastTwo (parts : list jsstring) : list jsstring :=
  take (length parts - 2) parts.

Definition brandInLabels (parts : list jsstring) (known : jsstring) : bool :=
  existsb (fun label => jseq label known || includes label known)
    (labelsExceptLastTwo parts).

Definition subdomainTrickSpec (hostname : jsstring) : option jsstring :=
  let parts := split dot hostname in
  if (3 <? length parts)%nat then find (brandInLabels parts) knownDomains
  else None.

(** The normaliser in the words of the specification: an ordered list of
    substitutions, each applied once over the whole label. *)
Inductive substitution :=
| Unit1 (a b : codeUnit)
| Unit2 (a1 a2 b : codeUnit).

Definition substitutions : list substitution :=
  [Unit1 48 111; Unit1 49 108; Unit1 51 101; Unit1 52 97; Unit1 53 115;
   Unit1 55 116; Unit1 56 98; Unit1 57 103; Unit1 64 97; Unit1 36 115;
   Unit2 114 110 109; Unit2 118 118 119]%N.

Definition pattern (r : substitution) : jsstring :=
  match r with
  | Unit1 a _ => [a]
  | Unit2 a1 a2 _ => [a1; a2]
  end.

Definition replacement (r : substitution) : jsstring :=
  match r with
  | Unit1 _ b => [b]
  | Unit2 _ _ b => [b]
  end.

(** What applying a substitution globally means, for any literal [pattern]
    that is not empty: going through [s] from left to right, wherever the
    pattern starts its units are passed over and [replacement] is put in
    their place, so that occurrences do not overlap; every other unit is
    kept.  [skip] counts the units of the occurrence just replaced that are
    still to be passed over. *)
Fixpoint replaceFrom (pattern replacement : jsstring) (skip : nat)
    (s : jsstring) : jsstring :=
  match s with
  | [] => []
  | c :: s' =>
      match skip with
      | S skip' => replaceFrom pattern replacement skip' s'
      | O =>
          if startsWith s pattern
          then replacement
               ++ replaceFrom pattern replacement (length pattern - 1) s'
          else c :: replaceFrom pattern replacement 0 s'
      end
  end.

Definition replaceGlobally (pattern replacement s : jsstring) : jsstring :=
  replaceFrom pattern replacement 0 s.

Definition substitute (s : jsstring) (r : substitution) : jsstring :=
  replaceGlobally (pattern r) (replacement r) s.

(** The one-unit substitutions as a table: what each of the ten units
    becomes. *)
Definition unitTable : list (codeUnit * codeUnit) :=
  [(48, 111); (49, 108); (51, 101); (52, 97); (53, 115); (55, 116);
   (56, 98); (57, 103); (64, 97); (36, 115)]%N.

(** What a code unit becomes under the table: itself, if it is not in it. *)
Definition unitImage (c : codeUnit) : codeUnit :=
  match find (fun entry => N.eqb c (fst entry)) unitTable with
  | Some entry => snd entry
  | None => c
  end.

Definition substituteAll (s : jsstring) : jsstring :=
  fold_left substitute substitutions s.

(** [c] occurs in no pattern of the substitution [r]. *)
Definition separates (c : codeUnit) (r : substitution) : Prop :=
  match r with
  | Unit1 a _ => c <> a
  | Unit2 a1 a2 _ => c <> a1 /\ c <> a2
  end.

(** The code units that occur in a pattern of a substitution. *)
Definition patternUnits : list codeUnit :=
  [48; 49; 51; 52; 53; 55; 56; 57; 64; 36; 114; 110; 118]%N.

Definition inPattern (c : codeUnit) : bool := existsb (N.eqb c) patternUnits.

(** The entries of [homoglyphs] that are not ASCII. *)
Definition nonAsciiHomoglyphs : list jsstring :=
  filter (fun g => negb (forallb isAscii g)) (concat (map snd homoglyphs)).


(** The edit-distance recurrence on whole strings, read from the heads: the
    table of [levenshteinDistance] holds it on the reversed prefixes. *)
Fixpoint lev (a : jsstring) : jsstring -> Z :=
  fix lev_a (b : jsstring) : Z :=
    match a, b with
    | [], _ => Z.of_nat (length b)
    | _, [] => Z.of_nat (length a)
    | x :: a', y :: b' =>
        if N.eqb x y then lev a' b'
        else 1 + min3 (lev a' b) (lev_a b') (lev a' b')
    end.

(** What cell [(i, j)] of the table is to hold: the recurrence on the first
    [i] units of [a] and the first [j] units of [b]. *)
Definition prefixDistance (a b : jsstring) (i j : nat) : Z :=
  lev (rev (take i a)) (rev (take j b)).

(** The table is [(m+1) x (n+1)]. *)
Definition dims (dp : table) (m n : nat) : Prop :=
  length dp = S m /\ forall i, (i <= m)%nat -> length (dp !!! i) = S n.

(** The cells of [dp] that are filled when the main loop is at row [i],
    column [j]: the first row and column, the rows above [i], and row [i]
    left of [j]. *)
Definition filled (a b : jsstring) (dp : table) (i j : nat) : Prop :=
  dims dp (length a) (length b) /\
  forall i' j', (i' <= length a)%nat -> (j' <= length b)%nat ->
    (i' < i \/ (i' = i /\ j' < j) \/ i' = 0 \/ j' = 0)%nat ->
    tget dp i' j' = prefixDistance a b i' j'.

(** ** The rest of the detector's strings *)

(** [parts.join(sep)]. *)
Fixpoint join (sep : jsstring) (parts : list jsstring) : jsstring :=
  match parts with
  | [] => []
  | part :: rest =>
      match rest with
      | [] => part
      | _ :: _ => part ++ sep ++ join sep rest
      end
  end.

(** [s] is empty or starts with a code unit that is no white space. *)
Definition startsClean (s : jsstring) : bool :=
  match s with
  | c :: _ => negb (isWhiteSpace c)
  | [] => true
  end.

(** [t] starts with the code unit [q]. *)
Definition headIs (q : codeUnit) (t : jsstring) : bool :=
  match t with
  | y :: _ => N.eqb y q
  | [] => false
  end.

Definition isUpperLetter (c : codeUnit) : bool := N.leb 65 c && N.leb c 90.

(** An ASCII code unit that is no upper-case letter and none of [avoid]. *)
Definition clean (avoid : list codeUnit) (c : codeUnit) : bool :=
  isAscii c && negb (isUpperLetter c) && negb (existsb (N.eqb c) avoid).

(** The code units that a one-unit substitution of [normalizeString]
    replaces. *)
Definition substitutedUnits : list codeUnit :=
  [48; 49; 51; 52; 53; 55; 56; 57; 64; 36]%N.

(** A string on which [normalizeString] finds nothing to do: lower-case
    ASCII without a substituted unit and without "rn" or "vv". *)
Definition isNormalised (t : jsstring) : bool :=
  forallb (clean substitutedUnits) t
  && negb (includes t [114; 110]%N)
  && negb (includes t [118; 118]%N).

Definition isSome {A : Type} (v : option A) : bool :=
  match v with
  | Some _ => true
  | None => false
  end.

(** ** The brand loop and the verdict, signal by signal *)

(** Does the brand [known] stop the brand loop?  The three tests of one turn,
    behind the exact-match skip. *)
Definition brandFires (baseDomain normalizedDomain known : jsstring) : bool :=
  negb (jseq baseDomain known)
  && ((0 <? levenshteinDistance normalizedDomain known)
      && (levenshteinDistance normalizedDomain known <=? 2)
      || includes baseDomain known
      || negb (jseq normalizedDomain baseDomain)
         && (levenshteinDistance normalizedDomain known =? 0)).

(** What the brand loop adds for the brand that stops it: the score and the
    reason. *)
Definition brandSignal (baseDomain normalizedDomain known : jsstring)
  : Z * jsstring :=
  let distance := levenshteinDistance normalizedDomain known in
  if (0 <? distance) && (distance <=? 2) then (70, similarReason known distance)
  else if includes baseDomain known then (60, containsReason known)
  else (90, homographReason known).

Section Verdict.
Context {platform : Platform}.

(** The verdict on a hostname, signal by signal: the subdomain trick, the
    first brand that stops the brand loop, and the suspicious-TLD bonus. *)
Definition verdictOn (u hostname : jsstring) : AnalysisResult :=
  let baseDomain := getBaseDomain hostname in
  let normalizedDomain := normalizeString baseDomain in
  let trick := subdomainTrickSpec hostname in
  let brand := find (brandFires baseDomain normalizedDomain) knownDomains in
  let matched := match brand with Some known => Some known | None => trick end in
  let bonus :=
    arrayIncludes suspiciousTLDs (getTLD hostname) && isSome matched in
  mkResult u (isSome matched)
    (Z.min
       ((if isSome trick then 80 else 0)
        + match brand with
          | Some known => fst (brandSignal baseDomain normalizedDomain known)
          | None => 0
          end
        + (if bonus then 20 else 0))
       100)
    (match trick with Some known => [subdomainReason known] | None => [] end
     ++ match brand with
        | Some known => [snd (brandSignal baseDomain normalizedDomain known)]
        | None => []
        end
     ++ (if bonus then [tldReason (getTLD hostname)] else []))
    matched.

End Verdict.

(** ** The service worker ([background/background.js]) *)

(** What an awaited call of the outside world does: it resolves with a value
    or rejects with an error, of which the code reads [message]. *)
Inductive outcome (A : Type) :=
| Resolved (value : A)
| Rejected (message : jsstring).
Arguments Resolved {A} value.
Arguments Rejected {A} message.

Module Background.

Record Settings := mkSettings {
  malwareScanEnabled : bool;
  typosquatCheckEnabled : bool
}.

Record Stats := mkStats {
  urlsScanned : Z;
  threatsFound : Z
}.

(** What [VirusTotalAPI.checkUrl] resolves with, as far as [analyzeUrl] reads
    it: the truthiness of [success] and of [isMalicious], and the two counts
    that the reason prints. *)
Record MalwareResult := mkMalwareResult {
  success : bool;
  isMalicious : bool;
  positives : Z;
  total : Z
}.

(** [results] of [analyzeUrl]; the fields [url], [isSuspicious], [riskScore]
    and [reasons] carry the prefix [results] here. *)
Record Results := mkResults {
  resultsUrl : jsstring;
  typosquat : option AnalysisResult;
  malware : option MalwareResult;
  resultsIsSuspicious : bool;
  resultsRiskScore : Z;
  resultsReasons : list jsstring
}.

Definition virusTotalReason (m : MalwareResult) : jsstring :=
  str "VirusTotal: " ++ numberToString (positives m) ++ str "/"
  ++ numberToString (total m) ++ str " detections".

Section Worker.
Context {platform : Platform}.

(** The typosquat block of [analyzeUrl]. *)
Definition typosquatStep (settings : Settings) (u : jsstring) (results : Results)
  : Results :=
  if typosquatCheckEnabled settings then
    let typosquatResult := analyzeUrl u in
    if isSuspicious typosquatResult then
      mkResults (resultsUrl results) (Some typosquatResult) (malware results)
        true
        (Z.max (resultsRiskScore results) (riskScore typosquatResult))
        (resultsReasons results ++ reasons typosquatResult)
    else
      mkResults (resultsUrl results) (Some typosquatResult) (malware results)
        (resultsIsSuspicious results) (resultsRiskScore results)
        (resultsReasons results)
  else results.

(** The malware block, once [checkUrl] has resolved with [malwareResult]. *)
Definition malwareStep (malwareResult : MalwareResult) (results : Results)
  : Results :=
  if success malwareResult && isMalicious malwareResult then
    mkResults (resultsUrl results) (typosquat results) (Some malwareResult)
      true
      (Z.max (resultsRiskScore results) 90)
      (resultsReasons results ++ [virusTotalReason malwareResult])
  else
    mkResults (resultsUrl results) (typosquat results) (Some malwareResult)
      (resultsIsSuspicious results) (resultsRiskScore results)
      (resultsReasons results).

(** [stats.urlsScanned++; if (results.isSuspicious) stats.threatsFound++]. *)
Definition countScan (stats : Stats) (results : Results) : Stats :=
  mkStats (urlsScanned stats + 1)
    (if resultsIsSuspicious results then threatsFound stats + 1
     else threatsFound stats).

(** [analyzeUrl(url)] of the service worker.  [checkUrl] is what the awaited
    [VirusTotalAPI.checkUrl(url)] does if it is called, [saveStats] what the
    awaited [saveStats()] does.  Returns the statistics the call leaves and
    what it resolves or rejects with. *)
Definition analyzeUrl (settings : Settings) (stats : Stats)
    (checkUrl : outcome MalwareResult) (saveStats : outcome unit)
    (u : jsstring) : Stats * outcome Results :=
  let results := mkResults u None None false 0 [] in
  let results := typosquatStep settings u results in
  let afterMalware :=
    if malwareScanEnabled settings then
      match checkUrl with
      | Resolved malwareResult => Resolved (malwareStep malwareResult results)
      | Rejected message => Rejected message
      end
    else Resolved results in
  match afterMalware with
  | Rejected message => (stats, Rejected message)
  | Resolved results =>
      let stats := countScan stats results in
      match saveStats with
      | Resolved _ => (stats, Resolved results)
      | Rejected message => (stats, Rejected message)
      end
  end.

(** An entry of what [analyzeUrls] returns: a result, or
    [{ url, error, isSuspicious: false }]. *)
Inductive Entry :=
| Analyzed (results : Results)
| Failed (u : jsstring) (error : jsstring).

Definition entryUrl (e : Entry) : jsstring :=
  match e with
  | Analyzed results => resultsUrl results
  | Failed u _ => u
  end.

Definition entryIsSuspicious (e : Entry) : bool :=
  match e with
  | Analyzed results => resultsIsSuspicious results
  | Failed _ _ => false
  end.

(** [analyzeUrls(urls)]: every URL comes with what the outside world does
    during its scan; the statistics go from one scan to the next. *)
Fixpoint analyzeUrls (settings : Settings) (stats : Stats)
    (urls : list (jsstring * outcome MalwareResult * outcome unit))
  : Stats * list Entry :=
  match urls with
  | [] => (stats, [])
  | (u, checkUrl, saveStats) :: rest =>
      let (stats, result) := analyzeUrl settings stats checkUrl saveStats u in
      let entry :=
        match result with
        | Resolved results => Analyzed results
        | Rejected message => Failed u message
        end in
      let (stats, entries) := analyzeUrls settings stats rest in
      (stats, entry :: entries)
  end.

End Worker.
End Background.

(** The scan stops before it is counted: the malware check is on and
    [checkUrl] rejects. *)
Definition stopsEarly (settings : Background.Settings)
    (checkUrl : outcome Background.MalwareResult) : bool :=
  Background.malwareScanEnabled settings
  && match checkUrl with Rejected _ => true | Resolved _ => false end.

(** The test of the malware block: [checkUrl] resolved with a result whose
    [success] and [isMalicious] are truthy. *)
Definition flagged (checkUrl : outcome Background.MalwareResult) : bool :=
  match checkUrl with
  | Resolved m => Background.success m && Background.isMalicious m
  | Rejected _ => false
  end.

(** ** The content script ([content/content.js]) *)

Module Content.

(** The two entries of [HIGHLIGHT_STYLES]. *)
Inductive HighlightStyle := suspicious | warning.

(** The three style properties that a highlight sets. *)
Record Style := mkStyle {
  outline : jsstring;
  outlineOffset : jsstring;
  backgroundColor : jsstring
}.

Definition HIGHLIGHT_STYLES (h : HighlightStyle) : Style :=
  match h with
  | suspicious =>
      mkStyle (str "3px solid #ff4444") (str "2px")
        (str "rgba(255, 68, 68, 0.1)")
  | warning =>
      mkStyle (str "2px solid #ffaa00") (str "2px")
        (str "rgba(255, 170, 0, 0.1)")
  end.

(** An element as far as the script reads and writes it: the three style
    properties, the attribute [data-urlguard-warning] and the title. *)
Record Element := mkElement {
  style : Style;
  warningAttribute : option jsstring;
  title : jsstring
}.

(** What the script works on: the elements, numbered, and the map
    [highlightedElements] from highlighted elements to their original
    styles. *)
Record Page := mkPage {
  element : nat -> Element;
  highlightedElements : gmap nat Style
}.

(** The elements with element [e] changed to [x]. *)
Definition setElement (e : nat) (x : Element) (elements : nat -> Element)
  : nat -> Element :=
  fun e' => if Nat.eqb e' e then x else elements e'.

(** [highlightElement(element, style, tooltipText)]. *)
Definition highlightElement (e : nat) (h : Style) (tooltipText : jsstring)
    (p : Page) : Page :=
  let stored :=
    match highlightedElements p !! e with
    | Some _ => highlightedElements p
    | None => <[e := style (element p e)]> (highlightedElements p)
    end in
  mkPage
    (setElement e
       (mkElement h (Some tooltipText)
          (str "[URL Guard Warning] " ++ tooltipText))
       (element p))
    stored.

(** [removeHighlight(element)]. *)
Definition removeHighlight (e : nat) (p : Page) : Page :=
  match highlightedElements p !! e with
  | Some original =>
      mkPage
        (setElement e
           (mkElement original None
              (if startsWith (title (element p e)) (str "[URL Guard Warning]")
               then [] else title (element p e)))
           (element p))
        (delete e (highlightedElements p))
  | None => p
  end.

(** [clearAllHighlights()]: [removeHighlight] on every key of the map. *)
Definition clearAllHighlights (p : Page) : Page :=
  fold_left (fun p e => removeHighlight e p)
    (map fst (map_to_list (highlightedElements p))) p.

(** The style and the tooltip that the loop of [scanPage] chooses for a
    suspicious result. *)
Definition highlightStyleOf (results : Background.Results) : HighlightStyle :=
  if Background.resultsRiskScore results >=? 70 then suspicious else warning.

Definition tooltipTextOf (results : Background.Results) : jsstring :=
  join (str "; ") (Background.resultsReasons results).

(** The body of the loop over the results in [scanPage]. *)
Definition processResult (urlElements : gmap jsstring (list nat)) (p : Page)
    (result : Background.Entry) : Page :=
  match result with
  | Background.Analyzed results =>
      if Background.resultsIsSuspicious results then
        match urlElements !! Background.resultsUrl results with
        | Some elements =>
            let tooltipText := tooltipTextOf results in
            let style := HIGHLIGHT_STYLES (highlightStyleOf results) in
            fold_left (fun p e => highlightElement e style tooltipText p)
              elements p
        | None => p
        end
      else p
  | Background.Failed _ _ => p
  end.

Section Scan.
Context {platform : Platform}.
(** [window.location.hostname]. *)
Variable locationHostname : jsstring.

(** The test of [extractUrls] on the [href] of an anchor: an [http] or
    [https] URL that parses and whose hostname is not the page's. *)
Definition external (href : jsstring) : bool :=
  negb (jseq href [])
  && (startsWith href (str "http://") || startsWith href (str "https://"))
  && match urlHostname href with
     | Some hostname => negb (jseq hostname locationHostname)
     | None => false
     end.

(** [extractUrls()], on the anchors with an [href] in document order, each
    with its [href]: the URLs without repetition, and for every URL its
    anchors. *)
Definition extractUrls (anchors : list (nat * jsstring))
  : list jsstring * gmap jsstring (list nat) :=
  fold_left
    (fun found anchor =>
       let href := snd anchor in
       if external href then
         (if arrayIncludes (fst found) href then fst found
          else fst found ++ [href],
          <[href := default [] (snd found !! href) ++ [fst anchor]]>
            (snd found))
       else found)
    anchors ([], ∅).

(** [scanPage()], with the anchors that [extractUrls] finds, what the
    awaited [sendMessage] does if it is called ([None] for a falsy
    response), and the page as it is when the response arrives. *)
Definition scanPage (settings : Background.Settings)
    (anchors : list (nat * jsstring))
    (sendMessage : outcome (option (list Background.Entry))) (p : Page)
  : Page :=
  if negb (Background.malwareScanEnabled settings)
     && negb (Background.typosquatCheckEnabled settings)
  then clearAllHighlights p
  else
    let (urls, urlElements) := extractUrls anchors in
    if (length urls =? 0)%nat then p
    else
      match sendMessage with
      | Resolved (Some results) => fold_left (processResult urlElements) results p
      | Resolved None => p
      | Rejected _ => p
      end.

(** The result is suspicious and [e] is an anchor that [extractUrls] keeps
    and whose [href] is the result's URL. *)
Definition targets (anchors : list (nat * jsstring)) (result : Background.Entry)
    (e : nat) : bool :=
  Background.entryIsSuspicious result
  && existsb
       (fun anchor =>
          Nat.eqb (fst anchor) e && external (snd anchor)
          && jseq (snd anchor) (Background.entryUrl result))
       anchors.

(** Scans one after the other, each with its settings, anchors and
    response, on a page whose elements nothing else changes meanwhile. *)
Definition scanPages
    (scans : list (Background.Settings * list (nat * jsstring)
                   * outcome (option (list Background.Entry))))
    (p : Page) : Page :=
  fold_left (fun p scan => scanPage (fst (fst scan)) (snd (fst scan)) (snd scan) p)
    scans p.

End Scan.

(** The results that the loop of [scanPage] goes through: none when the
    message fails or the response is falsy. *)
Definition received (sendMessage : outcome (option (list Background.Entry)))
  : list Background.Entry :=
  match sendMessage with
  | Resolved (Some results) => results
  | Resolved None => []
  | Rejected _ => []
  end.

(** The element as [highlightElement] leaves it. *)
Definition highlighted (h : HighlightStyle) (tooltipText : jsstring) : Element :=
  mkElement (HIGHLIGHT_STYLES h) (Some tooltipText)
    (str "[URL Guard Warning] " ++ tooltipText).

(** The style that [removeHighlight] would give the element back, or that
    it has if it is not highlighted. *)
Definition originalStyle (p : Page) (e : nat) : Style :=
  default (style (element p e)) (highlightedElements p !! e).

End Content.

(** ** The VirusTotal client ([lib/virustotal.js]) *)

Module VirusTotal.

Definition CACHE_TTL : Z := 3600000.
Definition MIN_REQUEST_INTERVAL : Z := 15000.

(** The report that [checkUrl] builds from the answer of the API and caches. *)
Record Report := mkReport {
  found : bool;
  positives : Z;
  total : Z;
  scanDate : option jsstring;
  permalink : option jsstring;
  isMalicious : bool;
  riskLevel : jsstring
}.

Record CacheEntry := mkCacheEntry {
  data : Report;
  timestamp : Z
}.

(** [getCached(url)], with [now] what [Date.now()] returns: the cached data
    or [null], and the cache it leaves. *)
Definition getCached (now : Z) (u : jsstring) (cache : gmap jsstring CacheEntry)
  : option Report * gmap jsstring CacheEntry :=
  match cache !! u with
  | Some cached =>
      if now - timestamp cached <? CACHE_TTL then (Some (data cached), cache)
      else (None, delete u cache)
  | None => (None, delete u cache)
  end.

(** [setCache(url, data)]. *)
Definition setCache (now : Z) (u : jsstring) (d : Report)
    (cache : gmap jsstring CacheEntry) : gmap jsstring CacheEntry :=
  <[u := mkCacheEntry d now]> cache.

(** [clearCache()]. *)
Definition clearCache (cache : gmap jsstring CacheEntry)
  : gmap jsstring CacheEntry := ∅.

(** [waitForRateLimit()]: the delay it asks [setTimeout] for, if any, with
    [now] what the first [Date.now()] returns. *)
Definition waitTime (lastRequestTime now : Z) : option Z :=
  let timeSinceLastRequest := now - lastRequestTime in
  if timeSinceLastRequest <? MIN_REQUEST_INTERVAL
  then Some (MIN_REQUEST_INTERVAL - timeSinceLastRequest)
  else None.

(** The JSON object that the API answers with, as [checkUrl] reads it: the
    counts are integers where the answer has them. *)
Record ReportData := mkReportData {
  response_code : option Z;
  dataPositives : option Z;
  dataTotal : option Z;
  scan_date : option jsstring;
  dataPermalink : option jsstring
}.

(** [fetch]'s response, as far as [checkUrl] reads it. *)
Record Response := mkResponse {
  status : Z;
  ok : bool
}.

(** What the outside world does during one call of [checkUrl]: the clock at
    the cache lookup, the stored API key, the clock before and after the
    wait for the rate limit, the response, its JSON body, and the clock when
    the report is cached. *)
Record World := mkWorld {
  nowAtLookup : Z;
  storedApiKey : outcome (option jsstring);
  nowAtRateCheck : Z;
  nowAtRequest : Z;
  fetched : outcome Response;
  json : outcome ReportData;
  nowAtStore : Z
}.

(** The client's own state. *)
Record State := mkState {
  cache : gmap jsstring CacheEntry;
  lastRequestTime : Z
}.

(** The objects that [checkUrl] resolves with. *)
Inductive CheckResult :=
| FromCache (report : Report)
| NoApiKey
| NotFound
| InvalidApiKey
| RateLimited
| ApiError (status : Z)
| Fresh (report : Report)
| Failure (error : jsstring).

(** [waitForRateLimit()]: the delay it waits for, if any, and the state it
    leaves, with [now] and [nowAfter] what the two calls of [Date.now()]
    return. *)
Definition waitForRateLimit (now nowAfter : Z) (st : State) : option Z * State :=
  (waitTime (lastRequestTime st) now, mkState (cache st) nowAfter).

(** [v || 0] on a count. *)
Definition orZero (v : option Z) : Z :=
  match v with
  | Some n => n
  | None => 0
  end.

(** [error.message || 'Network error']. *)
Definition errorMessage (message : jsstring) : jsstring :=
  match message with
  | [] => str "Network error"
  | _ :: _ => message
  end.

Section CheckUrl.
(** [calculateRiskLevel], which compares a floating-point ratio, is left
    open. *)
Variable calculateRiskLevel : option Z -> option Z -> jsstring.

Definition buildReport (d : ReportData) : Report :=
  mkReport
    (match response_code d with Some 1 => true | _ => false end)
    (orZero (dataPositives d))
    (orZero (dataTotal d))
    (scan_date d)
    (dataPermalink d)
    (0 <? orZero (dataPositives d))
    (calculateRiskLevel (dataPositives d) (dataTotal d)).

(** The [try] block of [checkUrl], once the rate limit is waited for. *)
Definition request (w : World) (u : jsstring) (st : State)
  : State * CheckResult :=
  let st := snd (waitForRateLimit (nowAtRateCheck w) (nowAtRequest w) st) in
  match fetched w with
  | Rejected message => (st, Failure (errorMessage message))
  | Resolved response =>
      if status response =? 204 then (st, NotFound)
      else if status response =? 403 then (st, InvalidApiKey)
      else if status response =? 429 then (st, RateLimited)
      else if negb (ok response) then (st, ApiError (status response))
      else
        match json w with
        | Rejected message => (st, Failure (errorMessage message))
        | Resolved d =>
            let result := buildReport d in
            (mkState (setCache (nowAtStore w) u result (cache st))
               (lastRequestTime st),
             Fresh result)
        end
  end.

(** [checkUrl(url)]. *)
Definition checkUrl (w : World) (u : jsstring) (st : State)
  : State * outcome CheckResult :=
  let (cached, cache') := getCached (nowAtLookup w) u (cache st) in
  let st := mkState cache' (lastRequestTime st) in
  match cached with
  | Some report => (st, Resolved (FromCache report))
  | None =>
      match storedApiKey w with
      | Rejected message => (st, Rejected message)
      | Resolved apiKey =>
          if truthy apiKey then
            let (st, result) := request w u st in (st, Resolved result)
          else (st, Resolved NoApiKey)
      end
  end.

(** The state of a freshly loaded script. *)
Definition initial : State := mkState ∅ 0.

(** The state after calls of [checkUrl] that do not overlap, each with the
    world it runs in, the first call on the state of a freshly loaded
    script. *)
Definition after (calls : list (World * jsstring)) : State :=
  fold_left (fun st call => fst (checkUrl (fst call) (snd call) st))
    calls initial.

End CheckUrl.

(** What the service worker reads of a result of [checkUrl]. *)
Definition asMalwareResult (c : CheckResult) : Background.MalwareResult :=
  match c with
  | FromCache r | Fresh r =>
      Background.mkMalwareResult true (isMalicious r) (positives r) (total r)
  | NotFound => Background.mkMalwareResult true false 0 0
  | NoApiKey | InvalidApiKey | RateLimited | ApiError _ | Failure _ =>
      Background.mkMalwareResult false false 0 0
  end.

End VirusTotal.

(** Is the result a report, fresh or from the cache? *)
Definition reportOf (c : VirusTotal.CheckResult) : option VirusTotal.Report :=
  match c with
  | VirusTotal.FromCache r | VirusTotal.Fresh r => Some r
  | _ => None
  end.

(** Every cached report says it is malicious exactly when it counts a
    detection. *)
Definition cacheConsistent (st : VirusTotal.State) : Prop :=
  forall u e, VirusTotal.cache st !! u = Some e ->
    VirusTotal.isMalicious (VirusTotal.data e)
    = (0 <? VirusTotal.positives (VirusTotal.data e)).

(** What the service worker gets from [checkUrl]. *)
Definition malwareOutcome (out : outcome VirusTotal.CheckResult)
  : outcome Background.MalwareResult :=
  match out with
  | Resolved c => Resolved (VirusTotal.asMalwareResult c)
  | Rejected message => Rejected message
  end.

(** ** Regular expressions, as far as [lib/auth.js] uses them *)

Module Regex.

(** A pattern without flags, read on code units. *)
Inductive regex :=
| Void
| Eps
| Class (p : codeUnit -> bool)
| Seq (r1 r2 : regex)
| Alt (r1 r2 : regex)
| Star (r : regex).

(** [r+]. *)
Definition Plus (r : regex) : regex := Seq r (Star r).

(** One code unit. *)
Definition Unit (c : codeUnit) : regex := Class (N.eqb c).

Fixpoint nullable (r : regex) : bool :=
  match r with
  | Void => false
  | Eps => true
  | Class _ => false
  | Seq r1 r2 => nullable r1 && nullable r2
  | Alt r1 r2 => nullable r1 || nullable r2
  | Star _ => true
  end.

(** What is left of [r] once [c] is read. *)
Fixpoint derive (c : codeUnit) (r : regex) : regex :=
  match r with
  | Void => Void
  | Eps => Void
  | Class p => if p c then Eps else Void
  | Seq r1 r2 =>
      if nullable r1 then Alt (Seq (derive c r1) r2) (derive c r2)
      else Seq (derive c r1) r2
  | Alt r1 r2 => Alt (derive c r1) (derive c r2)
  | Star r => Seq (derive c r) (Star r)
  end.

(** [/^r$/.test(s)]. *)
Fixpoint test (r : regex) (s : jsstring) : bool :=
  match s with
  | [] => nullable r
  | c :: s' => test (derive c r) s'
  end.

(** The strings of [r]. *)
Inductive Lang : regex -> jsstring -> Prop :=
| LangEps : Lang Eps []
| LangClass p c : p c = true -> Lang (Class p) [c]
| LangSeq r1 r2 s1 s2 : Lang r1 s1 -> Lang r2 s2 -> Lang (Seq r1 r2) (s1 ++ s2)
| LangAltL r1 r2 s : Lang r1 s -> Lang (Alt r1 r2) s
| LangAltR r1 r2 s : Lang r2 s -> Lang (Alt r1 r2) s
| LangStarNil r : Lang (Star r) []
| LangStarCons r s1 s2 :
    Lang r s1 -> Lang (Star r) s2 -> Lang (Star r) (s1 ++ s2).

End Regex.

(** ** The mock authentication ([lib/auth.js]) *)

Module Auth.

(** [[^\s@]]. *)
Definition notSpaceOrAt (c : codeUnit) : bool :=
  negb (isWhiteSpace c) && negb (N.eqb c 64).

(** [/^[^\s@]+@[^\s@]+\.[^\s@]+$/]. *)
Definition emailRegex : Regex.regex :=
  Regex.Seq (Regex.Plus (Regex.Class notSpaceOrAt))
    (Regex.Seq (Regex.Unit 64)
       (Regex.Seq (Regex.Plus (Regex.Class notSpaceOrAt))
          (Regex.Seq (Regex.Unit 46)
             (Regex.Plus (Regex.Class notSpaceOrAt))))).

Definition isValidEmail (email : jsstring) : bool :=
  Regex.test emailRegex email.

Record User := mkUser {
  email : jsstring;
  loginTime : Z
}.

(** The two keys of [chrome.storage.local] that [Auth] writes, each holding
    what [Auth] stores under it, or nothing. *)
Record Storage := mkStorage {
  safesurfer_auth : option bool;
  safesurfer_user : option User
}.

Inductive LoginResult :=
| LoginSuccess (user : User)
| LoginFailure (error : jsstring).

(** [login(email, password)], with [now] what [Date.now()] returns; the
    storage calls resolve. *)
Definition login (email password : jsstring) (now : Z) (storage : Storage)
  : LoginResult * Storage :=
  if jseq email [] || jseq password [] then
    (LoginFailure (str "Email and password are required"), storage)
  else if negb (isValidEmail email) then
    (LoginFailure (str "Invalid email format"), storage)
  else if (length password <? 4)%nat then
    (LoginFailure (str "Password must be at least 4 characters"), storage)
  else
    let user := mkUser email now in
    (LoginSuccess user, mkStorage (Some true) (Some user)).

Definition logout (storage : Storage) : Storage := mkStorage None None.

Definition isLoggedIn (storage : Storage) : bool :=
  match safesurfer_auth storage with
  | Some true => true
  | _ => false
  end.

Definition getUser (storage : Storage) : option User := safesurfer_user storage.

End Auth.

(** ** The detector on the examples of its documentation *)

Example levenshtein_kitten_sitting :
  levenshteinDistance (str "kitten") (str "sitting") = 3.
Proof. vm_compute. reflexivity. Qed.

Example split_hostname :
  split dot (str "paypal.com.evil.com")
  = [str "paypal"; str "com"; str "evil"; str "com"].
Proof. reflexivity. Qed.

Example split_empty : split dot (str "") = [str ""].
Proof. reflexivity. Qed.

Example replace_pairs_do_not_overlap :
  replaceAll2 118 118 119 (str "vvv") = str "wv".
Proof. reflexivity. Qed.

Example baseDomain_co_uk : getBaseDomain (str "example.co.uk") = str "example".
Proof. reflexivity. Qed.

Example normalize_chained :
  @normalizeString samplePlatform (str "PAYPA1-5ECURE") = str "paypal-secure".
Proof. reflexivity. Qed.

Example gooogle_is_similar_to_google :
  @analyzeUrl samplePlatform (str "https://gooogle.com")
  = mkResult (str "https://gooogle.com") true 70
      [str "Similar to " ++ [dquote] ++ str "google" ++ [dquote]
       ++ str " (1 character difference)"]
      (Some (str "google")).
Proof. vm_compute. reflexivity. Qed.

Example no_scheme_is_https :
  @analyzeUrl samplePlatform (str "  gooogle.com ")
  = mkResult (str "  gooogle.com ") true 70
      [similarReason (str "google") 1] (Some (str "google")).
Proof. vm_compute. reflexivity. Qed.

Example unrelated_news_site :
  @analyzeUrl samplePlatform (str "https://unrelated-news-site.com")
  = freshResult (str "https://unrelated-news-site.com").
Proof. vm_compute. reflexivity. Qed.

(** ** Strings: equality and containment *)

Lemma jseq_eq (a b : jsstring) : jseq a b = true <-> a = b.
Proof.
  revert b. induction a as [|x a IH]; intros [|y b]; simpl; split;
    try congruence; try discriminate.
  - rewrite andb_true_iff, N.eqb_eq, IH. intros [-> ->]. reflexivity.
  - intros [= -> ->]. rewrite N.eqb_refl. simpl. apply IH. reflexivity.
Qed.

Lemma jseq_refl (a : jsstring) : jseq a a = true.
Proof. apply jseq_eq. reflexivity. Qed.

Lemma jseq_includes (s sub : jsstring) : jseq s sub = true -> includes s sub = true.
Proof.
  rewrite jseq_eq. intros ->.
  assert (H : forall p : jsstring, startsWith p p = true).
  { induction p as [|c p IH]; simpl; [reflexivity|].
    rewrite N.eqb_refl. exact IH. }
  destruct sub; simpl; [reflexivity|].
  rewrite N.eqb_refl. simpl. rewrite H. reflexivity.
Qed.

(** ** The similarity engine computes the recurrence *)

Lemma lev_nil_l (b : jsstring) : lev [] b = Z.of_nat (length b).
Proof. destruct b; reflexivity. Qed.

Lemma lev_nil_r (a : jsstring) : lev a [] = Z.of_nat (length a).
Proof. destruct a; reflexivity. Qed.

Lemma lev_cons (x y : codeUnit) (a b : jsstring) :
  lev (x :: a) (y :: b) =
  if N.eqb x y then lev a b
  else 1 + min3 (lev a (y :: b)) (lev (x :: a) b) (lev a b).
Proof. reflexivity. Qed.

Lemma lev_sym (a b : jsstring) : lev a b = lev b a.
Proof.
  revert b. induction a as [|x a IHa]; intros b.
  - rewrite lev_nil_l, lev_nil_r. reflexivity.
  - induction b as [|y b IHb].
    + rewrite lev_nil_l, lev_nil_r. reflexivity.
    + rewrite !lev_cons, (N.eqb_sym y x), IHb, !IHa.
      destruct (N.eqb x y); [reflexivity|].
      unfold min3. lia.
Qed.

Lemma lev_diag (a : jsstring) : lev a a = 0.
Proof.
  induction a as [|x a IH]; [reflexivity|].
  rewrite lev_cons, N.eqb_refl. exact IH.
Qed.

Lemma lev_nonneg (a b : jsstring) : 0 <= lev a b.
Proof.
  revert b. induction a as [|x a IHa]; intros b.
  - rewrite lev_nil_l. lia.
  - induction b as [|y b IHb].
    + rewrite lev_nil_r. lia.
    + rewrite lev_cons. destruct (N.eqb x y); [apply IHa|].
      pose proof (IHa (y :: b)). pose proof (IHa b). unfold min3. lia.
Qed.

(** A [for] loop over [start .. start+len-1] keeps an invariant that every
    iteration keeps. *)
Lemma for_loop_invariant {St : Type} (P : nat -> St -> Prop)
    (body : St -> nat -> St) (len start : nat) (s : St) :
  P start s ->
  (forall k s', (start <= k < start + len)%nat -> P k s' -> P (S k) (body s' k)) ->
  P (start + len)%nat (fold_left body (seq start len) s).
Proof.
  revert start s. induction len as [|len IH]; intros start s H0 Hstep; simpl.
  - rewrite Nat.add_0_r. exact H0.
  - replace (start + S len)%nat with (S start + len)%nat by lia.
    apply IH.
    + apply Hstep; [lia | exact H0].
    + intros k s' Hk. apply Hstep. lia.
Qed.

Lemma dims_tset (dp : table) (m n i j : nat) (v : Z) :
  dims dp m n -> dims (tset dp i j v) m n.
Proof.
  intros [Hlen Hrow]. unfold tset. split.
  - rewrite length_insert. exact Hlen.
  - intros k Hk. destruct (decide (i = k)) as [->|Hne].
    + rewrite list_lookup_total_insert_eq by lia.
      rewrite length_insert. apply Hrow. exact Hk.
    + rewrite list_lookup_total_insert_ne by exact Hne. apply Hrow. exact Hk.
Qed.

Lemma tget_tset_eq (dp : table) (m n i j : nat) (v : Z) :
  dims dp m n -> (i <= m)%nat -> (j <= n)%nat -> tget (tset dp i j v) i j = v.
Proof.
  intros [Hlen Hrow] Hi Hj. unfold tget, tset.
  rewrite list_lookup_total_insert_eq by lia.
  apply list_lookup_total_insert_eq. rewrite Hrow by exact Hi. lia.
Qed.

Lemma tget_tset_ne (dp : table) (m n i j i' j' : nat) (v : Z) :
  dims dp m n -> (i <= m)%nat -> i <> i' \/ j <> j' ->
  tget (tset dp i j v) i' j' = tget dp i' j'.
Proof.
  intros [Hlen Hrow] Hi Hne. unfold tget, tset.
  destruct (decide (i = i')) as [<-|Hii].
  - rewrite list_lookup_total_insert_eq by lia.
    apply list_lookup_total_insert_ne. destruct Hne; congruence.
  - rewrite list_lookup_total_insert_ne by exact Hii. reflexivity.
Qed.

Section LevenshteinTable.
Variables a b : jsstring.

Lemma prefixDistance_0_r (i : nat) :
  (i <= length a)%nat -> prefixDistance a b i 0 = Z.of_nat i.
Proof.
  intros Hi. unfold prefixDistance. rewrite take_0. simpl.
  rewrite lev_nil_r, length_rev, length_take. lia.
Qed.

Lemma prefixDistance_0_l (j : nat) :
  (j <= length b)%nat -> prefixDistance a b 0 j = Z.of_nat j.
Proof.
  intros Hj. unfold prefixDistance. rewrite take_0. simpl.
  rewrite lev_nil_l, length_rev, length_take. lia.
Qed.

Lemma prefixDistance_S (i j : nat) (x y : codeUnit) :
  a !! i = Some x -> b !! j = Some y ->
  prefixDistance a b (S i) (S j) =
  if N.eqb x y then prefixDistance a b i j
  else 1 + min3 (prefixDistance a b i (S j)) (prefixDistance a b (S i) j)
                (prefixDistance a b i j).
Proof.
  intros Hx Hy. unfold prefixDistance.
  rewrite (take_S_r a i x Hx), (take_S_r b j y Hy), !rev_unit.
  apply lev_cons.
Qed.

Lemma prefixDistance_full :
  prefixDistance a b (length a) (length b) = lev (rev a) (rev b).
Proof. unfold prefixDistance. rewrite !firstn_all. reflexivity. Qed.

(** The two initialisation loops fill the first column and the first row. *)
Lemma init_filled :
  let m := length a in
  let n := length b in
  let dp := replicate (m + 1) (replicate (n + 1) 0) in
  let dp := fold_left (fun dp i => tset dp i 0 (Z.of_nat i)) (seq 0 (m + 1)) dp in
  let dp := fold_left (fun dp j => tset dp 0 j (Z.of_nat j)) (seq 0 (n + 1)) dp in
  filled a b dp 1 1.
Proof.
  intros m n dp0 dp1 dp2.
  assert (H0 : dims dp0 m n).
  { subst dp0. split.
    - rewrite length_replicate. lia.
    - intros i Hi. rewrite lookup_total_replicate_2 by lia.
      rewrite length_replicate. lia. }
  assert (H1 : dims dp1 m n /\
               forall i, (i < 0 + (m + 1))%nat -> tget dp1 i 0 = Z.of_nat i).
  { subst dp1.
    apply (for_loop_invariant
             (fun k dp => dims dp m n /\
                forall i, (i < k)%nat -> tget dp i 0 = Z.of_nat i)).
    - split; [exact H0 | intros i Hi; lia].
    - intros k dp Hk [Hd Hc]. split; [apply dims_tset; exact Hd|].
      intros i Hi. destruct (decide (k = i)) as [->|Hne].
      + apply (tget_tset_eq dp m n); [exact Hd | lia | lia].
      + rewrite (tget_tset_ne dp m n) by (auto; lia). apply Hc. lia. }
  destruct H1 as [Hd1 Hc1].
  assert (H2 : dims dp2 m n /\
               (forall i, (i <= m)%nat -> tget dp2 i 0 = Z.of_nat i) /\
               forall j, (j < 0 + (n + 1))%nat -> tget dp2 0 j = Z.of_nat j).
  { subst dp2.
    apply (for_loop_invariant
             (fun k dp => dims dp m n /\
                (forall i, (i <= m)%nat -> tget dp i 0 = Z.of_nat i) /\
                forall j, (j < k)%nat -> tget dp 0 j = Z.of_nat j)).
    - split; [exact Hd1|]. split; [intros i Hi; apply Hc1; lia | intros j Hj; lia].
    - intros k dp Hk (Hd & Hc & Hr). split; [apply dims_tset; exact Hd|]. split.
      + intros i Hi. destruct (decide (0 = i /\ k = 0)%nat) as [[<- ->]|Hne].
        * apply (tget_tset_eq dp m n); [exact Hd | lia | lia].
        * rewrite (tget_tset_ne dp m n) by (auto; lia). apply Hc. exact Hi.
      + intros j Hj. destruct (decide (k = j)) as [->|Hne].
        * apply (tget_tset_eq dp m n); [exact Hd | lia | lia].
        * rewrite (tget_tset_ne dp m n) by (auto; lia). apply Hr. lia. }
  destruct H2 as (Hd2 & Hc2 & Hr2).
  split; [exact Hd2|].
  intros i' j' Hi' Hj' Hcase.
  assert (Hz : (i' = 0 \/ j' = 0)%nat) by lia.
  destruct Hz as [->| ->].
  - rewrite prefixDistance_0_l by exact Hj'. apply Hr2. lia.
  - rewrite prefixDistance_0_r by exact Hi'. apply Hc2. exact Hi'.
Qed.

(** One cell of the main loop. *)
Lemma levCell_filled (dp : table) (i j : nat) :
  (1 <= i <= length a)%nat -> (1 <= j <= length b)%nat ->
  filled a b dp i j -> filled a b (levCell a b i dp j) i (S j).
Proof.
  intros Hi Hj [Hd Hf].
  destruct (lookup_lt_is_Some_2 a (i - 1)) as [x Hx]; [lia|].
  destruct (lookup_lt_is_Some_2 b (j - 1)) as [y Hy]; [lia|].
  pose proof (prefixDistance_S (i - 1) (j - 1) x y Hx Hy) as HS.
  replace (S (i - 1)) with i in HS by lia.
  replace (S (j - 1)) with j in HS by lia.
  assert (Hv : tget (levCell a b i dp j) i j = prefixDistance a b i j
               /\ exists v, levCell a b i dp j = tset dp i j v).
  { unfold levCell. rewrite Hx, Hy.
    rewrite (Hf (i - 1) (j - 1))%nat by lia.
    rewrite (Hf (i - 1) j)%nat by lia.
    rewrite (Hf i (j - 1))%nat by lia.
    rewrite HS.
    destruct (N.eqb_spec x y) as [->|Hne].
    - rewrite bool_decide_eq_true_2 by reflexivity.
      split; [|eexists; reflexivity].
      apply (tget_tset_eq dp (length a) (length b)); [exact Hd | lia | lia].
    - rewrite bool_decide_eq_false_2 by congruence.
      split; [|eexists; reflexivity].
      apply (tget_tset_eq dp (length a) (length b)); [exact Hd | lia | lia]. }
  destruct Hv as [Hv [v Hset]].
  split.
  - rewrite Hset. apply dims_tset. exact Hd.
  - intros i' j' Hi' Hj' Hcase.
    destruct (decide (i = i' /\ j = j')) as [[<- <-]|Hne].
    + exact Hv.
    + rewrite Hset.
      rewrite (tget_tset_ne dp (length a) (length b)) by (auto; lia).
      apply Hf; lia.
Qed.

(** One row of the main loop. *)
Lemma levRow_filled (dp : table) (i : nat) :
  (1 <= i <= length a)%nat ->
  filled a b dp i 1 -> filled a b (levRow a b (length b) dp i) (S i) 1.
Proof.
  intros Hi Hf.
  assert (H : filled a b (levRow a b (length b) dp i) i (1 + length b)).
  { unfold levRow.
    apply (for_loop_invariant (fun j dp => filled a b dp i j)); [exact Hf|].
    intros j dp' Hj Hf'. apply levCell_filled; [exact Hi | lia | exact Hf']. }
  destruct H as [Hd H]. split; [exact Hd|].
  intros i' j' Hi' Hj' Hcase. apply H; lia.
Qed.

(** The table computes the recurrence on the reversed strings. *)
Lemma levenshteinDistance_lev :
  levenshteinDistance a b = lev (rev a) (rev b).
Proof.
  unfold levenshteinDistance.
  pose proof init_filled as Hinit. cbv zeta in Hinit.
  set (dp2 := fold_left _ (seq 0 (length b + 1)) _) in *.
  assert (H : filled a b (fold_left (levRow a b (length b)) (seq 1 (length a)) dp2)
                (1 + length a) 1).
  { apply (for_loop_invariant (fun i dp => filled a b dp i 1)); [exact Hinit|].
    intros i dp Hi Hf. apply levRow_filled; [lia | exact Hf]. }
  destruct H as [_ H]. cbv zeta.
  rewrite H by lia. apply prefixDistance_full.
Qed.
End LevenshteinTable.

(** C9. For all strings [L], [levenshteinDistance L L] is 0; for all strings
    [A] and [B], [levenshteinDistance A B] equals [levenshteinDistance B A];
    and the distance is never negative. *)
Theorem levenshteinDistance_zero_symmetric_nonneg :
  (forall L : jsstring, levenshteinDistance L L = 0) /\
  (forall A B : jsstring, levenshteinDistance A B = levenshteinDistance B A) /\
  (forall A B : jsstring, 0 <= levenshteinDistance A B).
Proof.
  split; [|split].
  - intros L. rewrite levenshteinDistance_lev. apply lev_diag.
  - intros A B. rewrite !levenshteinDistance_lev. apply lev_sym.
  - intros A B. rewrite levenshteinDistance_lev. apply lev_nonneg.
Qed.

(** ** The steps of [analyzeUrl], by cases *)

Create HintDb detector discriminated.

Arguments levenshteinDistance : simpl never.
Arguments subdomainReason : simpl never.
Arguments similarReason : simpl never.
Arguments containsReason : simpl never.
Arguments homographReason : simpl never.
Arguments tldReason : simpl never.
Arguments knownDomains : simpl never.
Arguments suspiciousTLDs : simpl never.
Arguments includes : simpl never.
Arguments jseq : simpl never.

Lemma grows_refl (r : AnalysisResult) : grows r r.
Proof. split; [lia | exists []; symmetry; apply app_nil_r]. Qed.

Lemma grows_trans (r1 r2 r3 : AnalysisResult) :
  grows r1 r2 -> grows r2 r3 -> grows r1 r3.
Proof.
  intros [H1 [e1 E1]] [H2 [e2 E2]]. split; [lia|].
  exists (e1 ++ e2). rewrite E2, E1, app_assoc. reflexivity.
Qed.

#[local] Hint Resolve grows_refl : detector.

Section DetectorSteps.
Context {platform : Platform}.

Lemma subdomainScan_cases (parts brands : list jsstring) :
  subdomainScan parts brands = mkSubdomainCheck false None None \/
  exists known, In known brands /\
    subdomainScan parts brands =
    mkSubdomainCheck true (Some (subdomainReason known)) (Some known).
Proof.
  induction brands as [|known rest IH]; simpl; [left; reflexivity|].
  destruct (labelHit parts known).
  - right. exists known. split; [left|]; reflexivity.
  - destruct IH as [IH|[k [Hin IH]]]; [left; exact IH|].
    right. exists k. split; [right; exact Hin | exact IH].
Qed.

Lemma subdomainStep_cases (hostname : jsstring) (r : AnalysisResult) :
  subdomainStep hostname r = r \/
  exists known, In known knownDomains /\
    subdomainStep hostname r =
    mkResult (url r) true (riskScore r + 80)
      (reasons r ++ [subdomainReason known]) (Some known).
Proof.
  unfold subdomainStep, checkSubdomainTrick.
  destruct (3 <? length (split dot hostname))%nat; [|left; reflexivity].
  destruct (subdomainScan_cases (split dot hostname) knownDomains)
    as [E|[known [Hin E]]]; rewrite E; simpl.
  - left. reflexivity.
  - right. exists known. split; [exact Hin | reflexivity].
Qed.

Lemma brandLoop_cases (baseDomain normalizedDomain : jsstring)
    (brands : list jsstring) (r : AnalysisResult) :
  brandLoop baseDomain normalizedDomain brands r = r \/
  exists known delta reason,
    In known brands /\ In delta [70; 60; 90] /\
    brandSignalReason known reason /\
    brandLoop baseDomain normalizedDomain brands r =
    mkResult (url r) true (riskScore r + delta) (reasons r ++ [reason])
      (Some known).
Proof.
  induction brands as [|known rest IH]; simpl; [left; reflexivity|].
  assert (Hrest :
    brandLoop baseDomain normalizedDomain rest r = r \/
    exists known0 delta reason,
      (known = known0 \/ In known0 rest) /\ In delta [70; 60; 90] /\
      brandSignalReason known0 reason /\
      brandLoop baseDomain normalizedDomain rest r =
      mkResult (url r) true (riskScore r + delta) (reasons r ++ [reason])
        (Some known0)).
  { destruct IH as [IH|(k & d & rs & Hin & Hd & Hr & E)]; [left; exact IH|].
    right. exists k, d, rs. auto. }
  destruct (jseq baseDomain known); [exact Hrest|].
  destruct ((0 <? levenshteinDistance normalizedDomain known)
            && (levenshteinDistance normalizedDomain known <=? 2)).
  { right. exists known, 70, (similarReason known
                                (levenshteinDistance normalizedDomain known)).
    repeat split; simpl; auto. right. left. eexists. reflexivity. }
  destruct (includes baseDomain known && negb false).
  { right. exists known, 60, (containsReason known).
    repeat split; simpl; auto. right. right. left. reflexivity. }
  destruct (negb (jseq normalizedDomain baseDomain)); [|exact Hrest].
  destruct (levenshteinDistance normalizedDomain known =? 0); [|exact Hrest].
  right. exists known, 90, (homographReason known).
  repeat split; simpl; auto. right. right. right. reflexivity.
Qed.

Lemma tldStep_cases (tld : jsstring) (r : AnalysisResult) :
  tldStep tld r = r \/
  (truthy (matchedDomain r) = true /\
   tldStep tld r =
   mkResult (url r) (isSuspicious r) (riskScore r + 20)
     (reasons r ++ [tldReason tld]) (matchedDomain r)).
Proof.
  unfold tldStep. destruct (arrayIncludes suspiciousTLDs tld); simpl;
    [|left; reflexivity].
  destruct (truthy (matchedDomain r)); [right; split|left]; reflexivity.
Qed.

(** [analyzeUrl] either returns the fresh result or runs the four steps on
    it. *)
Lemma analyzeUrl_cases (u : jsstring) :
  analyzeUrl u = freshResult u \/
  exists hostname,
    extractDomain u = Some hostname /\
    analyzeUrl u =
    capStep
      (tldStep (getTLD hostname)
         (brandLoop (getBaseDomain hostname)
            (normalizeString (getBaseDomain hostname))
            knownDomains
            (subdomainStep hostname (freshResult u)))).
Proof.
  unfold analyzeUrl.
  destruct (extractDomain u)
    as [[|c h]|]; [left; reflexivity | | left; reflexivity].
  right. exists (c :: h). split; reflexivity.
Qed.

Lemma subdomainStep_grows (hostname : jsstring) (r : AnalysisResult) :
  grows r (subdomainStep hostname r).
Proof.
  destruct (subdomainStep_cases hostname r) as [->|(k & _ & ->)];
    [apply grows_refl|].
  split; simpl; [lia | eexists; reflexivity].
Qed.

Lemma brandLoop_grows (baseDomain normalizedDomain : jsstring)
    (brands : list jsstring) (r : AnalysisResult) :
  grows r (brandLoop baseDomain normalizedDomain brands r).
Proof.
  destruct (brandLoop_cases baseDomain normalizedDomain brands r)
    as [->|(k & d & rs & _ & Hd & _ & ->)]; [apply grows_refl|].
  split; simpl; [|eexists; reflexivity].
  simpl in Hd. lia.
Qed.

Lemma tldStep_grows (tld : jsstring) (r : AnalysisResult) :
  grows r (tldStep tld r).
Proof.
  destruct (tldStep_cases tld r) as [->|[_ ->]]; [apply grows_refl|].
  split; simpl; [lia | eexists; reflexivity].
Qed.
End DetectorSteps.

#[local] Hint Resolve subdomainStep_grows brandLoop_grows tldStep_grows
  : detector.

(** ** The subdomain trick against its specification *)

Lemma existsb_seq_shift (g : nat -> bool) (start len : nat) :
  existsb g (seq (S start) len) = existsb (fun i => g (S i)) (seq start len).
Proof.
  revert start. induction len as [|len IH]; intros start; simpl;
    [reflexivity|].
  rewrite IH. reflexivity.
Qed.

(** Scanning the indices below [k] is scanning the first [k] labels. *)
Lemma existsb_index_take (f : jsstring -> bool) (parts : list jsstring) (k : nat) :
  (k <= length parts)%nat ->
  existsb (fun i => f (parts !!! i)) (seq 0 k) = existsb f (take k parts).
Proof.
  revert k. induction parts as [|label parts IH]; intros k Hk; simpl in Hk.
  - replace k with 0%nat by lia. reflexivity.
  - destruct k as [|k]; [reflexivity|].
    cbn [seq existsb take]. rewrite existsb_seq_shift.
    f_equal. apply IH. lia.
Qed.

Lemma labelHit_brandInLabels (parts : list jsstring) (known : jsstring) :
  labelHit parts known = brandInLabels parts known.
Proof.
  unfold labelHit, brandInLabels, labelsExceptLastTwo.
  apply (existsb_index_take
           (fun label => jseq label known || includes label known)).
  lia.
Qed.

Lemma subdomainScan_find (parts brands : list jsstring) :
  subdomainScan parts brands =
  match find (brandInLabels parts) brands with
  | Some known =>
      mkSubdomainCheck true (Some (subdomainReason known)) (Some known)
  | None => mkSubdomainCheck false None None
  end.
Proof.
  induction brands as [|known rest IH]; simpl; [reflexivity|].
  rewrite labelHit_brandInLabels.
  destruct (brandInLabels parts known); [reflexivity | exact IH].
Qed.

Lemma checkSubdomainTrick_spec (hostname : jsstring) :
  checkSubdomainTrick hostname =
  match subdomainTrickSpec hostname with
  | Some known =>
      mkSubdomainCheck true (Some (subdomainReason known)) (Some known)
  | None => mkSubdomainCheck false None None
  end.
Proof.
  unfold checkSubdomainTrick, subdomainTrickSpec.
  destruct (3 <? length (split dot hostname))%nat; [|reflexivity].
  apply subdomainScan_find.
Qed.

(** The first brand found is some brand that a scanned label equals or
    contains, and there is one exactly when the scan finds one. *)
Lemma subdomainTrickSpec_fires (hostname : jsstring) :
  is_Some (subdomainTrickSpec hostname) <->
  (3 < length (split dot hostname))%nat /\
  exists label known,
    In label (labelsExceptLastTwo (split dot hostname)) /\
    In known knownDomains /\
    (label = known \/ includes label known = true).
Proof.
  unfold subdomainTrickSpec.
  destruct (Nat.ltb_spec 3 (length (split dot hostname))) as [Hlen|Hlen].
  - split.
    + intros [known Hfind]. split; [exact Hlen|].
      apply find_some in Hfind. destruct Hfind as [Hin Hhit].
      unfold brandInLabels in Hhit. apply existsb_exists in Hhit.
      destruct Hhit as (label & Hlabel & Hmatch).
      exists label, known. split; [exact Hlabel|]. split; [exact Hin|].
      apply orb_true_iff in Hmatch. rewrite jseq_eq in Hmatch. exact Hmatch.
    + intros (_ & label & known & Hlabel & Hin & Hmatch).
      destruct (find (brandInLabels (split dot hostname)) knownDomains)
        as [k|] eqn:Hfind; [eexists; reflexivity|].
      pose proof (find_none _ _ Hfind known Hin) as Hnone.
      unfold brandInLabels in Hnone.
      assert (Hsome : existsb
                (fun label0 => jseq label0 known || includes label0 known)
                (labelsExceptLastTwo (split dot hostname)) = true).
      { apply existsb_exists. exists label. split; [exact Hlabel|].
        apply orb_true_iff. rewrite jseq_eq. exact Hmatch. }
      congruence.
  - split.
    + intros [known Hfind]. discriminate Hfind.
    + intros [Hlt _]. lia.
Qed.

(** ** The verdict *)

Section DetectorProperties.
Context {platform : Platform}.

(** Split on what the innermost step of the pipeline that is left did. *)
Local Ltac step_cases :=
  match goal with
  | |- context [subdomainStep ?h ?r] =>
      let k := fresh "known" in
      let Hk := fresh "Hknown" in
      destruct (subdomainStep_cases h r) as [->|(k & Hk & ->)]
  | |- context [brandLoop ?b ?n ?ks ?r] =>
      let k := fresh "known" in
      let d := fresh "delta" in
      let rs := fresh "reason" in
      let Hk := fresh "Hknown" in
      let Hd := fresh "Hdelta" in
      let Hr := fresh "Hreason" in
      destruct (brandLoop_cases b n ks r) as [->|(k & d & rs & Hk & Hd & Hr & ->)]
  | |- context [tldStep ?t ?r] =>
      let H := fresh "Htld" in
      destruct (tldStep_cases t r) as [->|[H ->]]
  end.

Lemma consistent_fresh (u : jsstring) : consistent (freshResult u).
Proof.
  split; [|split]; simpl.
  - split; [congruence | discriminate].
  - discriminate.
  - auto.
Qed.

(** A signal that names a reference brand keeps the fields consistent. *)
Lemma consistent_brand_signal (r : AnalysisResult)
    (known reason : jsstring) (score : Z) :
  In known knownDomains -> brandSignalReason known reason ->
  consistent (mkResult (url r) true score (reasons r ++ [reason]) (Some known)).
Proof.
  intros Hin Hreason. split; [|split]; simpl.
  - split; [reflexivity|]. intros _ E. apply app_eq_nil in E.
    destruct E as [_ E]. discriminate E.
  - intros k [= <-]. split; [exact Hin|]. split; [reflexivity|].
    exists reason. split; [|exact Hreason].
    apply in_or_app. right. left. reflexivity.
  - discriminate.
Qed.

Lemma consistent_subdomainStep (hostname : jsstring) (r : AnalysisResult) :
  consistent r -> consistent (subdomainStep hostname r).
Proof.
  intros Hr. step_cases; [exact Hr|].
  apply consistent_brand_signal; [exact Hknown|]. left. reflexivity.
Qed.

Lemma consistent_brandLoop (baseDomain normalizedDomain : jsstring)
    (r : AnalysisResult) :
  consistent r ->
  consistent (brandLoop baseDomain normalizedDomain knownDomains r).
Proof.
  intros Hr. step_cases; [exact Hr|].
  apply consistent_brand_signal; assumption.
Qed.

Lemma consistent_tldStep (tld : jsstring) (r : AnalysisResult) :
  consistent r -> consistent (tldStep tld r).
Proof.
  intros Hr. step_cases; [exact Hr|].
  destruct Hr as (Hreasons & Hmatched & Hclean).
  destruct (matchedDomain r) as [known|] eqn:Em; [|discriminate Htld].
  destruct (Hmatched known eq_refl) as (Hin & Hsusp & reason & Hmem & Hsig).
  split; [|split]; simpl.
  - split; [intros _; exact Hsusp|]. intros _ E. apply app_eq_nil in E.
    destruct E as [_ E]. discriminate E.
  - intros k [= <-]. split; [exact Hin|]. split; [exact Hsusp|].
    exists reason. split; [|exact Hsig]. apply in_or_app. left. exact Hmem.
  - rewrite Hsusp. discriminate.
Qed.

Lemma consistent_capStep (r : AnalysisResult) :
  consistent r -> consistent (capStep r).
Proof.
  intros (Hreasons & Hmatched & Hclean). split; [|split]; simpl.
  - exact Hreasons.
  - exact Hmatched.
  - intros Hs. destruct (Hclean Hs) as [Hm Hz]. split; [exact Hm|].
    rewrite Hz. reflexivity.
Qed.

Lemma analyzeUrl_consistent (u : jsstring) : consistent (analyzeUrl u).
Proof.
  destruct (analyzeUrl_cases u)
    as [->|(hostname & _ & ->)]; [apply consistent_fresh|].
  apply consistent_capStep, consistent_tldStep, consistent_brandLoop,
    consistent_subdomainStep, consistent_fresh.
Qed.

(** C1. For every input string [u], the risk score of [analyzeUrl u] is an
    integer between 0 and 100: each of the three signal steps only grows the
    accumulator (the score does not go down, reasons are only appended), and
    the last step caps the score at 100. *)
Theorem riskScore_between_0_and_100 (u : jsstring) :
  0 <= riskScore (analyzeUrl u) <= 100 /\
  (forall hostname r, grows r (subdomainStep hostname r)) /\
  (forall baseDomain normalizedDomain brands r,
      grows r (brandLoop baseDomain normalizedDomain brands r)) /\
  (forall tld r, grows r (tldStep tld r)) /\
  (forall r, riskScore (capStep r) = Z.min (riskScore r) 100
             /\ reasons (capStep r) = reasons r).
Proof.
  split; [|split; [|split; [|split]]].
  - destruct (analyzeUrl_cases u)
      as [->|(hostname & _ & ->)]; [simpl; lia|].
    set (r0 := freshResult u).
    set (r1 := subdomainStep hostname r0).
    set (r2 := brandLoop _ _ _ r1).
    set (r3 := tldStep _ r2).
    assert (H : grows r0 r3).
    { apply (grows_trans r0 r1 r3); [subst r1; auto with detector|].
      apply (grows_trans r1 r2 r3); subst r2 r3; auto with detector. }
    destruct H as [H _]. simpl in H. simpl. lia.
  - auto with detector.
  - auto with detector.
  - auto with detector.
  - intros r. split; reflexivity.
Qed.

(** The suspicious-TLD reason is not the reason of a brand signal. *)
Lemma tldReason_not_brand_signal (tld known : jsstring) :
  ~ brandSignalReason known (tldReason tld).
Proof.
  intros [H|[[d H]|[H|H]]]; discriminate H.
Qed.

(** C2. For every input string [u], [analyzeUrl u] has reasons exactly when
    it is suspicious; a matched brand is a reference brand for which a
    brand signal (subdomain trick, similarity, containment or homograph)
    pushed its reason, and the suspicious-TLD reason is not one of those;
    the suspicious-TLD bonus changes neither the matched brand nor the
    verdict and does nothing when no brand is matched; and a result that is
    not suspicious has no reasons, no matched brand and score 0. *)
Theorem reasons_iff_suspicious_matched_only_by_brand (u : jsstring) :
  (reasons (analyzeUrl u) <> [] <-> isSuspicious (analyzeUrl u) = true) /\
  (forall known, matchedDomain (analyzeUrl u) = Some known ->
     In known knownDomains /\
     exists reason, In reason (reasons (analyzeUrl u)) /\
                    brandSignalReason known reason) /\
  (forall tld known, ~ brandSignalReason known (tldReason tld)) /\
  (forall tld r,
     matchedDomain (tldStep tld r) = matchedDomain r /\
     isSuspicious (tldStep tld r) = isSuspicious r /\
     (matchedDomain r = None -> tldStep tld r = r)) /\
  (isSuspicious (analyzeUrl u) = false ->
     reasons (analyzeUrl u) = [] /\ matchedDomain (analyzeUrl u) = None /\
     riskScore (analyzeUrl u) = 0).
Proof.
  destruct (analyzeUrl_consistent u) as (Hreasons & Hmatched & Hclean).
  split; [exact Hreasons|]. split; [|split; [|split]].
  - intros known Hm. destruct (Hmatched known Hm) as (Hin & _ & Hex).
    split; assumption.
  - intros tld known. apply tldReason_not_brand_signal.
  - intros tld r. step_cases.
    + repeat split; reflexivity.
    + simpl. repeat split. intros E. rewrite E in Htld. discriminate Htld.
  - intros Hs. destruct (Hclean Hs) as [Hm Hz].
    split; [|split; assumption].
    destruct (reasons (analyzeUrl u)) as [|reason rest] eqn:E; [reflexivity|].
    assert (Ht : isSuspicious (analyzeUrl u) = true).
    { apply Hreasons. discriminate. }
    congruence.
Qed.

(** C7. For every input string on which [extractDomain] yields [null],
    [analyzeUrl] returns the result it started from: not suspicious, score 0,
    no reasons, no matched brand. *)
Theorem malformed_input_no_verdict (u : jsstring) :
  extractDomain u = None -> analyzeUrl u = mkResult u false 0 [] None.
Proof.
  intros H. unfold analyzeUrl. rewrite H. reflexivity.
Qed.

(** C10. For every input string [u], the risk score of [analyzeUrl u] is one
    of 0, 60, 70, 80, 90 and 100: the subdomain trick adds 80 or nothing, the
    brand loop adds one of 70, 60 and 90 or nothing, and the suspicious-TLD
    bonus adds 20 or nothing. *)
Theorem riskScore_values (u : jsstring) :
  In (riskScore (analyzeUrl u)) [0; 60; 70; 80; 90; 100] /\
  (forall hostname r,
     In (riskScore (subdomainStep hostname r) - riskScore r) [0; 80]) /\
  (forall baseDomain normalizedDomain brands r,
     In (riskScore (brandLoop baseDomain normalizedDomain brands r)
         - riskScore r) [0; 70; 60; 90]) /\
  (forall tld r, In (riskScore (tldStep tld r) - riskScore r) [0; 20]).
Proof.
  split; [|split; [|split]].
  - destruct (analyzeUrl_cases u)
      as [->|(hostname & _ & ->)]; [left; reflexivity|].
    unfold freshResult.
    step_cases; step_cases; step_cases;
      try clear Hknown; try clear Hknown0; try clear Hreason;
      try discriminate Htld;
      try (simpl in Hdelta; destruct Hdelta as [<-|[<-|[<-|[]]]]);
      simpl; auto 10.
  - intros hostname r. step_cases; simpl.
    + left. lia.
    + right. left. lia.
  - intros baseDomain normalizedDomain brands r. step_cases; simpl.
    + left. lia.
    + simpl in Hdelta. destruct Hdelta as [<-|[<-|[<-|[]]]].
      * right. left. lia.
      * right. right. left. lia.
      * right. right. right. left. lia.
  - intros tld r. step_cases; simpl.
    + left. lia.
    + right. left. lia.
Qed.

(** C3. For every brand [B] of [knownDomains], [analyzeUrl] of
    ["https://" + B + ".com"] is not suspicious: it returns the result it
    started from. *)
Theorem reference_brand_dot_com_not_suspicious (B : jsstring) :
  In B knownDomains ->
  isSuspicious (analyzeUrl (str "https://" ++ B ++ str ".com")) = false /\
  analyzeUrl (str "https://" ++ B ++ str ".com")
  = mkResult (str "https://" ++ B ++ str ".com") false 0 [] None.
Proof.
  intros Hin. unfold knownDomains in Hin. simpl in Hin.
  repeat (destruct Hin as [<-|Hin]; [vm_compute; split; reflexivity|]).
  destruct Hin.
Qed.

(** C4. [analyzeUrl "https://g00gle.com"] is suspicious, matches the brand
    "google", gives a reason that mentions a homograph attack and has a
    score of at least 90: the base label "g00gle" normalises to "google",
    at distance 0, so the homograph signal fires. *)
Theorem g00gle_is_homograph_of_google :
  analyzeUrl (str "https://g00gle.com")
  = mkResult (str "https://g00gle.com") true 90
      [homographReason (str "google")] (Some (str "google")) /\
  isSuspicious (analyzeUrl (str "https://g00gle.com")) = true /\
  matchedDomain (analyzeUrl (str "https://g00gle.com")) = Some (str "google") /\
  existsb (fun reason => includes reason (str "Homograph attack"))
    (reasons (analyzeUrl (str "https://g00gle.com"))) = true /\
  90 <= riskScore (analyzeUrl (str "https://g00gle.com")) /\
  extractDomain (str "https://g00gle.com") = Some (str "g00gle.com") /\
  getBaseDomain (str "g00gle.com") = str "g00gle" /\
  normalizeString (str "g00gle") = str "google" /\
  levenshteinDistance (str "google") (str "google") = 0.
Proof.
  assert (E : analyzeUrl (str "https://g00gle.com")
              = mkResult (str "https://g00gle.com") true 90
                  [homographReason (str "google")] (Some (str "google")))
    by (vm_compute; reflexivity).
  rewrite E. cbn [isSuspicious matchedDomain reasons riskScore].
  repeat split; try (vm_compute; reflexivity). lia.
Qed.

(** C5. For every hostname, the subdomain trick fires exactly when the
    hostname has more than three labels and a label other than the last two
    equals or contains a reference brand; the brand it reports is the first
    one of the reference set that such a label equals or contains; and where
    it fires, [analyzeUrl] adds 80 to the score and records that brand. In
    particular ["https://paypal.com.evil.com"] is suspicious by the
    subdomain trick, matches "paypal" and has a score of at least 80. *)
Theorem subdomain_trick_first_brand_adds_80 (hostname : jsstring) :
  (subIsSuspicious (checkSubdomainTrick hostname) = true <->
   (3 < length (split dot hostname))%nat /\
   exists label known,
     In label (labelsExceptLastTwo (split dot hostname)) /\
     In known knownDomains /\
     (label = known \/ includes label known = true)) /\
  subMatchedDomain (checkSubdomainTrick hostname) = subdomainTrickSpec hostname /\
  (forall r,
     subdomainStep hostname r =
     match subdomainTrickSpec hostname with
     | Some known =>
         mkResult (url r) true (riskScore r + 80)
           (reasons r ++ [subdomainReason known]) (Some known)
     | None => r
     end) /\
  checkSubdomainTrick (str "paypal.com.evil.com")
  = mkSubdomainCheck true (Some (subdomainReason (str "paypal")))
      (Some (str "paypal")) /\
  analyzeUrl (str "https://paypal.com.evil.com")
  = mkResult (str "https://paypal.com.evil.com") true 80
      [subdomainReason (str "paypal")] (Some (str "paypal")) /\
  80 <= riskScore (analyzeUrl (str "https://paypal.com.evil.com")).
Proof.
  split; [|split; [|split; [|split; [|split]]]].
  - rewrite <- subdomainTrickSpec_fires, checkSubdomainTrick_spec.
    destruct (subdomainTrickSpec hostname) as [known|]; simpl.
    + split; [eexists|]; reflexivity.
    + split; [discriminate | intros [k Hk]; discriminate Hk].
  - rewrite checkSubdomainTrick_spec.
    destruct (subdomainTrickSpec hostname); reflexivity.
  - intros r. unfold subdomainStep. rewrite checkSubdomainTrick_spec.
    destruct (subdomainTrickSpec hostname); reflexivity.
  - vm_compute. reflexivity.
  - vm_compute. reflexivity.
  - assert (E : riskScore (analyzeUrl (str "https://paypal.com.evil.com")) = 80)
      by (vm_compute; reflexivity).
    rewrite E. lia.
Qed.

(** C6. [analyzeUrl "https://paypal-security-update.xyz"] is suspicious with
    a score of exactly 80: the base label contains the brand "paypal"
    without being equal to it, which adds 60, and "xyz" is a suspicious TLD,
    which adds 20 once a brand is matched. *)
Theorem paypal_security_update_xyz_scores_80 :
  analyzeUrl (str "https://paypal-security-update.xyz")
  = mkResult (str "https://paypal-security-update.xyz") true 80
      [containsReason (str "paypal"); tldReason (str "xyz")]
      (Some (str "paypal")) /\
  isSuspicious (analyzeUrl (str "https://paypal-security-update.xyz")) = true /\
  riskScore (analyzeUrl (str "https://paypal-security-update.xyz")) = 60 + 20 /\
  getBaseDomain (str "paypal-security-update.xyz")
  = str "paypal-security-update" /\
  includes (str "paypal-security-update") (str "paypal") = true /\
  jseq (str "paypal-security-update") (str "paypal") = false /\
  riskScore
    (brandLoop (str "paypal-security-update")
       (normalizeString (str "paypal-security-update"))
       knownDomains
       (freshResult (str "https://paypal-security-update.xyz"))) = 60 /\
  arrayIncludes suspiciousTLDs (getTLD (str "paypal-security-update.xyz")) = true.
Proof.
  repeat split; vm_compute; reflexivity.
Qed.
End DetectorProperties.

Lemma reference_brand_dot_com_not_suspicious_witness :
  In (str "paypal") knownDomains /\
  isSuspicious
    (@analyzeUrl samplePlatform
       (str "https://" ++ str "paypal" ++ str ".com")) = false.
Proof.
  assert (Hin : In (str "paypal") knownDomains)
    by (unfold knownDomains; simpl; tauto).
  split; [exact Hin|].
  apply (@reference_brand_dot_com_not_suspicious samplePlatform (str "paypal") Hin).
Defined.

Lemma reasons_iff_suspicious_matched_only_by_brand_witness :
  isSuspicious (@analyzeUrl samplePlatform (str "")) = false /\
  reasons (@analyzeUrl samplePlatform (str "")) = [] /\
  matchedDomain (@analyzeUrl samplePlatform (str "")) = None /\
  riskScore (@analyzeUrl samplePlatform (str "")) = 0.
Proof.
  split; [reflexivity|].
  apply (@reasons_iff_suspicious_matched_only_by_brand samplePlatform (str "")).
  reflexivity.
Defined.

Lemma malformed_input_no_verdict_witness :
  @extractDomain samplePlatform (str "") = None /\
  @analyzeUrl samplePlatform (str "")
  = mkResult (str "") false 0 [] None.
Proof.
  split; [reflexivity|].
  apply (@malformed_input_no_verdict samplePlatform (str "")).
  reflexivity.
Defined.

(** ** The normaliser *)

Lemma replaceAll1_split (a b c : codeUnit) (s1 s2 : jsstring) :
  c <> a ->
  replaceAll1 a b (s1 ++ c :: s2) = replaceAll1 a b s1 ++ c :: replaceAll1 a b s2.
Proof.
  intros Hc. unfold replaceAll1. rewrite map_app. simpl.
  destruct (N.eqb_spec c a) as [E|_]; [contradiction|reflexivity].
Qed.

Lemma replaceAll2_cons2 (a1 a2 b x y : codeUnit) (s : jsstring) :
  replaceAll2 a1 a2 b (x :: y :: s)
  = if N.eqb x a1 && N.eqb y a2 then b :: replaceAll2 a1 a2 b s
    else x :: replaceAll2 a1 a2 b (y :: s).
Proof. reflexivity. Qed.

Lemma replaceAll2_cons_other (a1 a2 b c : codeUnit) (s : jsstring) :
  c <> a1 -> replaceAll2 a1 a2 b (c :: s) = c :: replaceAll2 a1 a2 b s.
Proof.
  intros Hc. destruct s as [|y s]; [reflexivity|].
  rewrite replaceAll2_cons2.
  destruct (N.eqb_spec c a1) as [E|_]; [contradiction|]. reflexivity.
Qed.

Lemma replaceAll2_split_bounded (a1 a2 b c : codeUnit) (s2 : jsstring) (n : nat) :
  c <> a1 -> c <> a2 ->
  forall s1, (length s1 <= n)%nat ->
    replaceAll2 a1 a2 b (s1 ++ c :: s2)
    = replaceAll2 a1 a2 b s1 ++ c :: replaceAll2 a1 a2 b s2.
Proof.
  intros H1 H2. induction n as [|n IH]; intros s1 Hlen.
  - destruct s1; [|simpl in Hlen; lia].
    apply replaceAll2_cons_other. exact H1.
  - destruct s1 as [|x [|y t]].
    + apply replaceAll2_cons_other. exact H1.
    + change ([x] ++ c :: s2) with (x :: c :: s2). rewrite replaceAll2_cons2.
      destruct (N.eqb_spec c a2) as [E|_]; [contradiction|].
      rewrite andb_false_r.
      rewrite replaceAll2_cons_other by exact H1. reflexivity.
    + change ((x :: y :: t) ++ c :: s2) with (x :: y :: (t ++ c :: s2)).
      rewrite !replaceAll2_cons2. simpl in Hlen.
      destruct (N.eqb x a1 && N.eqb y a2).
      * rewrite IH by lia. reflexivity.
      * change (y :: t ++ c :: s2) with ((y :: t) ++ c :: s2).
        rewrite IH by (simpl; lia). reflexivity.
Qed.

Lemma replaceAll2_split (a1 a2 b c : codeUnit) (s1 s2 : jsstring) :
  c <> a1 -> c <> a2 ->
  replaceAll2 a1 a2 b (s1 ++ c :: s2)
  = replaceAll2 a1 a2 b s1 ++ c :: replaceAll2 a1 a2 b s2.
Proof.
  intros H1 H2.
  apply (replaceAll2_split_bounded a1 a2 b c s2 (length s1) H1 H2). lia.
Qed.

Lemma startsWith_nil (s : jsstring) : startsWith s [] = true.
Proof. destruct s; reflexivity. Qed.

Lemma replaceAll1_replaceGlobally (a b : codeUnit) (s : jsstring) :
  replaceAll1 a b s = replaceGlobally [a] [b] s.
Proof.
  unfold replaceGlobally, replaceAll1.
  induction s as [|c s IH]; [reflexivity|].
  cbn [map replaceFrom startsWith length Nat.sub app].
  rewrite startsWith_nil, andb_true_r, IH.
  destruct (N.eqb c a); reflexivity.
Qed.

Lemma replaceGlobally_pair_cons2 (a1 a2 b x y : codeUnit) (s : jsstring) :
  replaceGlobally [a1; a2] [b] (x :: y :: s)
  = if N.eqb x a1 && N.eqb y a2 then b :: replaceGlobally [a1; a2] [b] s
    else x :: replaceGlobally [a1; a2] [b] (y :: s).
Proof.
  unfold replaceGlobally.
  cbn [replaceFrom startsWith length Nat.sub app].
  rewrite startsWith_nil, andb_true_r. reflexivity.
Qed.

Lemma replaceAll2_replaceGlobally_bounded (a1 a2 b : codeUnit) (n : nat) :
  forall s, (length s <= n)%nat ->
    replaceAll2 a1 a2 b s = replaceGlobally [a1; a2] [b] s.
Proof.
  induction n as [|n IH]; intros s Hlen.
  - destruct s; [reflexivity | simpl in Hlen; lia].
  - destruct s as [|x [|y s]]; [reflexivity| |].
    + unfold replaceGlobally. cbn [replaceAll2 replaceFrom startsWith].
      rewrite andb_false_r. reflexivity.
    + rewrite replaceAll2_cons2, replaceGlobally_pair_cons2.
      simpl length in Hlen.
      rewrite (IH s) by lia. rewrite (IH (y :: s)) by (simpl length; lia).
      reflexivity.
Qed.

Lemma replaceAll2_replaceGlobally (a1 a2 b : codeUnit) (s : jsstring) :
  replaceAll2 a1 a2 b s = replaceGlobally [a1; a2] [b] s.
Proof. apply (replaceAll2_replaceGlobally_bounded a1 a2 b (length s)). lia. Qed.

(** The source's two replacements do what applying a substitution globally
    means. *)
Lemma substitute_source (s : jsstring) (r : substitution) :
  substitute s r
  = match r with
    | Unit1 a b => replaceAll1 a b s
    | Unit2 a1 a2 b => replaceAll2 a1 a2 b s
    end.
Proof.
  destruct r; unfold substitute; cbn [pattern replacement].
  - symmetry. apply replaceAll1_replaceGlobally.
  - symmetry. apply replaceAll2_replaceGlobally.
Qed.

Lemma unit_substitutions_table (c : codeUnit) :
  fold_left (fun x entry => if N.eqb x (fst entry) then snd entry else x)
    unitTable c
  = unitImage c.
Proof.
  unfold unitImage, unitTable. cbn [fold_left find fst snd].
  repeat match goal with
         | |- context [N.eqb c ?k] =>
             destruct (N.eqb_spec c k) as [->|?]; [reflexivity|]
         end.
  reflexivity.
Qed.

Lemma fold_replaceAll1_map (table : list (codeUnit * codeUnit)) (s : jsstring) :
  fold_left (fun t entry => replaceAll1 (fst entry) (snd entry) t) table s
  = map (fun c =>
           fold_left (fun x entry => if N.eqb x (fst entry) then snd entry else x)
             table c) s.
Proof.
  revert s. induction table as [|entry table IH]; intros s.
  - cbn [fold_left]. symmetry. apply map_id.
  - cbn [fold_left]. rewrite IH. unfold replaceAll1. rewrite map_map. reflexivity.
Qed.

Lemma substitute_split (r : substitution) (c : codeUnit) (s1 s2 : jsstring) :
  separates c r ->
  substitute (s1 ++ c :: s2) r = substitute s1 r ++ c :: substitute s2 r.
Proof.
  rewrite !substitute_source. destruct r as [a b|a1 a2 b]; cbn [separates].
  - apply replaceAll1_split.
  - intros [H1 H2]. apply replaceAll2_split; assumption.
Qed.

Lemma fold_substitute_split (rules : list substitution) (c : codeUnit)
    (s1 s2 : jsstring) :
  Forall (separates c) rules ->
  fold_left substitute rules (s1 ++ c :: s2)
  = fold_left substitute rules s1 ++ c :: fold_left substitute rules s2.
Proof.
  intros Hall. revert s1 s2.
  induction Hall as [|r rules Hr _ IH]; intros s1 s2; simpl; [reflexivity|].
  rewrite substitute_split by exact Hr. apply IH.
Qed.

Lemma inPattern_separates (c : codeUnit) :
  inPattern c = false -> Forall (separates c) substitutions.
Proof.
  unfold inPattern, patternUnits. cbn [existsb]. intros H.
  repeat (apply orb_false_iff in H;
          let E := fresh "E" in destruct H as [E H]; apply N.eqb_neq in E).
  unfold substitutions. repeat constructor; assumption.
Qed.

Lemma substituteAll_split (c : codeUnit) (s1 s2 : jsstring) :
  inPattern c = false ->
  substituteAll (s1 ++ c :: s2) = substituteAll s1 ++ c :: substituteAll s2.
Proof.
  intros H. apply fold_substitute_split, inPattern_separates, H.
Qed.

Lemma substituteAll_fixed (s : jsstring) :
  forallb (fun c => negb (inPattern c)) s = true -> substituteAll s = s.
Proof.
  induction s as [|c s IH]; [reflexivity|].
  cbn [forallb]. rewrite andb_true_iff, negb_true_iff. intros [Hc Hs].
  change (c :: s) with ([] ++ c :: s) at 1.
  rewrite substituteAll_split by exact Hc.
  rewrite IH by exact Hs. reflexivity.
Qed.

Section Normaliser.
Context {platform : Platform}.

Lemma normalizeString_fold (s : jsstring) :
  normalizeString s = fold_left substitute substitutions (toLowerCase s).
Proof.
  unfold substitutions. cbn [fold_left]. rewrite !substitute_source.
  reflexivity.
Qed.

Lemma normalizeString_table (s : jsstring) :
  normalizeString s
  = replaceGlobally [118; 118]%N [119%N]
      (replaceGlobally [114; 110]%N [109%N] (map unitImage (toLowerCase s))).
Proof.
  rewrite <- replaceAll2_replaceGlobally, <- replaceAll2_replaceGlobally.
  rewrite <- (map_ext _ _ unit_substitutions_table).
  rewrite <- fold_replaceAll1_map. reflexivity.
Qed.

(** C8. For every string [s], [normalizeString s] is the lower-cased [s]
    with the substitutions 0 to o, 1 to l, 3 to e, 4 to a, 5 to s, 7 to t,
    8 to b, 9 to g, @ to a, $ to s, "rn" to "m", "vv" to "w" applied over
    the whole string in that order, where applying a substitution is
    [replaceGlobally], stated without the source's replacements.  The ten
    one-unit substitutions together turn each unit into its image under
    [unitTable], which changes exactly the ten units of the table, and the
    two pairs are replaced in the result from left to right without overlap.
    A code unit that occurs in none of the patterns is left where it is and
    as it is; the non-ASCII entries of the [homoglyphs] table are single
    such code units, so a look-alike that lower-casing leaves alone comes
    out unchanged, and so does every lower-case string free of pattern
    units.  A string that holds every pattern shows each substitution at
    work. *)
Theorem normalizeString_is_ordered_substitutions :
  (forall s,
     normalizeString s
     = fold_left substitute substitutions (toLowerCase s)) /\
  substitutions
  = [Unit1 48 111; Unit1 49 108; Unit1 51 101; Unit1 52 97; Unit1 53 115;
     Unit1 55 116; Unit1 56 98; Unit1 57 103; Unit1 64 97; Unit1 36 115;
     Unit2 114 110 109; Unit2 118 118 119]%N /\
  (forall s,
     normalizeString s
     = replaceGlobally [118; 118]%N [119%N]
         (replaceGlobally [114; 110]%N [109%N]
            (map unitImage (toLowerCase s)))) /\
  (forall c,
     unitImage c <> c <-> In c [48; 49; 51; 52; 53; 55; 56; 57; 64; 36]%N) /\
  map unitImage [48; 49; 51; 52; 53; 55; 56; 57; 64; 36]%N
  = [111; 108; 101; 97; 115; 116; 98; 103; 97; 115]%N /\
  (forall s1 c s2,
     inPattern c = false ->
     substituteAll (s1 ++ c :: s2) = substituteAll s1 ++ c :: substituteAll s2) /\
  (forall g, In g nonAsciiHomoglyphs ->
     (exists c, g = [c] /\ inPattern c = false) /\
     (toLowerCase g = g ->
      normalizeString g = g)) /\
  (forall s,
     toLowerCase s = s ->
     forallb (fun c => negb (inPattern c)) s = true ->
     normalizeString s = s) /\
  normalizeString (str "G00GLE-134578-9@$-rnvvv")
  = str "google-leastb-gas-mwv".
Proof.
  assert (Hnorm : forall s,
     normalizeString s
     = substituteAll (toLowerCase s)) by exact normalizeString_fold.
  assert (Hfixed : forall s,
     toLowerCase s = s ->
     forallb (fun c => negb (inPattern c)) s = true ->
     normalizeString s = s).
  { intros s Hlower Hfree. rewrite Hnorm, Hlower.
    apply substituteAll_fixed, Hfree. }
  split; [exact Hnorm|]. split; [reflexivity|].
  split; [exact normalizeString_table|].
  split.
  { intros c. unfold unitImage, unitTable. cbn [find fst snd In]. split.
    - repeat match goal with
             | |- context [N.eqb c ?k] =>
                 destruct (N.eqb_spec c k) as [->|?]; [intros _; tauto|]
             end.
      intros H. contradiction H. reflexivity.
    - intros H.
      repeat (destruct H as [<-|H]; [vm_compute; discriminate|]).
      destruct H. }
  split; [reflexivity|].
  split; [intros s1 c s2; apply substituteAll_split|].
  split; [|split; [exact Hfixed|]].
  - intros g Hin.
    assert (Hg : exists c, g = [c] /\ inPattern c = false).
    { vm_compute in Hin.
      repeat (destruct Hin as [<-|Hin];
              [eexists; split; [reflexivity | vm_compute; reflexivity]|]).
      destruct Hin. }
    split; [exact Hg|].
    destruct Hg as (c & -> & Hc). intros Hlower.
    apply Hfixed; [exact Hlower|].
    cbn [forallb]. rewrite Hc. reflexivity.
  - rewrite normalizeString_table. reflexivity.
Qed.
End Normaliser.

Lemma normalizeString_is_ordered_substitutions_witness :
  (@toLowerCase samplePlatform [1072%N] = [1072%N] /\
   @normalizeString samplePlatform [1072%N] = [1072%N]) /\
  @normalizeString samplePlatform (str "PAYPA1-5ECURE") = str "paypal-secure".
Proof.
  pose proof (@normalizeString_is_ordered_substitutions samplePlatform)
    as (_ & _ & Htable & _ & _ & _ & Hglyph & _).
  split.
  - split; [reflexivity|].
    apply Hglyph.
    + vm_compute. tauto.
    + reflexivity.
  - rewrite Htable. vm_compute. reflexivity.
Defined.

(** ** The similarity engine is a metric *)

Lemma lev_zero_iff (a b : jsstring) : lev a b = 0 <-> a = b.
Proof.
  revert b. induction a as [|x a IHa]; intros b.
  - rewrite lev_nil_l. destruct b; simpl; split; try congruence; try lia.
  - destruct b as [|y b].
    + rewrite lev_nil_r. simpl. split; [lia | discriminate].
    + rewrite lev_cons. destruct (N.eqb_spec x y) as [->|Hne].
      * rewrite IHa. split; [intros ->; reflexivity | intros [= ->]; reflexivity].
      * pose proof (lev_nonneg a (y :: b)). pose proof (lev_nonneg (x :: a) b).
        pose proof (lev_nonneg a b). unfold min3.
        split; [lia | intros [= E _]; contradiction].
Qed.

Lemma lev_upper (a b : jsstring) :
  lev a b <= Z.max (Z.of_nat (length a)) (Z.of_nat (length b)).
Proof.
  revert b. induction a as [|x a IHa]; intros b.
  - rewrite lev_nil_l. simpl length. lia.
  - destruct b as [|y b].
    + rewrite lev_nil_r. simpl length. lia.
    + rewrite lev_cons. pose proof (IHa b). simpl length.
      destruct (N.eqb x y); unfold min3; lia.
Qed.

Lemma lev_lower (a b : jsstring) :
  Z.abs (Z.of_nat (length a) - Z.of_nat (length b)) <= lev a b.
Proof.
  revert b. induction a as [|x a IHa]; intros b.
  - rewrite lev_nil_l. simpl length. lia.
  - induction b as [|y b IHb].
    + rewrite lev_nil_r. simpl length. lia.
    + rewrite lev_cons. pose proof (IHa b). pose proof (IHa (y :: b)).
      simpl length in *.
      destruct (N.eqb x y); unfold min3; lia.
Qed.

(** One more code unit at the head of a string moves the distance by at most
    one, either way. *)
Lemma lev_cons_step (n : nat) :
  forall (a b : jsstring) (x : codeUnit),
    (length a + length b <= n)%nat ->
    lev (x :: a) b <= 1 + lev a b /\ lev a b <= 1 + lev (x :: a) b.
Proof.
  induction n as [|n IH]; intros a b x Hn.
  - destruct a; [|simpl in Hn; lia]. destruct b; [|simpl in Hn; lia].
    rewrite lev_nil_r, lev_nil_l. simpl. lia.
  - destruct b as [|y b].
    + rewrite !lev_nil_r. simpl length. lia.
    + simpl in Hn. rewrite lev_cons.
      assert (Hr : lev a b <= 1 + lev a (y :: b) /\ lev a (y :: b) <= 1 + lev a b).
      { rewrite (lev_sym a (y :: b)), (lev_sym a b).
        destruct (IH b a y ltac:(lia)) as [H1 H2]. lia. }
      destruct (N.eqb x y).
      * lia.
      * destruct (IH a b x ltac:(lia)) as [H1 H2].
        unfold min3. lia.
Qed.

Lemma lev_cons_l (a b : jsstring) (x : codeUnit) :
  lev (x :: a) b <= 1 + lev a b /\ lev a b <= 1 + lev (x :: a) b.
Proof. apply (lev_cons_step (length a + length b)). lia. Qed.

Lemma lev_cons_r (a b : jsstring) (y : codeUnit) :
  lev a (y :: b) <= 1 + lev a b /\ lev a b <= 1 + lev a (y :: b).
Proof. rewrite (lev_sym a (y :: b)), (lev_sym a b). apply lev_cons_l. Qed.

Lemma lev_cons_cons_le (a b : jsstring) (x y : codeUnit) :
  lev (x :: a) (y :: b) <= 1 + lev a b.
Proof.
  rewrite lev_cons. pose proof (lev_nonneg a b).
  destruct (N.eqb x y); unfold min3; lia.
Qed.

(** Where the recurrence takes its value from, at two non-empty strings. *)
Lemma lev_cons_cases (a b : jsstring) (x y : codeUnit) :
  (x = y /\ lev (x :: a) (y :: b) = lev a b) \/
  lev (x :: a) (y :: b) = 1 + lev a (y :: b) \/
  lev (x :: a) (y :: b) = 1 + lev (x :: a) b \/
  lev (x :: a) (y :: b) = 1 + lev a b.
Proof.
  rewrite lev_cons. destruct (N.eqb_spec x y) as [->|Hne]; [left; auto|].
  right. unfold min3. lia.
Qed.

Lemma lev_triangle_bounded (n : nat) :
  forall a b c : jsstring,
    (length a + length b + length c <= n)%nat ->
    lev a c <= lev a b + lev b c.
Proof.
  induction n as [|n IH]; intros a b c Hn.
  - destruct a; [|simpl in Hn; lia]. destruct b; [|simpl in Hn; lia].
    destruct c; [|simpl in Hn; lia]. simpl. lia.
  - destruct a as [|x a].
    { rewrite !lev_nil_l. pose proof (lev_lower b c). lia. }
    destruct c as [|z c].
    { rewrite !lev_nil_r. pose proof (lev_lower (x :: a) b). lia. }
    destruct b as [|y b].
    { rewrite lev_nil_r, lev_nil_l. pose proof (lev_upper (x :: a) (z :: c)). lia. }
    simpl in Hn.
    pose proof (IH a (y :: b) (z :: c) ltac:(simpl; lia)) as T1.
    pose proof (IH (x :: a) b (z :: c) ltac:(simpl; lia)) as T2.
    pose proof (IH (x :: a) (y :: b) c ltac:(simpl; lia)) as T3.
    pose proof (IH a b c ltac:(simpl; lia)) as T4.
    pose proof (IH (x :: a) b c ltac:(simpl; lia)) as T5.
    pose proof (IH a b (z :: c) ltac:(simpl; lia)) as T6.
    pose proof (proj1 (lev_cons_l a (z :: c) x)) as L1.
    pose proof (proj1 (lev_cons_r (x :: a) c z)) as L2.
    pose proof (lev_cons_cons_le a c x z) as L3.
    destruct (lev_cons_cases a b x y) as [[Exy E1]|[E1|[E1|E1]]];
      destruct (lev_cons_cases b c y z) as [[Eyz E2]|[E2|[E2|E2]]];
      rewrite E1, E2; try lia.
    subst. rewrite lev_cons, N.eqb_refl. exact T4.
Qed.

Lemma lev_triangle (a b c : jsstring) : lev a c <= lev a b + lev b c.
Proof. apply (lev_triangle_bounded (length a + length b + length c)). lia. Qed.

Lemma rev_eq_iff (a b : jsstring) : rev a = rev b <-> a = b.
Proof.
  split; [|intros ->; reflexivity].
  intros H. rewrite <- (rev_involutive a), <- (rev_involutive b), H. reflexivity.
Qed.

Lemma levenshteinDistance_zero_iff (a b : jsstring) :
  levenshteinDistance a b = 0 <-> a = b.
Proof. rewrite levenshteinDistance_lev, lev_zero_iff. apply rev_eq_iff. Qed.

(** X1. [levenshteinDistance a b] is 0 exactly when [a] and [b] are the same
    string. *)
Theorem levenshteinDistance_zero_iff_equal (a b : jsstring) :
  levenshteinDistance a b = 0 <-> a = b.
Proof. apply levenshteinDistance_zero_iff. Qed.

(** X2. [levenshteinDistance a b] lies between the difference of the two
    lengths and the greater length; against the empty string it is the length
    of the other string. *)
Theorem levenshteinDistance_length_bounds (a b : jsstring) :
  Z.abs (Z.of_nat (length a) - Z.of_nat (length b)) <= levenshteinDistance a b /\
  levenshteinDistance a b <= Z.max (Z.of_nat (length a)) (Z.of_nat (length b)) /\
  levenshteinDistance [] b = Z.of_nat (length b) /\
  levenshteinDistance a [] = Z.of_nat (length a).
Proof.
  rewrite !levenshteinDistance_lev.
  pose proof (lev_lower (rev a) (rev b)) as Hl.
  pose proof (lev_upper (rev a) (rev b)) as Hu.
  rewrite !length_rev in Hl, Hu.
  split; [exact Hl|]. split; [exact Hu|].
  simpl rev. rewrite lev_nil_l, lev_nil_r, !length_rev. split; reflexivity.
Qed.

(** X3. [levenshteinDistance] satisfies the triangle inequality: going from
    [a] to [c] is never dearer than going by way of [b]. *)
Theorem levenshteinDistance_triangle (a b c : jsstring) :
  levenshteinDistance a c <= levenshteinDistance a b + levenshteinDistance b c.
Proof. rewrite !levenshteinDistance_lev. apply lev_triangle. Qed.

(** ** Splitting and joining *)

Lemma split_nonempty (sep : codeUnit) (s : jsstring) : split sep s <> [].
Proof.
  destruct s as [|c s]; simpl; [discriminate|].
  destruct (N.eqb c sep); [discriminate|].
  destruct (split sep s); discriminate.
Qed.

(** [split] of a string with one more code unit in front. *)
Lemma split_cons (sep c : codeUnit) (s : jsstring) :
  exists piece pieces,
    split sep s = piece :: pieces /\
    split sep (c :: s) =
    if N.eqb c sep then [] :: piece :: pieces else (c :: piece) :: pieces.
Proof.
  destruct (split sep s) as [|piece pieces] eqn:E.
  - destruct (split_nonempty sep s E).
  - exists piece, pieces. split; [reflexivity|]. simpl. rewrite E. reflexivity.
Qed.

Lemma join_split (sep : codeUnit) (s : jsstring) : join [sep] (split sep s) = s.
Proof.
  induction s as [|c s IH]; [reflexivity|].
  destruct (split_cons sep c s) as (piece & pieces & E & ->).
  rewrite E in IH.
  destruct (N.eqb_spec c sep) as [->|Hne].
  - change (join [sep] ([] :: piece :: pieces))
      with (sep :: join [sep] (piece :: pieces)).
    rewrite IH. reflexivity.
  - destruct pieces as [|p ps]; simpl in *; rewrite IH; reflexivity.
Qed.

Lemma split_pieces_free (sep : codeUnit) (s : jsstring) :
  Forall (fun piece => ~ In sep piece) (split sep s).
Proof.
  induction s as [|c s IH]; [repeat constructor; auto|].
  destruct (split_cons sep c s) as (piece & pieces & E & ->).
  rewrite E in IH. inversion IH as [|? ? Hp Hps]; subst.
  destruct (N.eqb_spec c sep) as [->|Hne].
  - constructor; [intros []|]. constructor; assumption.
  - constructor; [|assumption]. intros [Hc|Hin]; [congruence | exact (Hp Hin)].
Qed.

Lemma split_free (sep : codeUnit) (s : jsstring) :
  ~ In sep s -> split sep s = [s].
Proof.
  induction s as [|c s IH]; intros Hs; [reflexivity|].
  simpl. destruct (N.eqb_spec c sep) as [->|Hne].
  - destruct Hs. left. reflexivity.
  - rewrite IH; [reflexivity|]. intros Hin. apply Hs. right. exact Hin.
Qed.

Lemma split_app_sep (sep : codeUnit) (s t : jsstring) :
  ~ In sep s -> split sep (s ++ sep :: t) = s :: split sep t.
Proof.
  induction s as [|c s IH]; intros Hs; simpl.
  - rewrite N.eqb_refl. reflexivity.
  - destruct (N.eqb_spec c sep) as [->|Hne].
    + destruct Hs. left. reflexivity.
    + rewrite IH; [reflexivity|]. intros Hin. apply Hs. right. exact Hin.
Qed.

Lemma split_join (sep : codeUnit) (parts : list jsstring) :
  parts <> [] -> Forall (fun piece => ~ In sep piece) parts ->
  split sep (join [sep] parts) = parts.
Proof.
  intros Hne Hfree. induction Hfree as [|part rest Hp Hrest IH]; [congruence|].
  destruct rest as [|part' rest'].
  - simpl. apply split_free. exact Hp.
  - change (join [sep] (part :: part' :: rest'))
      with (part ++ sep :: join [sep] (part' :: rest')).
    rewrite split_app_sep by exact Hp. rewrite IH by discriminate. reflexivity.
Qed.

Lemma split_length (sep : codeUnit) (s : jsstring) :
  length (split sep s) = S (count_occ N.eq_dec s sep).
Proof.
  induction s as [|c s IH]; [reflexivity|].
  destruct (split_cons sep c s) as (piece & pieces & E & ->).
  rewrite E in IH. cbn [count_occ].
  destruct (N.eqb_spec c sep) as [->|Hne].
  - destruct (N.eq_dec sep sep); [|contradiction]. simpl in *. lia.
  - destruct (N.eq_dec c sep); [contradiction|]. simpl in *. lia.
Qed.

(** X4. Splitting loses nothing: the pieces of [s.split(sep)] joined with
    [sep] give [s] back, no piece contains [sep], and there is one piece more
    than [s] has separators (so always at least one). *)
Theorem split_join_round_trip (sep : codeUnit) (s : jsstring) :
  join [sep] (split sep s) = s /\
  Forall (fun piece => ~ In sep piece) (split sep s) /\
  length (split sep s) = S (count_occ N.eq_dec s sep).
Proof.
  split; [apply join_split|]. split; [apply split_pieces_free | apply split_length].
Qed.

(** X5. A hostname put together from labels that hold no dot, joined by
    dots, gives the labels back: [getTLD] returns the last one, and
    [getBaseDomain] the one before the last, or the one before that when
    there are at least three labels and the one before the last is one of
    co, com, org, net, gov, edu.  With two labels the base is the first
    one, whatever it is. *)
Theorem hostname_from_labels (front : list jsstring) (sub name tld : jsstring) :
  Forall (fun label => ~ In dot label) (front ++ [sub; name; tld]) ->
  getTLD (join [dot] (front ++ [sub; name; tld])) = tld /\
  getBaseDomain (join [dot] (front ++ [sub; name; tld]))
  = (if arrayIncludes
          [str "co"; str "com"; str "org"; str "net"; str "gov"; str "edu"]
          name
     then sub else name) /\
  getTLD (join [dot] [name; tld]) = tld /\
  getBaseDomain (join [dot] [name; tld]) = name.
Proof.
  intros Hfree.
  assert (Hfree2 : Forall (fun label => ~ In dot label) [name; tld]).
  { apply Forall_app in Hfree. destruct Hfree as [_ Hfree].
    apply Forall_cons in Hfree. destruct Hfree as [_ Hfree]. exact Hfree. }
  assert (Hne : front ++ [sub; name; tld] <> []) by (destruct front; discriminate).
  assert (Hlen : length (front ++ [sub; name; tld]) = (length front + 3)%nat)
    by (rewrite length_app; reflexivity).
  assert (Hat : forall k, (k < 3)%nat ->
            (front ++ [sub; name; tld]) !!! (length front + k)%nat
            = [sub; name; tld] !!! k).
  { intros k Hk. rewrite lookup_total_app_r by lia. f_equal. lia. }
  unfold getTLD, getBaseDomain.
  rewrite (split_join dot _ Hne Hfree).
  rewrite (split_join dot [name; tld]) by (discriminate || exact Hfree2).
  rewrite Hlen.
  replace (length front + 3 - 1)%nat with (length front + 2)%nat by lia.
  replace (length front + 3 - 2)%nat with (length front + 1)%nat by lia.
  replace (length front + 3 - 3)%nat with (length front + 0)%nat by lia.
  rewrite !Hat by lia.
  replace (2 <=? length front + 3)%nat with true
    by (symmetry; apply Nat.leb_le; lia).
  replace (3 <=? length front + 3)%nat with true
    by (symmetry; apply Nat.leb_le; lia).
  rewrite andb_true_r.
  split; [reflexivity|]. split; [reflexivity|]. split; [reflexivity|].
  cbn [length Nat.leb Nat.sub]. rewrite andb_false_r. reflexivity.
Qed.

Lemma hostname_from_labels_witness :
  getTLD (str "www.example.co.uk") = str "uk" /\
  getBaseDomain (str "www.example.co.uk") = str "example".
Proof.
  assert (H : Forall (fun label => ~ In dot label)
                ([str "www"] ++ [str "example"; str "co"; str "uk"])).
  { repeat constructor; vm_compute; intuition discriminate. }
  destruct (hostname_from_labels [str "www"] (str "example") (str "co")
              (str "uk") H) as (Htld & Hbase & _).
  split; [exact Htld | exact Hbase].
Defined.

(** ** The base label and the TLD *)

Lemma In_lookup_total (parts : list jsstring) (i : nat) :
  (i < length parts)%nat -> In (parts !!! i) parts.
Proof.
  intros Hi. apply list_elem_of_In, list_elem_of_lookup_total_2. exact Hi.
Qed.

Lemma split_length_pos (s : jsstring) : (1 <= length (split dot s))%nat.
Proof.
  pose proof (split_nonempty dot s). destruct (split dot s); [congruence|simpl; lia].
Qed.

Lemma getTLD_label (hostname : jsstring) :
  In (getTLD hostname) (split dot hostname).
Proof.
  unfold getTLD. pose proof (split_length_pos hostname).
  apply In_lookup_total. lia.
Qed.

Lemma getBaseDomain_label (hostname : jsstring) :
  In (getBaseDomain hostname) (split dot hostname).
Proof.
  unfold getBaseDomain. pose proof (split_length_pos hostname).
  destruct (Nat.leb_spec 2 (length (split dot hostname))).
  - destruct (arrayIncludes _ _ && _) eqn:E.
    + apply andb_true_iff in E. destruct E as [_ E]. apply Nat.leb_le in E.
      apply In_lookup_total. lia.
    + apply In_lookup_total. lia.
  - apply In_lookup_total. lia.
Qed.

Lemma join_snoc (sep : jsstring) (parts : list jsstring) (x : jsstring) :
  join sep (parts ++ [x]) =
  match parts with
  | [] => x
  | _ :: _ => join sep parts ++ sep ++ x
  end.
Proof.
  induction parts as [|p ps IH]; [reflexivity|].
  destruct ps as [|p' ps']; [reflexivity|].
  change (join sep ((p :: p' :: ps') ++ [x]))
    with (p ++ sep ++ join sep ((p' :: ps') ++ [x])).
  rewrite IH.
  change (join sep (p :: p' :: ps')) with (p ++ sep ++ join sep (p' :: ps')).
  rewrite <- !app_assoc. reflexivity.
Qed.

(** The TLD is the last label. *)
Lemma split_snoc (hostname : jsstring) :
  exists front, split dot hostname = front ++ [getTLD hostname].
Proof.
  unfold getTLD.
  destruct (split dot hostname) as [|p ps] eqn:E using rev_ind.
  - destruct (split_nonempty dot hostname E).
  - exists ps. f_equal. rewrite length_app. simpl.
    replace (length ps + 1 - 1)%nat with (length ps) by lia.
    rewrite lookup_total_app_r by lia. rewrite Nat.sub_diag. reflexivity.
Qed.

Lemma getTLD_suffix (hostname : jsstring) :
  hostname = getTLD hostname \/
  exists front, hostname = front ++ dot :: getTLD hostname.
Proof.
  destruct (split_snoc hostname) as [front E].
  pose proof (join_split dot hostname) as Hj. rewrite E, join_snoc in Hj.
  destruct front as [|p ps]; [left; symmetry; exact Hj|].
  right. eexists. symmetry. exact Hj.
Qed.

(** X6. [getTLD] and [getBaseDomain] return labels of the hostname, so
    neither contains a dot; the hostname is its TLD or ends with a dot and its
    TLD; and for a hostname without a dot both return the hostname itself. *)
Theorem base_and_tld_are_labels (hostname : jsstring) :
  In (getTLD hostname) (split dot hostname) /\
  In (getBaseDomain hostname) (split dot hostname) /\
  ~ In dot (getTLD hostname) /\
  ~ In dot (getBaseDomain hostname) /\
  (hostname = getTLD hostname \/
   exists front, hostname = front ++ dot :: getTLD hostname) /\
  (~ In dot hostname ->
   getTLD hostname = hostname /\ getBaseDomain hostname = hostname).
Proof.
  pose proof (split_pieces_free dot hostname) as Hfree.
  rewrite Forall_forall in Hfree.
  split; [apply getTLD_label|]. split; [apply getBaseDomain_label|].
  split; [apply Hfree, list_elem_of_In, getTLD_label|].
  split; [apply Hfree, list_elem_of_In, getBaseDomain_label|].
  split; [apply getTLD_suffix|].
  intros Hno. unfold getTLD, getBaseDomain.
  rewrite (split_free dot hostname Hno). split; reflexivity.
Qed.

Lemma base_and_tld_are_labels_witness :
  ~ In dot (str "localhost") /\
  getTLD (str "localhost") = str "localhost" /\
  getBaseDomain (str "localhost") = str "localhost".
Proof.
  assert (H : ~ In dot (str "localhost")) by (vm_compute; intuition discriminate).
  split; [exact H|].
  apply (base_and_tld_are_labels (str "localhost")). exact H.
Defined.

(** ** The normaliser on ASCII strings *)

(** Induction along the way [replaceAll2] reads its input. *)
Lemma replaceAll2_scan (a1 a2 : codeUnit) (P : jsstring -> Prop) :
  P [] ->
  (forall x, P [x]) ->
  (forall x y t, N.eqb x a1 && N.eqb y a2 = true -> P t -> P (x :: y :: t)) ->
  (forall x y t, N.eqb x a1 && N.eqb y a2 = false -> P (y :: t) -> P (x :: y :: t)) ->
  forall t, P t.
Proof.
  intros Hnil Hone Hhit Hmiss t.
  assert (H : forall n t, (length t <= n)%nat -> P t).
  { clear t. induction n as [|n IH]; intros t Hn.
    - destruct t; [exact Hnil | simpl in Hn; lia].
    - destruct t as [|x [|y t]]; [exact Hnil | apply Hone |].
      simpl in Hn.
      destruct (N.eqb x a1 && N.eqb y a2) eqn:E.
      + apply Hhit; [exact E | apply IH; lia].
      + apply Hmiss; [exact E | apply IH; simpl; lia]. }
  apply (H (length t)). lia.
Qed.

Lemma includes_pair_nil (p q : codeUnit) : includes [] [p; q] = false.
Proof. reflexivity. Qed.

Lemma includes_pair_cons (p q x : codeUnit) (t : jsstring) :
  includes (x :: t) [p; q] = (N.eqb x p && headIs q t) || includes t [p; q].
Proof.
  destruct t as [|y t].
  - unfold includes, startsWith, headIs. destruct (N.eqb x p); reflexivity.
  - change (includes (x :: y :: t) [p; q])
      with (startsWith (x :: y :: t) [p; q] || includes (y :: t) [p; q]).
    cbn [startsWith headIs].
    replace (startsWith t []) with true by (destruct t; reflexivity).
    destruct (N.eqb x p), (N.eqb y q); reflexivity.
Qed.

Lemma headIs_replaceAll2 (a1 a2 b q : codeUnit) (t : jsstring) :
  q <> b -> headIs q (replaceAll2 a1 a2 b t) = true ->
  headIs q t = true /\ ~ (headIs a1 t = true /\ exists y t', t = a1 :: y :: t' /\ y = a2).
Proof.
  intros Hq. destruct t as [|x [|y t]]; [discriminate | |].
  - simpl. intros H. split; [exact H|]. intros [_ (y & t' & E & _)]. discriminate E.
  - rewrite replaceAll2_cons2.
    destruct (N.eqb x a1 && N.eqb y a2) eqn:E; cbn [headIs].
    + rewrite N.eqb_eq. intros ->. contradiction.
    + intros H. split; [exact H|]. intros [_ (y' & t' & [= -> -> ->] & ->)].
      rewrite !N.eqb_refl in E. discriminate E.
Qed.

Lemma replaceAll2_no_pair_left (a1 a2 b : codeUnit) (t : jsstring) :
  b <> a1 -> b <> a2 -> includes (replaceAll2 a1 a2 b t) [a1; a2] = false.
Proof.
  intros H1 H2. induction t as [| x | x y t E IH | x y t E IH]
    using (replaceAll2_scan a1 a2).
  - reflexivity.
  - simpl. rewrite includes_pair_cons. cbn [headIs]. rewrite andb_false_r. reflexivity.
  - rewrite replaceAll2_cons2, E, includes_pair_cons, IH.
    destruct (N.eqb_spec b a1); [contradiction|]. reflexivity.
  - rewrite replaceAll2_cons2, E, includes_pair_cons, IH, orb_false_r.
    destruct (N.eqb_spec x a1) as [->|]; [|reflexivity]. rewrite andb_true_l.
    destruct (headIs a2 (replaceAll2 a1 a2 b (y :: t))) eqn:Hh; [|reflexivity].
    apply headIs_replaceAll2 in Hh; [|congruence]. destruct Hh as [Hh _].
    cbn [headIs] in Hh. rewrite Hh in E. discriminate E.
Qed.

Lemma replaceAll2_keeps_no_pair (a1 a2 b p q : codeUnit) (t : jsstring) :
  b <> p -> b <> q -> includes t [p; q] = false ->
  includes (replaceAll2 a1 a2 b t) [p; q] = false.
Proof.
  intros H1 H2. induction t as [| x | x y t E IH | x y t E IH]
    using (replaceAll2_scan a1 a2); intros Hno.
  - reflexivity.
  - exact Hno.
  - rewrite replaceAll2_cons2, E, includes_pair_cons.
    rewrite !includes_pair_cons in Hno.
    apply orb_false_iff in Hno. destruct Hno as [_ Hno].
    apply orb_false_iff in Hno. destruct Hno as [_ Hno].
    rewrite (IH Hno). destruct (N.eqb_spec b p); [contradiction|]. reflexivity.
  - rewrite replaceAll2_cons2, E, includes_pair_cons.
    rewrite includes_pair_cons in Hno.
    apply orb_false_iff in Hno. destruct Hno as [Hhead Hno].
    rewrite (IH Hno), orb_false_r.
    destruct (N.eqb x p) eqn:Ex; [|reflexivity]. rewrite andb_true_l in *.
    destruct (headIs q (replaceAll2 a1 a2 b (y :: t))) eqn:Hh; [|reflexivity].
    apply headIs_replaceAll2 in Hh; [|congruence]. destruct Hh as [Hh _].
    congruence.
Qed.

Lemma replaceAll2_forallb (R : codeUnit -> bool) (a1 a2 b : codeUnit) (t : jsstring) :
  R b = true -> forallb R t = true -> forallb R (replaceAll2 a1 a2 b t) = true.
Proof.
  intros Hb. induction t as [| x | x y t E IH | x y t E IH]
    using (replaceAll2_scan a1 a2); intros Ht.
  - reflexivity.
  - exact Ht.
  - rewrite replaceAll2_cons2, E. cbn [forallb] in *.
    rewrite Hb. apply andb_true_iff in Ht. destruct Ht as [_ Ht].
    apply andb_true_iff in Ht. destruct Ht as [_ Ht]. apply IH, Ht.
  - rewrite replaceAll2_cons2, E. cbn [forallb] in *.
    apply andb_true_iff in Ht. destruct Ht as [Hx Ht]. rewrite Hx. apply IH, Ht.
Qed.

Lemma replaceAll2_length (a1 a2 b : codeUnit) (t : jsstring) :
  (length (replaceAll2 a1 a2 b t) <= length t)%nat.
Proof.
  induction t as [| x | x y t E IH | x y t E IH] using (replaceAll2_scan a1 a2).
  - reflexivity.
  - reflexivity.
  - rewrite replaceAll2_cons2, E. simpl. lia.
  - rewrite replaceAll2_cons2, E. simpl in *. lia.
Qed.

Lemma replaceAll2_fixed (a1 a2 b : codeUnit) (t : jsstring) :
  includes t [a1; a2] = false -> replaceAll2 a1 a2 b t = t.
Proof.
  induction t as [| x | x y t E IH | x y t E IH]
    using (replaceAll2_scan a1 a2); intros Hno.
  - reflexivity.
  - reflexivity.
  - rewrite includes_pair_cons in Hno. cbn [headIs] in Hno.
    apply andb_true_iff in E. destruct E as [E1 E2].
    rewrite E1, E2 in Hno. discriminate Hno.
  - rewrite replaceAll2_cons2, E. f_equal. apply IH.
    rewrite includes_pair_cons in Hno. apply orb_false_iff in Hno. apply Hno.
Qed.

Lemma clean_snoc (avoid : list codeUnit) (a c : codeUnit) :
  clean (avoid ++ [a]) c = clean avoid c && negb (N.eqb c a).
Proof.
  unfold clean. rewrite existsb_app. simpl. rewrite orb_false_r, negb_orb.
  rewrite andb_assoc. reflexivity.
Qed.

Lemma replaceAll1_clean (avoid : list codeUnit) (a b : codeUnit) (t : jsstring) :
  clean (avoid ++ [a]) b = true ->
  forallb (clean avoid) t = true ->
  forallb (clean (avoid ++ [a])) (replaceAll1 a b t) = true.
Proof.
  intros Hb Ht. unfold replaceAll1. rewrite forallb_forall in *.
  intros c Hc. apply in_map_iff in Hc. destruct Hc as (c0 & <- & Hc0).
  destruct (N.eqb_spec c0 a) as [->|Hne]; [exact Hb|].
  rewrite clean_snoc, (Ht c0 Hc0). simpl.
  destruct (N.eqb_spec c0 a); [contradiction|reflexivity].
Qed.

Lemma replaceAll1_fixed (a b : codeUnit) (t : jsstring) :
  forallb (fun c => negb (N.eqb c a)) t = true -> replaceAll1 a b t = t.
Proof.
  unfold replaceAll1. induction t as [|c t IH]; [reflexivity|].
  cbn [forallb map]. rewrite andb_true_iff, negb_true_iff. intros [Hc Ht].
  rewrite Hc, IH by exact Ht. reflexivity.
Qed.

Lemma replaceAll1_length (a b : codeUnit) (t : jsstring) :
  length (replaceAll1 a b t) = length t.
Proof. unfold replaceAll1. apply length_map. Qed.

Lemma forallb_weaken (R R' : codeUnit -> bool) (t : jsstring) :
  (forall c, R c = true -> R' c = true) ->
  forallb R t = true -> forallb R' t = true.
Proof.
  intros H. rewrite !forallb_forall. intros Ht c Hc. apply H, Ht, Hc.
Qed.

Lemma asciiLower_clean (s : jsstring) :
  forallb isAscii s = true -> forallb (clean []) (map asciiLower s) = true.
Proof.
  rewrite !forallb_forall. intros Hs c Hc.
  apply in_map_iff in Hc. destruct Hc as (c0 & <- & Hc0).
  specialize (Hs c0 Hc0). unfold clean, isAscii, isUpperLetter, asciiLower in *.
  simpl. rewrite andb_true_r. apply N.ltb_lt in Hs.
  destruct (N.leb_spec 65 c0); destruct (N.leb_spec c0 90); simpl;
    apply andb_true_iff; split;
    try (apply N.ltb_lt; lia); apply negb_true_iff, andb_false_iff;
    try (left; apply N.leb_gt; lia); right; apply N.leb_gt; lia.
Qed.

Lemma asciiLower_fixed (t : jsstring) :
  forallb (clean []) t = true -> map asciiLower t = t.
Proof.
  induction t as [|c t IH]; [reflexivity|].
  cbn [forallb map]. rewrite andb_true_iff. intros [Hc Ht].
  rewrite IH by exact Ht. f_equal.
  unfold clean in Hc. apply andb_true_iff in Hc. destruct Hc as [Hc _].
  apply andb_true_iff in Hc. destruct Hc as [_ Hc].
  unfold asciiLower. unfold isUpperLetter in Hc.
  apply negb_true_iff in Hc. rewrite Hc. reflexivity.
Qed.

Section NormalForm.
Context {platform : Platform}.

Lemma toLowerCase_ascii (s : jsstring) :
  forallb isAscii s = true -> toLowerCase s = map asciiLower s.
Proof. intros H. unfold toLowerCase. rewrite H. reflexivity. Qed.

Lemma normalizeString_normalised (s : jsstring) :
  forallb isAscii s = true -> isNormalised (normalizeString s) = true.
Proof.
  intros Hs. unfold normalizeString. rewrite toLowerCase_ascii by exact Hs.
  pose proof (asciiLower_clean s Hs) as H0.
  set (t0 := map asciiLower s) in *.
  pose proof (replaceAll1_clean []%N 48 111 t0 eq_refl H0) as H1.
  set (t1 := replaceAll1 48 111 t0) in *.
  pose proof (replaceAll1_clean [48]%N 49 108 t1 eq_refl H1) as H2.
  set (t2 := replaceAll1 49 108 t1) in *.
  pose proof (replaceAll1_clean [48; 49]%N 51 101 t2 eq_refl H2) as H3.
  set (t3 := replaceAll1 51 101 t2) in *.
  pose proof (replaceAll1_clean [48; 49; 51]%N 52 97 t3 eq_refl H3) as H4.
  set (t4 := replaceAll1 52 97 t3) in *.
  pose proof (replaceAll1_clean [48; 49; 51; 52]%N 53 115 t4 eq_refl H4) as H5.
  set (t5 := replaceAll1 53 115 t4) in *.
  pose proof (replaceAll1_clean [48; 49; 51; 52; 53]%N 55 116 t5 eq_refl H5) as H6.
  set (t6 := replaceAll1 55 116 t5) in *.
  pose proof (replaceAll1_clean [48; 49; 51; 52; 53; 55]%N 56 98 t6 eq_refl H6) as H7.
  set (t7 := replaceAll1 56 98 t6) in *.
  pose proof (replaceAll1_clean [48; 49; 51; 52; 53; 55; 56]%N 57 103 t7 eq_refl H7) as H8.
  set (t8 := replaceAll1 57 103 t7) in *.
  pose proof (replaceAll1_clean [48; 49; 51; 52; 53; 55; 56; 57]%N 64 97 t8 eq_refl H8) as H9.
  set (t9 := replaceAll1 64 97 t8) in *.
  pose proof (replaceAll1_clean [48; 49; 51; 52; 53; 55; 56; 57; 64]%N 36 115 t9 eq_refl H9) as H10.
  set (t10 := replaceAll1 36 115 t9) in *.
  cbv zeta. unfold isNormalised.
  rewrite (replaceAll2_forallb (clean substitutedUnits) 118 118 119);
    [| reflexivity
     | apply replaceAll2_forallb; [reflexivity | exact H10]].
  rewrite replaceAll2_keeps_no_pair;
    [| discriminate | discriminate
     | apply replaceAll2_no_pair_left; discriminate].
  rewrite replaceAll2_no_pair_left by discriminate.
  reflexivity.
Qed.

Lemma normalizeString_fixed (t : jsstring) :
  isNormalised t = true -> normalizeString t = t.
Proof.
  unfold isNormalised. rewrite !andb_true_iff, !negb_true_iff.
  intros [[Hclean Hrn] Hvv].
  assert (Hascii : forallb isAscii t = true).
  { revert Hclean. apply forallb_weaken. intros c. unfold clean.
    rewrite !andb_true_iff. tauto. }
  assert (Hlow : forallb (clean []) t = true).
  { revert Hclean. apply forallb_weaken. intros c. unfold clean.
    rewrite !andb_true_iff. simpl. tauto. }
  assert (Hunit : forall a, In a substitutedUnits ->
                   forallb (fun c => negb (N.eqb c a)) t = true).
  { intros a Ha. revert Hclean. apply forallb_weaken. intros c. unfold clean.
    rewrite !andb_true_iff, !negb_true_iff. intros [_ Hc].
    destruct (N.eqb_spec c a) as [->|]; [|reflexivity].
    assert (existsb (N.eqb a) substitutedUnits = true); [|congruence].
    apply existsb_exists. exists a. split; [exact Ha | apply N.eqb_refl]. }
  unfold normalizeString. rewrite toLowerCase_ascii by exact Hascii.
  rewrite asciiLower_fixed by exact Hlow.
  repeat match goal with
         | |- context [replaceAll1 ?a ?b t] =>
             rewrite (replaceAll1_fixed a b t) by (apply Hunit; simpl; tauto)
         end.
  cbv zeta.
  rewrite (replaceAll2_fixed 114 110 109 t Hrn).
  apply replaceAll2_fixed, Hvv.
Qed.

Lemma normalizeString_length (s : jsstring) :
  forallb isAscii s = true -> (length (normalizeString s) <= length s)%nat.
Proof.
  intros Hs. unfold normalizeString. rewrite toLowerCase_ascii by exact Hs.
  cbv zeta.
  eapply Nat.le_trans; [apply replaceAll2_length|].
  eapply Nat.le_trans; [apply replaceAll2_length|].
  rewrite !replaceAll1_length, length_map. reflexivity.
Qed.

(** X7. On an ASCII string, [normalizeString] returns a string it has nothing
    left to do on (lower-case ASCII without a substituted digit or symbol and
    without "rn" or "vv"), so normalising twice is normalising once; and the
    result is never longer than the input. *)
Theorem normalizeString_ascii_idempotent (s : jsstring) :
  forallb isAscii s = true ->
  isNormalised (normalizeString s) = true /\
  normalizeString (normalizeString s) = normalizeString s /\
  (length (normalizeString s) <= length s)%nat.
Proof.
  intros Hs. pose proof (normalizeString_normalised s Hs) as Hn.
  split; [exact Hn|]. split; [apply normalizeString_fixed, Hn|].
  apply normalizeString_length, Hs.
Qed.
End NormalForm.

Lemma normalizeString_ascii_idempotent_witness :
  forallb isAscii (str "PAYPA1-5ECURE") = true /\
  @normalizeString samplePlatform
    (@normalizeString samplePlatform (str "PAYPA1-5ECURE"))
  = @normalizeString samplePlatform (str "PAYPA1-5ECURE").
Proof.
  split; [reflexivity|].
  apply (@normalizeString_ascii_idempotent samplePlatform (str "PAYPA1-5ECURE")).
  reflexivity.
Defined.

(** ** The brand loop stops at the first brand that fires *)

Lemma jseq_false (a b : jsstring) : jseq a b = false <-> a <> b.
Proof.
  rewrite <- jseq_eq. destruct (jseq a b); split; congruence.
Qed.

(** One turn of the brand loop. *)
Lemma brandLoop_cons (baseDomain normalizedDomain known : jsstring)
    (rest : list jsstring) (r : AnalysisResult) :
  brandLoop baseDomain normalizedDomain (known :: rest) r =
  if brandFires baseDomain normalizedDomain known then
    mkResult (url r) true
      (riskScore r + fst (brandSignal baseDomain normalizedDomain known))
      (reasons r ++ [snd (brandSignal baseDomain normalizedDomain known)])
      (Some known)
  else brandLoop baseDomain normalizedDomain rest r.
Proof.
  cbn [brandLoop]. unfold brandFires, brandSignal.
  destruct (jseq baseDomain known); [reflexivity|].
  destruct ((0 <? levenshteinDistance normalizedDomain known)
            && (levenshteinDistance normalizedDomain known <=? 2));
    [reflexivity|].
  destruct (includes baseDomain known); [reflexivity|].
  destruct (negb (jseq normalizedDomain baseDomain)); [|reflexivity].
  destruct (levenshteinDistance normalizedDomain known =? 0); reflexivity.
Qed.

Lemma brandLoop_find (baseDomain normalizedDomain : jsstring)
    (brands : list jsstring) (r : AnalysisResult) :
  brandLoop baseDomain normalizedDomain brands r =
  match find (brandFires baseDomain normalizedDomain) brands with
  | Some known =>
      mkResult (url r) true
        (riskScore r + fst (brandSignal baseDomain normalizedDomain known))
        (reasons r ++ [snd (brandSignal baseDomain normalizedDomain known)])
        (Some known)
  | None => r
  end.
Proof.
  induction brands as [|known rest IH]; [reflexivity|].
  rewrite brandLoop_cons. cbn [find].
  destruct (brandFires baseDomain normalizedDomain known); [reflexivity|exact IH].
Qed.

Lemma brandFires_iff (baseDomain normalizedDomain known : jsstring) :
  brandFires baseDomain normalizedDomain known = true <->
  known <> baseDomain /\
  (1 <= levenshteinDistance normalizedDomain known <= 2 \/
   includes baseDomain known = true \/
   (normalizedDomain <> baseDomain /\ normalizedDomain = known)).
Proof.
  unfold brandFires.
  rewrite !andb_true_iff, !orb_true_iff, !andb_true_iff, !negb_true_iff,
    !jseq_false, Z.ltb_lt, Z.leb_le, Z.eqb_eq, levenshteinDistance_zero_iff.
  split.
  - intros [Hne H]. split; [congruence|]. destruct H as [[H|H]|H]; auto.
    left. lia.
  - intros [Hne H]. split; [congruence|]. destruct H as [H|[H|H]]; auto.
    left. left. lia.
Qed.

Lemma brandSignal_homograph (baseDomain normalizedDomain known : jsstring) :
  brandFires baseDomain normalizedDomain known = true ->
  fst (brandSignal baseDomain normalizedDomain known) = 90 ->
  normalizedDomain = known /\ normalizedDomain <> baseDomain /\
  includes baseDomain known = false.
Proof.
  rewrite brandFires_iff. unfold brandSignal.
  destruct ((0 <? levenshteinDistance normalizedDomain known)
            && (levenshteinDistance normalizedDomain known <=? 2)) eqn:E1;
    [discriminate|].
  destruct (includes baseDomain known) eqn:E2; [discriminate|].
  intros [_ [H|[H|[H1 H2]]]] _; [|discriminate|auto].
  apply andb_false_iff in E1. rewrite Z.ltb_ge, Z.leb_gt in E1. lia.
Qed.

Lemma brandSignal_score (baseDomain normalizedDomain known : jsstring) :
  In (fst (brandSignal baseDomain normalizedDomain known)) [70; 60; 90].
Proof.
  unfold brandSignal.
  destruct (_ && _); [left; reflexivity|].
  destruct (includes baseDomain known); simpl; auto.
Qed.

Lemma brandSignal_containment (baseDomain normalizedDomain known : jsstring) :
  fst (brandSignal baseDomain normalizedDomain known) = 60 ->
  snd (brandSignal baseDomain normalizedDomain known) = containsReason known /\
  includes baseDomain known = true.
Proof.
  unfold brandSignal. destruct (_ && _); [discriminate|].
  destruct (includes baseDomain known); [split; reflexivity | discriminate].
Qed.

(** X8. The brand loop returns what the first brand, in the order of the
    list, that fires adds, and the result unchanged when none fires.  A brand
    fires exactly when it is not the base label itself and the normalised
    label is at distance 1 or 2 from it, or the base label contains it, or the
    normalised label differs from the base label and is the brand.  The
    homograph score 90 is given only when the normalised label is the brand,
    differs from the base label, and the base label does not contain the
    brand. *)
Theorem brand_loop_first_firing_brand (baseDomain normalizedDomain : jsstring)
    (brands : list jsstring) (r : AnalysisResult) :
  brandLoop baseDomain normalizedDomain brands r =
  match find (brandFires baseDomain normalizedDomain) brands with
  | Some known =>
      mkResult (url r) true
        (riskScore r + fst (brandSignal baseDomain normalizedDomain known))
        (reasons r ++ [snd (brandSignal baseDomain normalizedDomain known)])
        (Some known)
  | None => r
  end /\
  (forall known,
     brandFires baseDomain normalizedDomain known = true <->
     known <> baseDomain /\
     (1 <= levenshteinDistance normalizedDomain known <= 2 \/
      includes baseDomain known = true \/
      (normalizedDomain <> baseDomain /\ normalizedDomain = known))) /\
  (forall known,
     brandFires baseDomain normalizedDomain known = true ->
     fst (brandSignal baseDomain normalizedDomain known) = 90 ->
     normalizedDomain = known /\ normalizedDomain <> baseDomain /\
     includes baseDomain known = false).
Proof.
  split; [apply brandLoop_find|]. split.
  - intros known. apply brandFires_iff.
  - intros known. apply brandSignal_homograph.
Qed.

Lemma brand_loop_first_firing_brand_witness :
  brandFires (str "g00gle") (str "google") (str "google") = true /\
  str "google" <> str "g00gle".
Proof.
  assert (H : brandFires (str "g00gle") (str "google") (str "google") = true)
    by (vm_compute; reflexivity).
  split; [exact H|].
  apply (proj1 (proj1 (proj2 (brand_loop_first_firing_brand
                                (str "g00gle") (str "google") []
                                (freshResult [])))
                  (str "google")) H).
Defined.

(** ** The verdict in closed form *)

Section VerdictProperties.
Context {platform : Platform}.

Lemma knownDomains_truthy (known : jsstring) :
  In known knownDomains -> truthy (Some known) = true.
Proof.
  assert (H : forallb (fun k => truthy (Some k)) knownDomains = true)
    by (vm_compute; reflexivity).
  rewrite forallb_forall in H. apply H.
Qed.

Lemma subdomainTrickSpec_known (hostname known : jsstring) :
  subdomainTrickSpec hostname = Some known -> In known knownDomains.
Proof.
  unfold subdomainTrickSpec.
  destruct (3 <? length (split dot hostname))%nat; [|discriminate].
  intros H. apply find_some in H. apply H.
Qed.

Lemma analyzeUrl_verdictOn (u hostname : jsstring) :
  extractDomain u = Some hostname -> hostname <> [] ->
  analyzeUrl u = verdictOn u hostname.
Proof.
  intros He Hne. unfold analyzeUrl. rewrite He.
  destruct hostname as [|c h]; [congruence|].
  cbn [truthy negb]. change (default [] (Some (c :: h))) with (c :: h).
  set (hostname := c :: h) in *.
  unfold verdictOn, subdomainStep, tldStep, capStep.
  rewrite checkSubdomainTrick_spec, brandLoop_find.
  destruct (subdomainTrickSpec hostname) as [k1|] eqn:Etrick;
    destruct (find _ knownDomains) as [k2|] eqn:Ebrand;
    cbn [subIsSuspicious subReason subMatchedDomain pushReason freshResult
         url isSuspicious riskScore reasons matchedDomain isSome app].
  - apply find_some in Ebrand. destruct Ebrand as [Hin _].
    rewrite (knownDomains_truthy k2 Hin), andb_true_r.
    destruct (arrayIncludes suspiciousTLDs (getTLD hostname));
      cbn [url isSuspicious riskScore reasons matchedDomain];
      rewrite <- ?app_assoc; f_equal; lia.
  - apply subdomainTrickSpec_known in Etrick.
    rewrite (knownDomains_truthy k1 Etrick), andb_true_r.
    destruct (arrayIncludes suspiciousTLDs (getTLD hostname));
      cbn [url isSuspicious riskScore reasons matchedDomain];
      rewrite ?app_nil_r; f_equal; lia.
  - apply find_some in Ebrand. destruct Ebrand as [Hin _].
    rewrite (knownDomains_truthy k2 Hin), andb_true_r.
    destruct (arrayIncludes suspiciousTLDs (getTLD hostname));
      cbn [url isSuspicious riskScore reasons matchedDomain];
      f_equal; lia.
  - cbn [truthy]. rewrite andb_false_r.
    cbn [url isSuspicious riskScore reasons matchedDomain]. reflexivity.
Qed.

Lemma analyzeUrl_fresh_or_verdictOn (u : jsstring) :
  analyzeUrl u = freshResult u \/
  exists hostname,
    extractDomain u = Some hostname /\ hostname <> [] /\
    analyzeUrl u = verdictOn u hostname.
Proof.
  destruct (extractDomain u) as [[|c h]|] eqn:He.
  - left. unfold analyzeUrl. rewrite He. reflexivity.
  - right. exists (c :: h). split; [reflexivity|]. split; [discriminate|].
    apply analyzeUrl_verdictOn; [exact He | discriminate].
  - left. unfold analyzeUrl. rewrite He. reflexivity.
Qed.

(** Bring the parts of [verdictOn] that the score depends on into the goal as
    variables: the bonus test, the trick, and the brand with its signal. *)
Local Ltac verdict_cases h :=
  let Hscore := fresh "Hscore" in
  assert (Hscore : forall k,
            In (fst (brandSignal (getBaseDomain h)
                       (normalizeString (getBaseDomain h)) k)) [70; 60; 90])
    by (intros k; apply brandSignal_score);
  generalize dependent (brandSignal (getBaseDomain h)
                          (normalizeString (getBaseDomain h)));
  intros signal Hscore;
  generalize (find (brandFires (getBaseDomain h)
                      (normalizeString (getBaseDomain h))) knownDomains);
  generalize (subdomainTrickSpec h);
  generalize (arrayIncludes suspiciousTLDs (getTLD h));
  intros bonus [k1|] [k2|]; destruct bonus; cbn [isSome andb length app];
  try (specialize (Hscore k2); cbn [In] in Hscore;
       destruct Hscore as [<-|[<-|[<-|[]]]]).

Lemma analyzeUrl_score_values (u : jsstring) :
  In (riskScore (analyzeUrl u)) [0; 60; 70; 80; 90; 100].
Proof.
  destruct (analyzeUrl_fresh_or_verdictOn u) as [->|(h & _ & _ & ->)];
    [left; reflexivity|].
  unfold verdictOn. cbn [riskScore]. verdict_cases h; cbn; auto 10.
Qed.

Lemma analyzeUrl_score_range (u : jsstring) :
  0 <= riskScore (analyzeUrl u) <= 100.
Proof.
  pose proof (analyzeUrl_score_values u) as Hv. cbn [In] in Hv.
  destruct Hv as [E|[E|[E|[E|[E|[E|[]]]]]]]; lia.
Qed.

Lemma analyzeUrl_verdict_bounds (u : jsstring) :
  url (analyzeUrl u) = u /\
  (length (reasons (analyzeUrl u)) <= 3)%nat /\
  (isSuspicious (analyzeUrl u) = true -> 60 <= riskScore (analyzeUrl u)).
Proof.
  destruct (analyzeUrl_fresh_or_verdictOn u) as [->|(h & _ & _ & ->)].
  - simpl. split; [reflexivity|]. split; [lia | discriminate].
  - unfold verdictOn. cbn [url reasons isSuspicious riskScore].
    split; [reflexivity|].
    verdict_cases h; (split; [lia|]); try discriminate; intros _; lia.
Qed.

(** A score of 60 is brand containment and nothing else. *)
Lemma score_60_is_containment (u : jsstring) :
  riskScore (analyzeUrl u) = 60 ->
  exists known,
    In known knownDomains /\
    reasons (analyzeUrl u) = [containsReason known] /\
    matchedDomain (analyzeUrl u) = Some known.
Proof.
  destruct (analyzeUrl_fresh_or_verdictOn u) as [->|(h & _ & _ & ->)];
    [discriminate|].
  unfold verdictOn. cbn [riskScore reasons matchedDomain].
  destruct (find _ knownDomains) as [k2|] eqn:Ef.
  - apply find_some in Ef. destruct Ef as [Hin _].
    pose proof (brandSignal_score (getBaseDomain h)
                  (normalizeString (getBaseDomain h)) k2) as Hscore.
    pose proof (brandSignal_containment (getBaseDomain h)
                  (normalizeString (getBaseDomain h)) k2) as Hc.
    destruct (brandSignal (getBaseDomain h) (normalizeString (getBaseDomain h)) k2)
      as [delta reason]. cbn [fst snd] in *.
    generalize (subdomainTrickSpec h) (arrayIncludes suspiciousTLDs (getTLD h)).
    intros [k1|] bonus; destruct bonus; cbn [isSome andb app];
      cbn [In] in Hscore; destruct Hscore as [<-|[<-|[<-|[]]]]; try lia.
    intros _. exists k2. destruct (Hc eq_refl) as [-> _]. auto.
  - generalize (subdomainTrickSpec h) (arrayIncludes suspiciousTLDs (getTLD h)).
    intros [k1|] bonus; destruct bonus; cbn [isSome andb]; lia.
Qed.

(** X9. When [extractDomain] yields a non-empty hostname, [analyzeUrl]
    returns the verdict in closed form: the matched brand is the first brand
    that fires in the brand loop and otherwise the brand of the subdomain
    trick; the result is suspicious exactly when there is a matched brand;
    the score is 80 for the trick plus the brand's score plus 20 for a
    suspicious TLD with a matched brand, capped at 100; and the reasons come
    in that order. *)
Theorem analyzeUrl_closed_form (u hostname : jsstring) :
  extractDomain u = Some hostname -> hostname <> [] ->
  analyzeUrl u = verdictOn u hostname.
Proof. apply analyzeUrl_verdictOn. Qed.

(** X10. [analyzeUrl u] is suspicious exactly when a non-empty hostname is
    extracted and the subdomain trick fires on it or some reference brand
    fires in the brand loop. *)
Theorem suspicious_iff_signal (u : jsstring) :
  isSuspicious (analyzeUrl u) = true <->
  exists hostname,
    extractDomain u = Some hostname /\ hostname <> [] /\
    (is_Some (subdomainTrickSpec hostname) \/
     exists known,
       In known knownDomains /\
       brandFires (getBaseDomain hostname)
         (normalizeString (getBaseDomain hostname)) known = true).
Proof.
  split.
  - destruct (analyzeUrl_fresh_or_verdictOn u) as [->|(h & He & Hne & ->)];
      [discriminate|].
    unfold verdictOn. cbn [isSuspicious]. intros Hs.
    exists h. split; [exact He|]. split; [exact Hne|].
    destruct (find _ knownDomains) as [k|] eqn:Ef.
    + right. exists k. apply find_some in Ef. exact Ef.
    + left. destruct (subdomainTrickSpec h); [eexists; reflexivity|discriminate].
  - intros (h & He & Hne & Hsig).
    rewrite (analyzeUrl_verdictOn u h He Hne). unfold verdictOn. cbn [isSuspicious].
    destruct (find _ knownDomains) as [k|] eqn:Ef; [reflexivity|].
    destruct Hsig as [[k Hk]|(k & Hin & Hk)].
    + rewrite Hk. reflexivity.
    + rewrite (find_none _ _ Ef k Hin) in Hk. discriminate Hk.
Qed.

(** X11. For every input, the result of [analyzeUrl] carries the input as its
    [url], has at most three reasons, and scores at least 60 whenever it is
    suspicious. *)
Theorem verdict_bounds (u : jsstring) :
  url (analyzeUrl u) = u /\
  (length (reasons (analyzeUrl u)) <= 3)%nat /\
  (isSuspicious (analyzeUrl u) = true -> 60 <= riskScore (analyzeUrl u)).
Proof. apply analyzeUrl_verdict_bounds. Qed.
End VerdictProperties.

Lemma analyzeUrl_closed_form_witness :
  @extractDomain samplePlatform (str "https://paypal.com.g00gle.xyz")
  = Some (str "paypal.com.g00gle.xyz") /\
  @analyzeUrl samplePlatform (str "https://paypal.com.g00gle.xyz")
  = @verdictOn samplePlatform (str "https://paypal.com.g00gle.xyz")
      (str "paypal.com.g00gle.xyz").
Proof.
  assert (H : @extractDomain samplePlatform (str "https://paypal.com.g00gle.xyz")
              = Some (str "paypal.com.g00gle.xyz")) by (vm_compute; reflexivity).
  split; [exact H|].
  apply (@analyzeUrl_closed_form samplePlatform _ _ H). discriminate.
Defined.

Lemma verdict_bounds_witness :
  isSuspicious (@analyzeUrl samplePlatform (str "paypal-login.com")) = true /\
  60 <= riskScore (@analyzeUrl samplePlatform (str "paypal-login.com")).
Proof.
  assert (H : isSuspicious (@analyzeUrl samplePlatform (str "paypal-login.com"))
              = true) by (vm_compute; reflexivity).
  split; [exact H|].
  apply (@verdict_bounds samplePlatform (str "paypal-login.com")). exact H.
Defined.

(** ** White space and the missing scheme *)

Lemma trimStart_white (w s : jsstring) :
  forallb isWhiteSpace w = true -> trimStart (w ++ s) = trimStart s.
Proof.
  induction w as [|c w IH]; [reflexivity|].
  cbn [forallb]. rewrite andb_true_iff. intros [Hc Hw].
  cbn [app trimStart]. rewrite Hc. apply IH, Hw.
Qed.

Lemma trimStart_clean (s : jsstring) : startsClean s = true -> trimStart s = s.
Proof.
  destruct s as [|c s]; [reflexivity|]. cbn [startsClean trimStart].
  rewrite negb_true_iff. intros ->. reflexivity.
Qed.

Lemma trimStart_startsClean (s : jsstring) : startsClean (trimStart s) = true.
Proof.
  induction s as [|c s IH]; [reflexivity|]. cbn [trimStart].
  destruct (isWhiteSpace c) eqn:E; [exact IH|]. cbn [startsClean]. rewrite E. reflexivity.
Qed.

Lemma trimStart_all_white (w : jsstring) :
  forallb isWhiteSpace w = true -> trimStart w = [].
Proof.
  intros H. rewrite <- (app_nil_r w), trimStart_white by exact H. reflexivity.
Qed.

(** [trimStart] drops a white prefix and nothing else. *)
Lemma trimStart_split (s : jsstring) :
  exists w, forallb isWhiteSpace w = true /\ s = w ++ trimStart s.
Proof.
  induction s as [|c s (w & Hw & IH)]; [exists []; split; reflexivity|].
  cbn [trimStart]. destruct (isWhiteSpace c) eqn:E.
  - exists (c :: w). split; [cbn [forallb]; rewrite E, Hw; reflexivity|].
    cbn [app]. f_equal. exact IH.
  - exists []. split; reflexivity.
Qed.

Lemma trimStart_app_clean (s t : jsstring) :
  trimStart s <> [] -> trimStart (s ++ t) = trimStart s ++ t.
Proof.
  induction s as [|c s IH]; [intros H; destruct H; reflexivity|].
  cbn [app trimStart]. destruct (isWhiteSpace c); [exact IH | reflexivity].
Qed.

Lemma forallb_rev (f : codeUnit -> bool) (w : jsstring) :
  forallb f (rev w) = forallb f w.
Proof.
  induction w as [|c w IH]; [reflexivity|].
  cbn [rev]. rewrite forallb_app, IH. cbn [forallb].
  rewrite andb_true_r. apply andb_comm.
Qed.

(** White space around a string does not change what [trim] returns. *)
Lemma trim_white (w1 w2 s : jsstring) :
  forallb isWhiteSpace w1 = true -> forallb isWhiteSpace w2 = true ->
  trim (w1 ++ s ++ w2) = trim s.
Proof.
  intros H1 H2. unfold trim. rewrite trimStart_white by exact H1.
  destruct (trimStart s) as [|c t] eqn:E.
  - destruct (trimStart_split s) as (w & Hw & Hs). rewrite E, app_nil_r in Hs.
    subst w. rewrite (trimStart_all_white (s ++ w2)); [reflexivity|].
    rewrite forallb_app, Hw, H2. reflexivity.
  - rewrite trimStart_app_clean by (rewrite E; discriminate).
    rewrite E, rev_app_distr, trimStart_white; [reflexivity|].
    rewrite forallb_rev. exact H2.
Qed.

Lemma trim_idempotent (s : jsstring) : trim (trim s) = trim s.
Proof.
  unfold trim at 2.
  destruct (trimStart_split s) as (w1 & H1 & Hs).
  destruct (trimStart_split (rev (trimStart s))) as (w2 & H2 & Hr).
  set (m := rev (trimStart (rev (trimStart s)))) in *.
  assert (Hm : trimStart s = m ++ rev w2).
  { rewrite <- (rev_involutive (trimStart s)), Hr, rev_app_distr. reflexivity. }
  assert (Ht : trim s = trim m).
  { rewrite Hs at 1. rewrite Hm. apply trim_white; [exact H1|].
    rewrite forallb_rev. exact H2. }
  rewrite <- Ht. unfold trim. fold m. reflexivity.
Qed.

(** What [trim] returns starts and ends with a code unit that is no white
    space, unless it is empty. *)
Lemma trim_clean (s : jsstring) :
  startsClean (trim s) = true /\ startsClean (rev (trim s)) = true.
Proof.
  unfold trim. rewrite rev_involutive. split; [|apply trimStart_startsClean].
  pose proof (trimStart_startsClean s) as Hc.
  destruct (trimStart_split (rev (trimStart s))) as (w & Hw & Hr).
  set (t := trimStart (rev (trimStart s))) in *.
  assert (E : trimStart s = rev t ++ rev w).
  { rewrite <- (rev_involutive (trimStart s)), Hr, rev_app_distr. reflexivity. }
  destruct (rev t) as [|c r] eqn:Et; [reflexivity|].
  rewrite E in Hc. exact Hc.
Qed.

Lemma trim_fixed (s : jsstring) :
  startsClean s = true -> startsClean (rev s) = true -> trim s = s.
Proof.
  intros H1 H2. unfold trim.
  rewrite (trimStart_clean s H1), (trimStart_clean (rev s) H2).
  apply rev_involutive.
Qed.

Section Extract.
Context {platform : Platform}.

(** The verdict depends on the input only through the hostname. *)
Lemma analyzeUrl_same_hostname (u u' : jsstring) :
  extractDomain u = extractDomain u' ->
  isSuspicious (analyzeUrl u) = isSuspicious (analyzeUrl u') /\
  riskScore (analyzeUrl u) = riskScore (analyzeUrl u') /\
  reasons (analyzeUrl u) = reasons (analyzeUrl u') /\
  matchedDomain (analyzeUrl u) = matchedDomain (analyzeUrl u').
Proof.
  intros E. destruct (extractDomain u') as [[|c h]|] eqn:E'.
  - unfold analyzeUrl. rewrite E, E'. repeat split; reflexivity.
  - rewrite (analyzeUrl_verdictOn u (c :: h) E) by discriminate.
    rewrite (analyzeUrl_verdictOn u' (c :: h) E') by discriminate.
    unfold verdictOn. cbn [isSuspicious riskScore reasons matchedDomain].
    repeat split; reflexivity.
  - unfold analyzeUrl. rewrite E, E'. repeat split; reflexivity.
Qed.

(** X12. White space in front of the input and behind it changes neither the
    hostname that [extractDomain] yields nor the verdict of [analyzeUrl]. *)
Theorem extractDomain_ignores_white_space (w1 w2 u : jsstring) :
  forallb isWhiteSpace w1 = true -> forallb isWhiteSpace w2 = true ->
  extractDomain (w1 ++ u ++ w2) = extractDomain u /\
  isSuspicious (analyzeUrl (w1 ++ u ++ w2)) = isSuspicious (analyzeUrl u) /\
  riskScore (analyzeUrl (w1 ++ u ++ w2)) = riskScore (analyzeUrl u) /\
  reasons (analyzeUrl (w1 ++ u ++ w2)) = reasons (analyzeUrl u) /\
  matchedDomain (analyzeUrl (w1 ++ u ++ w2)) = matchedDomain (analyzeUrl u).
Proof.
  intros H1 H2.
  assert (E : extractDomain (w1 ++ u ++ w2) = extractDomain u).
  { unfold extractDomain. rewrite trim_white by assumption. reflexivity. }
  split; [exact E|]. apply analyzeUrl_same_hostname, E.
Qed.

Lemma startsWith_app (p s : jsstring) : startsWith (p ++ s) p = true.
Proof.
  induction p as [|c p IH]; [destruct s; reflexivity|].
  cbn [app startsWith]. rewrite N.eqb_refl. exact IH.
Qed.

Lemma trim_https (c : jsstring) :
  trim c = c -> trim (str "https://" ++ c) = str "https://" ++ c.
Proof.
  intros Hc. apply trim_fixed; [reflexivity|].
  rewrite rev_app_distr. destruct (trim_clean c) as [_ Hend]. rewrite Hc in Hend.
  destruct (rev c) as [|x r]; [reflexivity | exact Hend].
Qed.

(** X13. An input that, once trimmed, starts with neither "http://" nor
    "https://" is analysed as the trimmed input with "https://" in front. *)
Theorem missing_scheme_is_https (u : jsstring) :
  startsWith (trim u) (str "http://") = false ->
  startsWith (trim u) (str "https://") = false ->
  extractDomain u = extractDomain (str "https://" ++ trim u) /\
  isSuspicious (analyzeUrl u)
  = isSuspicious (analyzeUrl (str "https://" ++ trim u)) /\
  riskScore (analyzeUrl u) = riskScore (analyzeUrl (str "https://" ++ trim u)) /\
  reasons (analyzeUrl u) = reasons (analyzeUrl (str "https://" ++ trim u)) /\
  matchedDomain (analyzeUrl u)
  = matchedDomain (analyzeUrl (str "https://" ++ trim u)).
Proof.
  intros Hhttp Hhttps.
  assert (E : extractDomain u = extractDomain (str "https://" ++ trim u)).
  { unfold extractDomain at 2. rewrite trim_https by apply trim_idempotent.
    rewrite (startsWith_app (str "https://") (trim u)), andb_false_r.
    unfold extractDomain. rewrite Hhttp, Hhttps. reflexivity. }
  split; [exact E|]. apply analyzeUrl_same_hostname, E.
Qed.
End Extract.

Lemma extractDomain_ignores_white_space_witness :
  forallb isWhiteSpace (str "  ") = true /\
  riskScore (@analyzeUrl samplePlatform
               (str "  " ++ str "https://g00gle.com" ++ [10%N]))
  = riskScore (@analyzeUrl samplePlatform (str "https://g00gle.com")).
Proof.
  split; [reflexivity|].
  apply (@extractDomain_ignores_white_space samplePlatform
           (str "  ") [10%N] (str "https://g00gle.com")); reflexivity.
Defined.

Lemma missing_scheme_is_https_witness :
  startsWith (trim (str "g00gle.com")) (str "https://") = false /\
  @extractDomain samplePlatform (str "g00gle.com")
  = @extractDomain samplePlatform (str "https://" ++ trim (str "g00gle.com")).
Proof.
  split; [reflexivity|].
  apply (@missing_scheme_is_https samplePlatform (str "g00gle.com")); reflexivity.
Defined.

(** ** The service worker and the content script *)

Section BackgroundProperties.
Context {platform : Platform}.

Lemma analyzeUrl_suspicious_score (u : jsstring) :
  isSuspicious (analyzeUrl u) = true -> 60 <= riskScore (analyzeUrl u).
Proof. apply analyzeUrl_verdict_bounds. Qed.

Lemma typosquatStep_fresh (settings : Background.Settings) (u : jsstring) :
  let r := Background.typosquatStep settings u
             (Background.mkResults u None None false 0 []) in
  Background.resultsUrl r = u /\
  Background.malware r = None /\
  Background.resultsIsSuspicious r
  = Background.typosquatCheckEnabled settings && isSuspicious (analyzeUrl u) /\
  Background.resultsRiskScore r
  = (if Background.typosquatCheckEnabled settings && isSuspicious (analyzeUrl u)
     then riskScore (analyzeUrl u) else 0) /\
  Background.resultsReasons r
  = (if Background.typosquatCheckEnabled settings && isSuspicious (analyzeUrl u)
     then reasons (analyzeUrl u) else []).
Proof.
  unfold Background.typosquatStep.
  destruct (Background.typosquatCheckEnabled settings); [|repeat split; reflexivity].
  pose proof (analyzeUrl_score_range u) as Hr.
  destruct (isSuspicious (analyzeUrl u)); cbn; repeat split; try reflexivity.
  lia.
Qed.

(** What the call resolves with, when nothing rejects. *)
Lemma scan_resolved (settings : Background.Settings) (stats stats' : Background.Stats)
    (checkUrl : outcome Background.MalwareResult) (saveStats : outcome unit)
    (u : jsstring) (r : Background.Results) :
  Background.analyzeUrl settings stats checkUrl saveStats u = (stats', Resolved r) ->
  let t := Background.typosquatCheckEnabled settings && isSuspicious (analyzeUrl u) in
  let m := Background.malwareScanEnabled settings && flagged checkUrl in
  Background.resultsUrl r = u /\
  Background.resultsIsSuspicious r = t || m /\
  Background.resultsRiskScore r
  = Z.max (if t then riskScore (analyzeUrl u) else 0) (if m then 90 else 0) /\
  stats' = Background.countScan stats r /\
  Background.resultsReasons r
  = (if t then reasons (analyzeUrl u) else [])
    ++ match checkUrl with
       | Resolved malwareResult =>
           if m then [Background.virusTotalReason malwareResult] else []
       | Rejected _ => []
       end.
Proof.
  unfold Background.analyzeUrl.
  destruct (typosquatStep_fresh settings u) as (Hu & _ & Hs & Hscore & Hreasons).
  set (r0 := Background.typosquatStep settings u _) in *.
  pose proof (analyzeUrl_score_range u) as Hrange.
  destruct (Background.malwareScanEnabled settings).
  - destruct checkUrl as [malwareResult|message]; [|discriminate].
    destruct saveStats as [[]|message]; [|discriminate].
    intros [= <- <-]. cbn [flagged andb].
    unfold Background.malwareStep.
    destruct (Background.success malwareResult && Background.isMalicious malwareResult);
      cbn [Background.resultsUrl Background.resultsIsSuspicious
           Background.resultsRiskScore Background.resultsReasons];
      rewrite ?Hs, ?Hscore, ?Hreasons, ?orb_true_r, ?orb_false_r, ?app_nil_r;
      (split; [exact Hu|]); (split; [reflexivity|]);
      (split; [|split; reflexivity]).
    + reflexivity.
    + destruct (_ && _); lia.
  - destruct saveStats as [[]|message]; [|discriminate].
    intros [= <- <-]. cbn [andb]. rewrite orb_false_r.
    split; [exact Hu|]. split; [exact Hs|].
    split; [rewrite Hscore; destruct (_ && _); lia|].
    split; [reflexivity|].
    rewrite Hreasons. destruct checkUrl; rewrite app_nil_r; reflexivity.
Qed.

(** X14. When [analyzeUrl] of the service worker resolves, its result carries
    the URL; it is suspicious exactly when the typosquat check is on and the
    detector finds the URL suspicious, or the malware check is on and
    VirusTotal flags it; its score is the greater of the detector's score and
    90 for a VirusTotal detection, between 0 and 100, at least 60 when
    suspicious and 0 when not. *)
Theorem background_merged_verdict (settings : Background.Settings)
    (stats stats' : Background.Stats)
    (checkUrl : outcome Background.MalwareResult) (saveStats : outcome unit)
    (u : jsstring) (r : Background.Results) :
  Background.analyzeUrl settings stats checkUrl saveStats u = (stats', Resolved r) ->
  Background.resultsUrl r = u /\
  Background.resultsIsSuspicious r
  = (Background.typosquatCheckEnabled settings && isSuspicious (analyzeUrl u))
    || (Background.malwareScanEnabled settings && flagged checkUrl) /\
  Background.resultsRiskScore r
  = Z.max
      (if Background.typosquatCheckEnabled settings && isSuspicious (analyzeUrl u)
       then riskScore (analyzeUrl u) else 0)
      (if Background.malwareScanEnabled settings && flagged checkUrl
       then 90 else 0) /\
  0 <= Background.resultsRiskScore r <= 100 /\
  (Background.resultsIsSuspicious r = true -> 60 <= Background.resultsRiskScore r) /\
  (Background.resultsIsSuspicious r = false -> Background.resultsRiskScore r = 0).
Proof.
  intros H. destruct (scan_resolved _ _ _ _ _ _ _ H) as (Hu & Hs & Hscore & _ & _).
  split; [exact Hu|]. split; [exact Hs|]. split; [exact Hscore|].
  pose proof (analyzeUrl_score_range u) as Hrange.
  pose proof (analyzeUrl_suspicious_score u) as Hsusp.
  rewrite Hs, Hscore.
  destruct (Background.typosquatCheckEnabled settings);
    destruct (isSuspicious (analyzeUrl u));
    destruct (Background.malwareScanEnabled settings && flagged checkUrl);
    cbn [andb orb]; (split; [lia|]); split; intros; try discriminate;
    try specialize (Hsusp eq_refl); lia.
Qed.

Lemma countScan_urls (stats : Background.Stats) (r : Background.Results) :
  Background.urlsScanned (Background.countScan stats r)
  = Background.urlsScanned stats + 1.
Proof. reflexivity. Qed.

Lemma countScan_threats (stats : Background.Stats) (r : Background.Results) :
  Background.threatsFound (Background.countScan stats r)
  = Background.threatsFound stats
    + (if Background.resultsIsSuspicious r then 1 else 0).
Proof.
  unfold Background.countScan. cbn [Background.threatsFound].
  destruct (Background.resultsIsSuspicious r); lia.
Qed.

Lemma scan_stats (settings : Background.Settings) (stats : Background.Stats)
    (checkUrl : outcome Background.MalwareResult) (saveStats : outcome unit)
    (u : jsstring) :
  let out := Background.analyzeUrl settings stats checkUrl saveStats u in
  Background.urlsScanned (fst out)
  = Background.urlsScanned stats + (if stopsEarly settings checkUrl then 0 else 1) /\
  Background.threatsFound stats <= Background.threatsFound (fst out) /\
  Background.threatsFound (fst out) - Background.threatsFound stats
  <= Background.urlsScanned (fst out) - Background.urlsScanned stats /\
  (forall r, snd out = Resolved r ->
     Background.threatsFound (fst out)
     = Background.threatsFound stats
       + (if Background.resultsIsSuspicious r then 1 else 0)) /\
  (forall message, saveStats = Rejected message ->
     stopsEarly settings checkUrl = false -> snd out = Rejected message).
Proof.
  unfold Background.analyzeUrl, stopsEarly.
  set (r0 := Background.typosquatStep settings u _).
  destruct (Background.malwareScanEnabled settings); cbn [andb];
    [destruct checkUrl as [malwareResult|message]|];
    try destruct saveStats as [[]|message']; cbn [fst snd];
    rewrite ?countScan_urls, ?countScan_threats;
    (split; [lia|]); (split; [try destruct (Background.resultsIsSuspicious _); lia|]);
    (split; [try destruct (Background.resultsIsSuspicious _); lia|]);
    (split; [intros r; try discriminate; intros [= <-]; reflexivity|]);
    intros m; try discriminate; intros [= <-] _; reflexivity.
Qed.

(** X15. [analyzeUrl] of the service worker counts the scan exactly when it
    gets past the malware check, also when saving the statistics then fails;
    it never lowers [threatsFound], raises it by one exactly for a suspicious
    result, and never by more than it raises [urlsScanned]. *)
Theorem background_counts_every_completed_scan
    (settings : Background.Settings) (stats : Background.Stats)
    (checkUrl : outcome Background.MalwareResult) (saveStats : outcome unit)
    (u : jsstring) :
  Background.urlsScanned
    (fst (Background.analyzeUrl settings stats checkUrl saveStats u))
  = Background.urlsScanned stats + (if stopsEarly settings checkUrl then 0 else 1) /\
  Background.threatsFound stats
  <= Background.threatsFound
       (fst (Background.analyzeUrl settings stats checkUrl saveStats u)) /\
  Background.threatsFound
    (fst (Background.analyzeUrl settings stats checkUrl saveStats u))
  - Background.threatsFound stats
  <= Background.urlsScanned
       (fst (Background.analyzeUrl settings stats checkUrl saveStats u))
     - Background.urlsScanned stats /\
  (forall r,
     snd (Background.analyzeUrl settings stats checkUrl saveStats u) = Resolved r ->
     Background.threatsFound
       (fst (Background.analyzeUrl settings stats checkUrl saveStats u))
     = Background.threatsFound stats
       + (if Background.resultsIsSuspicious r then 1 else 0)) /\
  (forall message, saveStats = Rejected message ->
     stopsEarly settings checkUrl = false ->
     snd (Background.analyzeUrl settings stats checkUrl saveStats u)
     = Rejected message).
Proof. apply scan_stats. Qed.

Lemma analyzeUrls_cons (settings : Background.Settings) (stats : Background.Stats)
    (u : jsstring) (checkUrl : outcome Background.MalwareResult)
    (saveStats : outcome unit)
    (rest : list (jsstring * outcome Background.MalwareResult * outcome unit)) :
  let out := Background.analyzeUrl settings stats checkUrl saveStats u in
  let outs := Background.analyzeUrls settings (fst out) rest in
  Background.analyzeUrls settings stats ((u, checkUrl, saveStats) :: rest)
  = (fst outs,
     match snd out with
     | Resolved results => Background.Analyzed results
     | Rejected message => Background.Failed u message
     end :: snd outs).
Proof.
  cbn [Background.analyzeUrls].
  destruct (Background.analyzeUrl settings stats checkUrl saveStats u) as [st out].
  cbn [fst snd]. destruct (Background.analyzeUrls settings st rest). reflexivity.
Qed.

Lemma scan_url (settings : Background.Settings) (stats : Background.Stats)
    (checkUrl : outcome Background.MalwareResult) (saveStats : outcome unit)
    (u : jsstring) (r : Background.Results) :
  snd (Background.analyzeUrl settings stats checkUrl saveStats u) = Resolved r ->
  Background.resultsUrl r = u.
Proof.
  destruct (Background.analyzeUrl settings stats checkUrl saveStats u)
    as [st out] eqn:E. cbn [snd]. intros ->.
  apply (scan_resolved _ _ _ _ _ _ _ E).
Qed.

Lemma analyzeUrls_batch (settings : Background.Settings)
    (urls : list (jsstring * outcome Background.MalwareResult * outcome unit)) :
  forall stats,
    let out := Background.analyzeUrls settings stats urls in
    map Background.entryUrl (snd out) = map (fun item => fst (fst item)) urls /\
    Background.urlsScanned (fst out)
    = Background.urlsScanned stats
      + Z.of_nat
          (length (List.filter
                     (fun item => negb (stopsEarly settings (snd (fst item))))
                     urls)) /\
    Background.threatsFound stats <= Background.threatsFound (fst out) /\
    Background.threatsFound (fst out) - Background.threatsFound stats
    <= Background.urlsScanned (fst out) - Background.urlsScanned stats /\
    Z.of_nat (length (List.filter Background.entryIsSuspicious (snd out)))
    <= Background.threatsFound (fst out) - Background.threatsFound stats.
Proof.
  induction urls as [|[[u checkUrl] saveStats] rest IH]; intros stats.
  - cbn. repeat split; lia.
  - cbv zeta. rewrite analyzeUrls_cons. cbv zeta. cbn [fst snd map List.filter].
    pose proof (scan_stats settings stats checkUrl saveStats u) as Hs.
    cbv zeta in Hs. destruct Hs as (Hn & Hlo & Hle & Hres & _).
    pose proof (scan_url settings stats checkUrl saveStats u) as Hurl.
    destruct (Background.analyzeUrl settings stats checkUrl saveStats u)
      as [st out]. cbn [fst snd] in *.
    specialize (IH st). cbv zeta in IH. destruct IH as (IHu & IHn & IHlo & IHle & IHs).
    split; [|split; [|split; [|split]]].
    + f_equal; [|exact IHu].
      destruct out as [r|m]; [apply Hurl; reflexivity|reflexivity].
    + rewrite IHn, Hn. destruct (stopsEarly settings checkUrl);
        cbn [negb length]; lia.
    + lia.
    + lia.
    + destruct out as [r|m]; cbn [Background.entryIsSuspicious].
      * specialize (Hres r eq_refl).
        destruct (Background.resultsIsSuspicious r); cbn [length]; lia.
      * lia.
Qed.

(** X16. [analyzeUrls] never rejects and returns one entry per URL, in the
    order of the URLs and each with its URL.  It counts every URL whose scan
    got past the malware check, finds no more threats than it counts scans,
    and the entries it reports as suspicious are no more than the threats it
    counted. *)
Theorem background_batch_aligned (settings : Background.Settings)
    (stats : Background.Stats)
    (urls : list (jsstring * outcome Background.MalwareResult * outcome unit)) :
  map Background.entryUrl (snd (Background.analyzeUrls settings stats urls))
  = map (fun item => fst (fst item)) urls /\
  Background.urlsScanned (fst (Background.analyzeUrls settings stats urls))
  = Background.urlsScanned stats
    + Z.of_nat
        (length (List.filter
                   (fun item => negb (stopsEarly settings (snd (fst item))))
                   urls)) /\
  Background.threatsFound stats
  <= Background.threatsFound (fst (Background.analyzeUrls settings stats urls)) /\
  Background.threatsFound (fst (Background.analyzeUrls settings stats urls))
  - Background.threatsFound stats
  <= Background.urlsScanned (fst (Background.analyzeUrls settings stats urls))
     - Background.urlsScanned stats /\
  Z.of_nat
    (length (List.filter Background.entryIsSuspicious
               (snd (Background.analyzeUrls settings stats urls))))
  <= Background.threatsFound (fst (Background.analyzeUrls settings stats urls))
     - Background.threatsFound stats.
Proof. apply analyzeUrls_batch. Qed.

(** X27. The style that the content script chooses for the result of the
    service worker: a URL that VirusTotal flags, with the malware check
    enabled, gets a suspicious result in the red style; a suspicious result
    gets the amber style only when VirusTotal did not flag the URL and the
    only signal of the detector is that the base label contains a brand,
    and that reason is then the tooltip. *)
Theorem highlight_style_of_verdict (settings : Background.Settings)
    (stats stats' : Background.Stats)
    (checkUrl : outcome Background.MalwareResult) (saveStats : outcome unit)
    (u : jsstring) (r : Background.Results) :
  Background.analyzeUrl settings stats checkUrl saveStats u = (stats', Resolved r) ->
  (Background.malwareScanEnabled settings && flagged checkUrl = true ->
   Background.resultsIsSuspicious r = true /\
   Content.highlightStyleOf r = Content.suspicious) /\
  (Background.resultsIsSuspicious r = true ->
   Content.highlightStyleOf r = Content.warning ->
   Background.malwareScanEnabled settings && flagged checkUrl = false /\
   Background.typosquatCheckEnabled settings = true /\
   exists known,
     In known knownDomains /\
     reasons (analyzeUrl u) = [containsReason known] /\
     Content.tooltipTextOf r = containsReason known).
Proof.
  intros H.
  destruct (scan_resolved _ _ _ _ _ _ _ H) as (_ & Hs & Hscore & _ & Hreasons).
  cbv zeta in *.
  pose proof (analyzeUrl_score_range u) as Hrange.
  pose proof (analyzeUrl_suspicious_score u) as Hsusp.
  pose proof (score_60_is_containment u) as H60.
  unfold Content.highlightStyleOf, Content.tooltipTextOf.
  rewrite Hs, Hscore, Hreasons.
  remember (Background.typosquatCheckEnabled settings
            && isSuspicious (analyzeUrl u)) as t eqn:Et.
  remember (Background.malwareScanEnabled settings && flagged checkUrl)
    as m eqn:Em.
  split.
  - intros ->. rewrite orb_true_r. split; [reflexivity|].
    destruct t;
      match goal with
      | |- context [?x >=? 70] => destruct (Z.geb_spec x 70) as [_|Hlt]
      end; try reflexivity; lia.
  - destruct m.
    { intros _.
      destruct (Z.geb_spec
                  (Z.max (if t then riskScore (analyzeUrl u) else 0) 90) 70)
        as [_|Hlt]; [discriminate | lia]. }
    destruct t; cbn [orb]; [|discriminate].
    symmetry in Et. apply andb_true_iff in Et. destruct Et as [Hon Es].
    specialize (Hsusp Es). intros _.
    destruct (Z.geb_spec (Z.max (riskScore (analyzeUrl u)) 0) 70) as [_|Hlt];
      [discriminate|].
    assert (E60 : riskScore (analyzeUrl u) = 60).
    { pose proof (analyzeUrl_score_values u) as Hv. cbn [In] in Hv.
      destruct Hv as [E|[E|[E|[E|[E|[E|[]]]]]]]; lia. }
    destruct (H60 E60) as (known & Hin & Hrs & _).
    intros _. split; [reflexivity|]. split; [exact Hon|].
    exists known. split; [exact Hin|]. split; [exact Hrs|].
    rewrite Hrs. destruct checkUrl; reflexivity.
Qed.
End BackgroundProperties.

Lemma background_merged_verdict_witness :
  exists stats' r,
    @Background.analyzeUrl samplePlatform
      (Background.mkSettings true true) (Background.mkStats 0 0)
      (Resolved (Background.mkMalwareResult true true 3 70)) (Resolved tt)
      (str "https://unrelated-news-site.com")
    = (stats', Resolved r) /\
    Background.resultsRiskScore r = Z.max 0 90.
Proof.
  eexists. eexists.
  assert (H : @Background.analyzeUrl samplePlatform
                (Background.mkSettings true true) (Background.mkStats 0 0)
                (Resolved (Background.mkMalwareResult true true 3 70))
                (Resolved tt) (str "https://unrelated-news-site.com")
              = (_, Resolved _)) by (vm_compute; reflexivity).
  split; [exact H|].
  apply (@background_merged_verdict samplePlatform _ _ _ _ _ _ _ H).
Defined.

Lemma highlight_style_of_verdict_witness :
  exists stats' r,
    @Background.analyzeUrl samplePlatform
      (Background.mkSettings true true) (Background.mkStats 0 0)
      (Resolved (Background.mkMalwareResult true true 3 70)) (Resolved tt)
      (str "https://paypal-login.com")
    = (stats', Resolved r) /\
    Background.resultsIsSuspicious r = true /\
    Content.highlightStyleOf r = Content.suspicious.
Proof.
  eexists. eexists.
  assert (H : @Background.analyzeUrl samplePlatform
                (Background.mkSettings true true) (Background.mkStats 0 0)
                (Resolved (Background.mkMalwareResult true true 3 70))
                (Resolved tt) (str "https://paypal-login.com")
              = (_, Resolved _)) by (vm_compute; reflexivity).
  split; [exact H|].
  apply (@highlight_style_of_verdict samplePlatform _ _ _ _ _ _ _ H).
  reflexivity.
Defined.

(** ** The VirusTotal client: cache, rate limit and [checkUrl] *)

Lemma getCached_after_setCache (cache : gmap jsstring VirusTotal.CacheEntry)
    (u : jsstring) (d : VirusTotal.Report) (t t' : Z) :
  VirusTotal.getCached t' u (VirusTotal.setCache t u d cache)
  = if t' - t <? VirusTotal.CACHE_TTL
    then (Some d, VirusTotal.setCache t u d cache)
    else (None, delete u cache).
Proof.
  unfold VirusTotal.getCached, VirusTotal.setCache.
  rewrite lookup_insert_eq. cbn [VirusTotal.timestamp VirusTotal.data].
  destruct (t' - t <? VirusTotal.CACHE_TTL); [reflexivity|].
  rewrite delete_insert_eq. reflexivity.
Qed.

Lemma getCached_miss (cache : gmap jsstring VirusTotal.CacheEntry)
    (u : jsstring) (now : Z) :
  fst (VirusTotal.getCached now u cache) = None ->
  snd (VirusTotal.getCached now u cache) = delete u cache.
Proof.
  unfold VirusTotal.getCached. destruct (cache !! u) as [cached|]; [|reflexivity].
  destruct (_ <? _); [discriminate | reflexivity].
Qed.

Lemma getCached_hit (cache : gmap jsstring VirusTotal.CacheEntry)
    (u : jsstring) (now : Z) (d : VirusTotal.Report) :
  fst (VirusTotal.getCached now u cache) = Some d ->
  snd (VirusTotal.getCached now u cache) = cache /\
  exists t, cache !! u = Some (VirusTotal.mkCacheEntry d t)
            /\ now - t < VirusTotal.CACHE_TTL.
Proof.
  unfold VirusTotal.getCached. destruct (cache !! u) as [[d0 t]|]; [|discriminate].
  cbn [VirusTotal.timestamp VirusTotal.data].
  destruct (Z.ltb_spec (now - t) VirusTotal.CACHE_TTL); [|discriminate].
  intros [= ->]. split; [reflexivity|]. exists t. split; [reflexivity | assumption].
Qed.

Lemma getCached_other (cache : gmap jsstring VirusTotal.CacheEntry)
    (u u' : jsstring) (now : Z) :
  u <> u' -> snd (VirusTotal.getCached now u cache) !! u' = cache !! u'.
Proof.
  intros Hne. unfold VirusTotal.getCached. destruct (cache !! u) as [cached|].
  - destruct (_ <? _); [reflexivity|]. apply lookup_delete_ne. exact Hne.
  - apply lookup_delete_ne. exact Hne.
Qed.

(** X18. A report that [setCache] stored at time [t] is what [getCached]
    returns for its URL while less than [CACHE_TTL] = 3600000 ms have
    passed, and [null] from then on; a stale lookup deletes the entry, so
    that no later lookup finds it, whatever the clock says; neither
    function touches the entries of other URLs; and after [clearCache]
    every lookup misses. *)
Theorem cache_hit_within_ttl (cache : gmap jsstring VirusTotal.CacheEntry)
    (u : jsstring) (d : VirusTotal.Report) (t t' : Z) :
  fst (VirusTotal.getCached t' u (VirusTotal.setCache t u d cache))
  = (if t' - t <? 3600000 then Some d else None) /\
  (3600000 <= t' - t ->
   forall t'',
     fst (VirusTotal.getCached t'' u
            (snd (VirusTotal.getCached t' u
                    (VirusTotal.setCache t u d cache)))) = None) /\
  (forall u', u <> u' ->
     VirusTotal.setCache t u d cache !! u' = cache !! u' /\
     snd (VirusTotal.getCached t' u cache) !! u' = cache !! u') /\
  (forall now, fst (VirusTotal.getCached now u (VirusTotal.clearCache cache)) = None).
Proof.
  rewrite getCached_after_setCache. change VirusTotal.CACHE_TTL with 3600000.
  split; [destruct (_ <? _); reflexivity|]. split; [|split].
  - intros Hold t''. destruct (Z.ltb_spec (t' - t) 3600000); [lia|].
    cbn [snd]. unfold VirusTotal.getCached. rewrite lookup_delete_eq. reflexivity.
  - intros u' Hne. split; [apply lookup_insert_ne, Hne | apply getCached_other, Hne].
  - intros now. unfold VirusTotal.getCached, VirusTotal.clearCache.
    rewrite lookup_empty. reflexivity.
Qed.



Section CheckUrlProperties.
Variable calculateRiskLevel : option Z -> option Z -> jsstring.

(** What [request] leaves and returns. *)
Lemma request_cases (w : VirusTotal.World) (u : jsstring) (st : VirusTotal.State) :
  let out := VirusTotal.request calculateRiskLevel w u st in
  VirusTotal.lastRequestTime (fst out) = VirusTotal.nowAtRequest w /\
  match snd out with
  | VirusTotal.Fresh r =>
      VirusTotal.cache (fst out)
      = VirusTotal.setCache (VirusTotal.nowAtStore w) u r (VirusTotal.cache st) /\
      exists d, VirusTotal.json w = Resolved d /\
                r = VirusTotal.buildReport calculateRiskLevel d
  | VirusTotal.FromCache _ | VirusTotal.NoApiKey => False
  | _ => VirusTotal.cache (fst out) = VirusTotal.cache st
  end.
Proof.
  unfold VirusTotal.request, VirusTotal.waitForRateLimit. cbn [snd].
  destruct (VirusTotal.fetched w) as [response|message];
    [|cbn; split; reflexivity].
  destruct (VirusTotal.status response =? 204); [cbn; split; reflexivity|].
  destruct (VirusTotal.status response =? 403); [cbn; split; reflexivity|].
  destruct (VirusTotal.status response =? 429); [cbn; split; reflexivity|].
  destruct (negb (VirusTotal.ok response)); [cbn; split; reflexivity|].
  destruct (VirusTotal.json w) as [d|message]; [|cbn; split; reflexivity].
  cbn [fst snd VirusTotal.lastRequestTime VirusTotal.cache].
  split; [reflexivity|]. split; [reflexivity|]. exists d. split; reflexivity.
Qed.

Lemma checkUrl_hit (w : VirusTotal.World) (u : jsstring) (st : VirusTotal.State)
    (r : VirusTotal.Report) :
  fst (VirusTotal.getCached (VirusTotal.nowAtLookup w) u (VirusTotal.cache st))
  = Some r ->
  VirusTotal.checkUrl calculateRiskLevel w u st
  = (st, Resolved (VirusTotal.FromCache r)).
Proof.
  intros H. unfold VirusTotal.checkUrl.
  destruct (getCached_hit _ _ _ _ H) as [Hc _].
  destruct (VirusTotal.getCached _ u (VirusTotal.cache st)) as [cached cache'].
  cbn [fst snd] in *. subst. destruct st. reflexivity.
Qed.

Lemma checkUrl_miss (w : VirusTotal.World) (u : jsstring) (st : VirusTotal.State) :
  fst (VirusTotal.getCached (VirusTotal.nowAtLookup w) u (VirusTotal.cache st))
  = None ->
  let st0 := VirusTotal.mkState (delete u (VirusTotal.cache st))
               (VirusTotal.lastRequestTime st) in
  VirusTotal.checkUrl calculateRiskLevel w u st
  = match VirusTotal.storedApiKey w with
    | Rejected message => (st0, Rejected message)
    | Resolved apiKey =>
        if truthy apiKey then
          (fst (VirusTotal.request calculateRiskLevel w u st0),
           Resolved (snd (VirusTotal.request calculateRiskLevel w u st0)))
        else (st0, Resolved VirusTotal.NoApiKey)
    end.
Proof.
  intros H. unfold VirusTotal.checkUrl.
  pose proof (getCached_miss _ _ _ H) as Hc.
  destruct (VirusTotal.getCached _ u (VirusTotal.cache st)) as [cached cache'].
  cbn [fst snd] in *. subst.
  destruct (VirusTotal.storedApiKey w) as [apiKey|message]; [|reflexivity].
  destruct (truthy apiKey); [|reflexivity].
  destruct (VirusTotal.request _ _ _ _); reflexivity.
Qed.

Lemma checkUrl_facts (w : VirusTotal.World) (u : jsstring)
    (st : VirusTotal.State) :
  let st' := fst (VirusTotal.checkUrl calculateRiskLevel w u st) in
  let out := snd (VirusTotal.checkUrl calculateRiskLevel w u st) in
  (forall message, out = Rejected message ->
     VirusTotal.storedApiKey w = Rejected message) /\
  (forall r, out = Resolved (VirusTotal.FromCache r) ->
     st' = st /\
     exists t, VirusTotal.cache st !! u = Some (VirusTotal.mkCacheEntry r t) /\
               VirusTotal.nowAtLookup w - t < 3600000) /\
  (forall r, out = Resolved (VirusTotal.Fresh r) ->
     VirusTotal.cache st' !! u
     = Some (VirusTotal.mkCacheEntry r (VirusTotal.nowAtStore w)) /\
     VirusTotal.lastRequestTime st' = VirusTotal.nowAtRequest w /\
     VirusTotal.isMalicious r = (0 <? VirusTotal.positives r)) /\
  (match out with
   | Resolved c => reportOf c = None
   | Rejected _ => True
   end -> VirusTotal.cache st' !! u = None) /\
  (forall u', u <> u' -> VirusTotal.cache st' !! u' = VirusTotal.cache st !! u') /\
  (VirusTotal.lastRequestTime st' = VirusTotal.lastRequestTime st \/
   VirusTotal.lastRequestTime st' = VirusTotal.nowAtRequest w).
Proof.
  cbv zeta.
  destruct (fst (VirusTotal.getCached (VirusTotal.nowAtLookup w) u
                   (VirusTotal.cache st))) as [r0|] eqn:Hc.
  - rewrite (checkUrl_hit w u st r0 Hc). cbn [fst snd].
    destruct (getCached_hit _ _ _ _ Hc) as [_ Ht].
    split; [discriminate|]. split; [intros r [= <-]; auto|].
    split; [discriminate|]. split; [discriminate|]. split; [reflexivity|].
    left. reflexivity.
  - rewrite (checkUrl_miss w u st Hc). cbv zeta.
    set (st0 := VirusTotal.mkState _ _).
    destruct (VirusTotal.storedApiKey w) as [apiKey|message].
    + destruct (truthy apiKey).
      * pose proof (request_cases w u st0) as Hr. cbv zeta in Hr.
        destruct (VirusTotal.request calculateRiskLevel w u st0) as [st1 c].
        cbn [fst snd] in *. destruct Hr as [Hlast Hcache].
        split; [discriminate|].
        split; [intros r [= ->]; exfalso; exact Hcache|].
        split.
        { intros r [= ->]. destruct Hcache as [Hcache (d & _ & ->)].
          rewrite Hcache. unfold VirusTotal.setCache. rewrite lookup_insert_eq.
          split; [reflexivity|]. split; [exact Hlast|]. reflexivity. }
        split.
        { destruct c; cbn [reportOf]; try discriminate;
            try (exfalso; exact Hcache);
            intros _; rewrite Hcache; apply lookup_delete_eq. }
        split; [|right; exact Hlast].
        intros u' Hne.
        assert (Hu : VirusTotal.cache st1 !! u' = VirusTotal.cache st0 !! u').
        { destruct c; try (exfalso; exact Hcache);
            try (rewrite Hcache; reflexivity).
          destruct Hcache as [-> _]. apply lookup_insert_ne, Hne. }
        rewrite Hu. apply lookup_delete_ne, Hne.
      * cbn [fst snd]. split; [discriminate|]. split; [discriminate|].
        split; [discriminate|]. split; [intros _; apply lookup_delete_eq|].
        split; [intros u' Hne; apply lookup_delete_ne, Hne | left; reflexivity].
    + cbn [fst snd]. split; [intros m [= ->]; reflexivity|].
      split; [discriminate|]. split; [discriminate|].
      split; [intros _; apply lookup_delete_eq|].
      split; [intros u' Hne; apply lookup_delete_ne, Hne | left; reflexivity].
Qed.


(** X21. A URL that [checkUrl] has just fetched a report for is answered
    from the cache, with that report and without any change of the client's
    state, by a second call whose lookup comes less than 3600000 ms after the
    report was stored: whatever the API key, the network and the API would
    do then. *)
Theorem cached_report_needs_no_request (w w' : VirusTotal.World) (u : jsstring)
    (st : VirusTotal.State) (r : VirusTotal.Report) :
  snd (VirusTotal.checkUrl calculateRiskLevel w u st)
  = Resolved (VirusTotal.Fresh r) ->
  VirusTotal.nowAtLookup w' - VirusTotal.nowAtStore w < 3600000 ->
  VirusTotal.checkUrl calculateRiskLevel w' u
    (fst (VirusTotal.checkUrl calculateRiskLevel w u st))
  = (fst (VirusTotal.checkUrl calculateRiskLevel w u st),
     Resolved (VirusTotal.FromCache r)).
Proof.
  intros Hfresh Hage.
  destruct (checkUrl_facts w u st) as (_ & _ & Hf & _).
  cbv zeta in Hf. destruct (Hf r Hfresh) as (Hentry & _ & _).
  apply checkUrl_hit. unfold VirusTotal.getCached. rewrite Hentry.
  cbn [VirusTotal.timestamp VirusTotal.data].
  destruct (Z.ltb_spec (VirusTotal.nowAtLookup w' - VirusTotal.nowAtStore w)
              VirusTotal.CACHE_TTL) as [_|Hge]; [reflexivity|].
  unfold VirusTotal.CACHE_TTL in Hge. lia.
Qed.

Lemma flagged_asMalwareResult (c : VirusTotal.CheckResult) :
  flagged (Resolved (VirusTotal.asMalwareResult c)) = true <->
  exists r, reportOf c = Some r /\ VirusTotal.isMalicious r = true.
Proof.
  destruct c; cbn; split; try discriminate;
    try (intros (r & [=] & _); fail);
    try (intros H; eexists; split; [reflexivity | exact H]);
    intros (r & [= <-] & H); exact H.
Qed.

Lemma checkUrl_cacheConsistent (w : VirusTotal.World) (u : jsstring)
    (st : VirusTotal.State) :
  cacheConsistent st ->
  cacheConsistent (fst (VirusTotal.checkUrl calculateRiskLevel w u st)).
Proof.
  intros Hst u' e.
  destruct (checkUrl_facts w u st) as (_ & _ & Hfresh & Hnone & Hother & _).
  cbv zeta in *.
  destruct (decide (u = u')) as [<-|Hne]; [|rewrite (Hother u' Hne); apply Hst].
  destruct (snd (VirusTotal.checkUrl calculateRiskLevel w u st)) as [c|m] eqn:Eo.
  - destruct (reportOf c) as [r|] eqn:Er.
    + destruct c; try discriminate Er.
      * destruct (checkUrl_facts w u st) as (_ & Hhit & _). cbv zeta in Hhit.
        rewrite Eo in Hhit. destruct (Hhit _ eq_refl) as [-> _]. apply Hst.
      * destruct (Hfresh _ eq_refl) as (-> & _ & Hm). intros [= <-]. exact Hm.
    + rewrite (Hnone eq_refl). discriminate.
  - rewrite (Hnone I). discriminate.
Qed.

Lemma checkUrl_flag (w : VirusTotal.World) (u : jsstring) (st : VirusTotal.State) :
  cacheConsistent st ->
  flagged (malwareOutcome (snd (VirusTotal.checkUrl calculateRiskLevel w u st)))
  = true <->
  exists c r,
    snd (VirusTotal.checkUrl calculateRiskLevel w u st) = Resolved c /\
    reportOf c = Some r /\ 0 < VirusTotal.positives r.
Proof.
  intros Hst.
  destruct (checkUrl_facts w u st) as (_ & Hhit & Hfresh & _). cbv zeta in *.
  destruct (snd (VirusTotal.checkUrl calculateRiskLevel w u st)) as [c|m];
    cbn [malwareOutcome].
  - rewrite flagged_asMalwareResult.
    assert (Hm : forall r, reportOf c = Some r ->
              VirusTotal.isMalicious r = (0 <? VirusTotal.positives r)).
    { intros r Er. destruct c; try discriminate Er; injection Er as <-.
      - destruct (Hhit _ eq_refl) as (_ & t & Hentry & _).
        apply (Hst u _ Hentry).
      - apply (Hfresh _ eq_refl). }
    split.
    + intros (r & Er & Hr). exists c, r. split; [reflexivity|]. split; [exact Er|].
      rewrite (Hm r Er) in Hr. apply Z.ltb_lt, Hr.
    + intros (c' & r & [= <-] & Er & Hr). exists r. split; [exact Er|].
      rewrite (Hm r Er). apply Z.ltb_lt, Hr.
  - cbn. split; [discriminate|]. intros (c & r & [=] & _).
Qed.

Lemma after_snoc (calls : list (VirusTotal.World * jsstring))
    (w : VirusTotal.World) (u : jsstring) :
  VirusTotal.after calculateRiskLevel (calls ++ [(w, u)])
  = fst (VirusTotal.checkUrl calculateRiskLevel w u
           (VirusTotal.after calculateRiskLevel calls)).
Proof. unfold VirusTotal.after. rewrite fold_left_app. reflexivity. Qed.

Lemma after_cacheConsistent (calls : list (VirusTotal.World * jsstring)) :
  cacheConsistent (VirusTotal.after calculateRiskLevel calls).
Proof.
  induction calls as [|[w u] calls IH] using rev_ind.
  - intros u e. unfold VirusTotal.after, VirusTotal.initial.
    cbn [fold_left VirusTotal.cache]. rewrite lookup_empty. discriminate.
  - rewrite after_snoc. apply checkUrl_cacheConsistent, IH.
Qed.

(** X22. Whatever calls of [checkUrl] came before, from the loading of the
    script on, the service worker sees a URL flagged as malware (a result
    with truthy [success] and [isMalicious]) exactly when [checkUrl]
    resolves with a report, fresh or from the cache, that counts at least
    one detection. *)
Theorem malware_flag_iff_detections
    (calls : list (VirusTotal.World * jsstring))
    (w : VirusTotal.World) (u : jsstring) :
  flagged (malwareOutcome
             (snd (VirusTotal.checkUrl calculateRiskLevel w u
                     (VirusTotal.after calculateRiskLevel calls))))
  = true <->
  exists c r,
    snd (VirusTotal.checkUrl calculateRiskLevel w u
           (VirusTotal.after calculateRiskLevel calls)) = Resolved c /\
    reportOf c = Some r /\ 0 < VirusTotal.positives r.
Proof. apply checkUrl_flag, after_cacheConsistent. Qed.

End CheckUrlProperties.


(** The report of X21 on a first call that fetches a report with three
    detections and a second call, half an hour later, in a world where
    everything fails. *)
Lemma cached_report_needs_no_request_witness :
  let risk := fun _ _ : option Z => str "low" in
  let w :=
    VirusTotal.mkWorld 1000 (Resolved (Some (str "key"))) 1000 15000
      (Resolved (VirusTotal.mkResponse 200 true))
      (Resolved (VirusTotal.mkReportData (Some 1) (Some 3) (Some 70) None None))
      15200 in
  let w' :=
    VirusTotal.mkWorld 1815200 (Rejected (str "no storage")) 0 0
      (Rejected []) (Rejected []) 0 in
  let u := str "http://example.test/" in
  let r := VirusTotal.mkReport true 3 70 None None true (str "low") in
  VirusTotal.checkUrl risk w' u
    (fst (VirusTotal.checkUrl risk w u VirusTotal.initial))
  = (fst (VirusTotal.checkUrl risk w u VirusTotal.initial),
     Resolved (VirusTotal.FromCache r)).
Proof.
  cbv zeta.
  apply (cached_report_needs_no_request (fun _ _ => str "low")).
  - vm_compute. reflexivity.
  - vm_compute. reflexivity.
Defined.

(** ** The mock authentication: the email pattern and the session *)

Section RegexProperties.
Import Regex.


Lemma Lang_Seq_inv (r1 r2 : regex) (s : jsstring) :
  Lang (Seq r1 r2) s ->
  exists s1 s2, s = s1 ++ s2 /\ Lang r1 s1 /\ Lang r2 s2.
Proof. inversion 1; subst. eauto. Qed.

Lemma Lang_Alt_inv (r1 r2 : regex) (s : jsstring) :
  Lang (Alt r1 r2) s -> Lang r1 s \/ Lang r2 s.
Proof. inversion 1; subst; auto. Qed.

Lemma Lang_Class_inv (p : codeUnit -> bool) (s : jsstring) :
  Lang (Class p) s -> exists c, s = [c] /\ p c = true.
Proof. inversion 1; subst. eauto. Qed.

Lemma Lang_Void_inv (s : jsstring) : ~ Lang Void s.
Proof. inversion 1. Qed.

Lemma Lang_Eps_inv (s : jsstring) : Lang Eps s -> s = [].
Proof. inversion 1. reflexivity. Qed.

Lemma nullable_Lang (r : regex) : nullable r = true <-> Lang r [].
Proof.
  induction r as [| |p|r1 IH1 r2 IH2|r1 IH1 r2 IH2|r IH]; simpl.
  - split; [discriminate | intros H; destruct (Lang_Void_inv _ H)].
  - split; [constructor | reflexivity].
  - split; [discriminate|]. intros H. apply Lang_Class_inv in H.
    destruct H as (c & E & _). discriminate E.
  - rewrite andb_true_iff, IH1, IH2. split.
    + intros [H1 H2]. apply (LangSeq _ _ [] []); assumption.
    + intros H. apply Lang_Seq_inv in H. destruct H as (s1 & s2 & E & H1 & H2).
      symmetry in E. apply app_eq_nil in E. destruct E as [-> ->]. split; assumption.
  - rewrite orb_true_iff, IH1, IH2. split.
    + intros [H|H]; [apply LangAltL | apply LangAltR]; assumption.
    + apply Lang_Alt_inv.
  - split; [constructor | reflexivity].
Qed.

(** A non-empty string of [Star r] starts with a non-empty string of [r]. *)
Lemma Lang_Star_cons (r : regex) (c : codeUnit) (s : jsstring) :
  Lang (Star r) (c :: s) ->
  exists s1 s2, s = s1 ++ s2 /\ Lang r (c :: s1) /\ Lang (Star r) s2.
Proof.
  intros H. remember (Star r) as r' eqn:Er. remember (c :: s) as t eqn:Et.
  revert s Et. induction H as [| | | | | |r0 s1 s2 H1 _ H2 IH2]; intros t' Et;
    try discriminate.
  injection Er as ->.
  destruct s1 as [|c1 s1].
  - apply IH2; [reflexivity | exact Et].
  - injection Et as -> <-. exists s1, s2. auto.
Qed.

Lemma Lang_Seq_cons (r1 r2 : regex) (c : codeUnit) (s : jsstring) :
  Lang (Seq r1 r2) (c :: s) <->
  (exists s1 s2, s = s1 ++ s2 /\ Lang r1 (c :: s1) /\ Lang r2 s2)
  \/ (Lang r1 [] /\ Lang r2 (c :: s)).
Proof.
  split.
  - intros H. apply Lang_Seq_inv in H. destruct H as (s1 & s2 & E & H1 & H2).
    destruct s1 as [|c1 s1].
    + right. simpl in E. subst. auto.
    + left. injection E as -> ->. exists s1, s2. auto.
  - intros [(s1 & s2 & -> & H1 & H2)|[H1 H2]].
    + apply (LangSeq _ _ (c :: s1) s2); assumption.
    + apply (LangSeq _ _ [] (c :: s)); assumption.
Qed.

Lemma derive_Lang (r : regex) (c : codeUnit) (s : jsstring) :
  Lang (derive c r) s <-> Lang r (c :: s).
Proof.
  revert s. induction r as [| |p|r1 IH1 r2 IH2|r1 IH1 r2 IH2|r IH]; intros s; simpl.
  - split; intros H; destruct (Lang_Void_inv _ H).
  - split; intros H; [destruct (Lang_Void_inv _ H)|].
    apply Lang_Eps_inv in H. discriminate H.
  - destruct (p c) eqn:Ep; split; intros H.
    + apply Lang_Eps_inv in H. subst. constructor. exact Ep.
    + apply Lang_Class_inv in H. destruct H as (c' & [= -> ->] & _). constructor.
    + destruct (Lang_Void_inv _ H).
    + apply Lang_Class_inv in H. destruct H as (c' & [= -> ->] & H). congruence.
  - assert (Hseq : Lang (Seq (derive c r1) r2) s <->
                   exists s1 s2, s = s1 ++ s2 /\ Lang r1 (c :: s1) /\ Lang r2 s2).
    { split.
      - intros H. apply Lang_Seq_inv in H. destruct H as (s1 & s2 & -> & H1 & H2).
        exists s1, s2. rewrite <- IH1. auto.
      - intros (s1 & s2 & -> & H1 & H2). constructor; [apply IH1|]; assumption. }
    rewrite Lang_Seq_cons. destruct (nullable r1) eqn:En.
    + split.
      * intros H. apply Lang_Alt_inv in H. destruct H as [H|H];
          [left; apply Hseq; assumption|].
        right. split; [apply nullable_Lang, En | apply IH2; assumption].
      * intros [H|[_ H]]; [apply LangAltL, Hseq, H | apply LangAltR, IH2, H].
    + rewrite Hseq. split; [auto|]. intros [H|[H _]]; [exact H|].
      apply nullable_Lang in H. congruence.
  - split; intros H; apply Lang_Alt_inv in H; destruct H as [H|H];
      [apply LangAltL, IH1 | apply LangAltR, IH2
      |apply LangAltL, IH1 | apply LangAltR, IH2]; assumption.
  - split.
    + intros H. apply Lang_Seq_inv in H. destruct H as (s1 & s2 & -> & H1 & H2).
      apply (LangStarCons r (c :: s1) s2); [apply IH|]; assumption.
    + intros H. apply Lang_Star_cons in H. destruct H as (s1 & s2 & -> & H1 & H2).
      constructor; [apply IH|]; assumption.
Qed.

Lemma test_Lang (r : regex) (s : jsstring) : test r s = true <-> Lang r s.
Proof.
  revert r. induction s as [|c s IH]; intros r; simpl.
  - apply nullable_Lang.
  - rewrite IH. apply derive_Lang.
Qed.

Lemma Lang_Star_Class (p : codeUnit -> bool) (s : jsstring) :
  Lang (Star (Class p)) s <-> forallb p s = true.
Proof.
  split.
  - intros H. remember (Star (Class p)) as r eqn:Er.
    induction H as [| | | | | |r0 s1 s2 H1 _ H2 IH2]; try discriminate;
      [reflexivity|].
    injection Er as ->. apply Lang_Class_inv in H1. destruct H1 as (c & -> & Hc).
    simpl. rewrite Hc. apply IH2. reflexivity.
  - induction s as [|c s IH]; [constructor|]. simpl. rewrite andb_true_iff.
    intros [Hc Hs]. apply (LangStarCons _ [c] s); [constructor; exact Hc|].
    apply IH, Hs.
Qed.

(** [[p]+] matches the non-empty strings of units of the class. *)
Lemma Lang_Plus_Class (p : codeUnit -> bool) (s : jsstring) :
  Lang (Plus (Class p)) s <-> s <> [] /\ forallb p s = true.
Proof.
  unfold Plus. split.
  - intros H. apply Lang_Seq_inv in H. destruct H as (s1 & s2 & -> & H1 & H2).
    apply Lang_Class_inv in H1. destruct H1 as (c & -> & Hc).
    apply Lang_Star_Class in H2.
    split; [discriminate|]. simpl. rewrite Hc, H2. reflexivity.
  - intros [Hne Hs]. destruct s as [|c s]; [congruence|].
    simpl in Hs. apply andb_true_iff in Hs. destruct Hs as [Hc Hs].
    apply (LangSeq _ _ [c] s); [constructor; exact Hc | apply Lang_Star_Class, Hs].
Qed.

Lemma Lang_Unit (c : codeUnit) (s : jsstring) : Lang (Unit c) s <-> s = [c].
Proof.
  unfold Unit. split.
  - intros H. apply Lang_Class_inv in H. destruct H as (c' & -> & Hc).
    apply N.eqb_eq in Hc. subst. reflexivity.
  - intros ->. constructor. apply N.eqb_refl.
Qed.

Lemma isValidEmail_iff (email : jsstring) :
  Auth.isValidEmail email = true <->
  exists name host tld,
    email = name ++ [64%N] ++ host ++ [46%N] ++ tld /\
    name <> [] /\ host <> [] /\ tld <> [] /\
    forallb Auth.notSpaceOrAt name = true /\
    forallb Auth.notSpaceOrAt host = true /\
    forallb Auth.notSpaceOrAt tld = true.
Proof.
  unfold Auth.isValidEmail. rewrite test_Lang. unfold Auth.emailRegex. split.
  - intros H.
    apply Lang_Seq_inv in H. destruct H as (name & s2 & -> & H1 & H).
    apply Lang_Seq_inv in H. destruct H as (at_ & s3 & -> & H2 & H).
    apply Lang_Seq_inv in H. destruct H as (host & s4 & -> & H3 & H).
    apply Lang_Seq_inv in H. destruct H as (dot_ & tld & -> & H4 & H5).
    apply Lang_Unit in H2, H4. subst.
    apply Lang_Plus_Class in H1, H3, H5.
    exists name, host, tld. tauto.
  - intros (name & host & tld & -> & Hn & Hh & Ht & Fn & Fh & Ft).
    constructor; [apply Lang_Plus_Class; auto|].
    constructor; [apply Lang_Unit; reflexivity|].
    constructor; [apply Lang_Plus_Class; auto|].
    constructor; [apply Lang_Unit; reflexivity|].
    apply Lang_Plus_Class; auto.
Qed.

End RegexProperties.

(** X23. [isValidEmail] accepts exactly the strings made of a name, an [@],
    a host, a dot and an ending, where the three parts are not empty and
    hold neither white space nor [@] (the host and the ending may hold
    further dots). *)
Theorem valid_email_shape (email : jsstring) :
  Auth.isValidEmail email = true <->
  exists name host tld,
    email = name ++ [64%N] ++ host ++ [46%N] ++ tld /\
    name <> [] /\ host <> [] /\ tld <> [] /\
    forallb Auth.notSpaceOrAt name = true /\
    forallb Auth.notSpaceOrAt host = true /\
    forallb Auth.notSpaceOrAt tld = true.
Proof. exact (isValidEmail_iff email). Qed.

Lemma notSpaceOrAt_spec (c : codeUnit) :
  Auth.notSpaceOrAt c = true <-> isWhiteSpace c = false /\ c <> 64%N.
Proof.
  unfold Auth.notSpaceOrAt.
  rewrite andb_true_iff, !negb_true_iff, N.eqb_neq. reflexivity.
Qed.

Lemma count_at_free (s : jsstring) :
  forallb Auth.notSpaceOrAt s = true -> count_occ N.eq_dec s 64%N = 0%nat.
Proof.
  induction s as [|c s IH]; [reflexivity|].
  cbn [forallb count_occ]. rewrite andb_true_iff, notSpaceOrAt_spec.
  intros [[_ Hc] Hs]. destruct (N.eq_dec c 64%N); [contradiction|]. apply IH, Hs.
Qed.

Lemma no_space_free (s : jsstring) :
  forallb Auth.notSpaceOrAt s = true ->
  forallb (fun c => negb (isWhiteSpace c)) s = true.
Proof.
  apply forallb_weaken. intros c. rewrite notSpaceOrAt_spec.
  intros [-> _]. reflexivity.
Qed.

Lemma valid_email_facts (email : jsstring) :
  Auth.isValidEmail email = true ->
  count_occ N.eq_dec email 64%N = 1%nat /\
  forallb (fun c => negb (isWhiteSpace c)) email = true /\
  (5 <= length email)%nat /\
  email <> [].
Proof.
  rewrite isValidEmail_iff.
  intros (name & host & tld & -> & Hn & Hh & Ht & Fn & Fh & Ft).
  split; [|split; [|split]].
  - rewrite !count_occ_app, (count_at_free name Fn), (count_at_free host Fh),
      (count_at_free tld Ft). reflexivity.
  - rewrite !forallb_app, (no_space_free name Fn), (no_space_free host Fh),
      (no_space_free tld Ft). reflexivity.
  - rewrite !length_app. destruct name, host, tld; try congruence; simpl; lia.
  - destruct name; [congruence | discriminate].
Qed.

Lemma login_success (email password : jsstring) (now : Z) (storage : Auth.Storage) :
  Auth.isValidEmail email = true -> (4 <= length password)%nat ->
  Auth.login email password now storage
  = (Auth.LoginSuccess (Auth.mkUser email now),
     Auth.mkStorage (Some true) (Some (Auth.mkUser email now))).
Proof.
  intros Hv Hp. unfold Auth.login.
  destruct (valid_email_facts email Hv) as (_ & _ & _ & Hne).
  destruct email as [|c email]; [congruence|].
  destruct password as [|p password]; [simpl in Hp; lia|].
  cbn [jseq orb]. rewrite Hv. cbn [negb].
  destruct (Nat.ltb_spec (length (p :: password)) 4); [lia | reflexivity].
Qed.

Lemma login_failure (email password : jsstring) (now : Z) (storage : Auth.Storage) :
  Auth.isValidEmail email = false \/ (length password < 4)%nat ->
  exists error,
    Auth.login email password now storage = (Auth.LoginFailure error, storage).
Proof.
  intros H. unfold Auth.login.
  destruct (jseq email [] || jseq password []); [eexists; reflexivity|].
  destruct (Auth.isValidEmail email); cbn [negb]; [|eexists; reflexivity].
  destruct (Nat.ltb_spec (length password) 4); [eexists; reflexivity|].
  destruct H as [H|H]; [discriminate | lia].
Qed.

(** X24. An address that [isValidEmail] accepts holds exactly one [@] and no
    white space, and is at least five code units long. *)
Theorem valid_email_one_at_no_space (email : jsstring) :
  Auth.isValidEmail email = true ->
  count_occ N.eq_dec email 64%N = 1%nat /\
  forallb (fun c => negb (isWhiteSpace c)) email = true /\
  (5 <= length email)%nat.
Proof.
  intros H. destruct (valid_email_facts email H) as (H1 & H2 & H3 & _). auto.
Qed.

Lemma valid_email_one_at_no_space_witness :
  Auth.isValidEmail (str "a@b.c") = true /\
  count_occ N.eq_dec (str "a@b.c") 64%N = 1%nat /\
  forallb (fun c => negb (isWhiteSpace c)) (str "a@b.c") = true /\
  (5 <= length (str "a@b.c"))%nat.
Proof.
  split; [vm_compute; reflexivity|].
  apply (valid_email_one_at_no_space (str "a@b.c")). vm_compute. reflexivity.
Defined.

(** X25. [login] succeeds exactly when the email is valid and the password
    has at least four code units (the test for missing values adds
    nothing).  On success the user it returns carries the email and the
    time of the login, and is what [getUser] finds afterwards, with
    [isLoggedIn] true; on failure the storage is left as it was.  After
    [logout], [isLoggedIn] is false and [getUser] finds nothing. *)
Theorem login_session (email password : jsstring) (now : Z)
    (storage : Auth.Storage) :
  (if Auth.isValidEmail email && (4 <=? length password)%nat then
     fst (Auth.login email password now storage)
     = Auth.LoginSuccess (Auth.mkUser email now) /\
     Auth.isLoggedIn (snd (Auth.login email password now storage)) = true /\
     Auth.getUser (snd (Auth.login email password now storage))
     = Some (Auth.mkUser email now)
   else
     (exists error,
        fst (Auth.login email password now storage) = Auth.LoginFailure error) /\
     snd (Auth.login email password now storage) = storage) /\
  Auth.isLoggedIn (Auth.logout (snd (Auth.login email password now storage)))
  = false /\
  Auth.getUser (Auth.logout (snd (Auth.login email password now storage)))
  = None.
Proof.
  split; [|split; reflexivity].
  destruct (Auth.isValidEmail email) eqn:Hv; cbn [andb].
  - destruct (Nat.leb_spec 4 (length password)) as [Hp|Hp].
    + rewrite (login_success email password now storage Hv Hp).
      repeat split.
    + destruct (login_failure email password now storage (or_intror Hp))
        as [error ->].
      split; [exists error|]; reflexivity.
  - destruct (login_failure email password now storage (or_introl Hv))
      as [error ->].
    split; [exists error|]; reflexivity.
Qed.

(** ** The content script: what a scan does to the highlights *)

Lemma highlightElement_element (e : nat) (h : Content.Style) (t : jsstring)
    (p : Content.Page) (e' : nat) :
  Content.element (Content.highlightElement e h t p) e'
  = if Nat.eqb e' e
    then Content.mkElement h (Some t) (str "[URL Guard Warning] " ++ t)
    else Content.element p e'.
Proof. reflexivity. Qed.

Lemma highlightElement_map (e : nat) (h : Content.Style) (t : jsstring)
    (p : Content.Page) (e' : nat) :
  Content.highlightedElements (Content.highlightElement e h t p) !! e'
  = if Nat.eqb e' e then Some (Content.originalStyle p e)
    else Content.highlightedElements p !! e'.
Proof.
  unfold Content.highlightElement, Content.originalStyle.
  cbn [Content.highlightedElements].
  destruct (Nat.eqb_spec e' e) as [->|Hne].
  - destruct (Content.highlightedElements p !! e) as [o|] eqn:E.
    + rewrite E. reflexivity.
    + rewrite lookup_insert_eq. reflexivity.
  - destruct (Content.highlightedElements p !! e); [reflexivity|].
    apply lookup_insert_ne. congruence.
Qed.

Lemma originalStyle_highlightElement (e : nat) (h : Content.Style)
    (t : jsstring) (p : Content.Page) (e' : nat) :
  Content.originalStyle (Content.highlightElement e h t p) e'
  = Content.originalStyle p e'.
Proof.
  unfold Content.originalStyle at 1.
  rewrite highlightElement_map, highlightElement_element.
  destruct (Nat.eqb_spec e' e) as [->|_]; reflexivity.
Qed.

Lemma highlight_all_at (elements : list nat) (h : Content.Style) (t : jsstring)
    (p : Content.Page) (e : nat) :
  let p' := fold_left (fun p e => Content.highlightElement e h t p) elements p in
  Content.element p' e
  = (if existsb (fun x => Nat.eqb x e) elements
     then Content.mkElement h (Some t) (str "[URL Guard Warning] " ++ t)
     else Content.element p e) /\
  Content.highlightedElements p' !! e
  = (if existsb (fun x => Nat.eqb x e) elements
     then Some (Content.originalStyle p e)
     else Content.highlightedElements p !! e).
Proof.
  cbv zeta. revert p. induction elements as [|x elements IH]; intros p.
  - split; reflexivity.
  - cbn [fold_left existsb].
    destruct (IH (Content.highlightElement x h t p)) as [IH1 IH2].
    rewrite IH1, IH2, originalStyle_highlightElement,
      highlightElement_element, highlightElement_map.
    rewrite (Nat.eqb_sym x e).
    destruct (Nat.eqb_spec e x) as [->|_], (existsb _ elements);
      split; reflexivity.
Qed.

Lemma removeHighlight_at (x : nat) (p : Content.Page) (e : nat) :
  Content.element (Content.removeHighlight x p) e
  = (if Nat.eqb e x then
       match Content.highlightedElements p !! e with
       | Some original =>
           Content.mkElement original None
             (if startsWith (Content.title (Content.element p e))
                   (str "[URL Guard Warning]")
              then [] else Content.title (Content.element p e))
       | None => Content.element p e
       end
     else Content.element p e) /\
  Content.highlightedElements (Content.removeHighlight x p) !! e
  = (if Nat.eqb e x then None else Content.highlightedElements p !! e).
Proof.
  unfold Content.removeHighlight.
  destruct (Nat.eqb_spec e x) as [->|Hne].
  - destruct (Content.highlightedElements p !! x) as [o|] eqn:E.
    + cbn [Content.element Content.highlightedElements].
      unfold Content.setElement. rewrite Nat.eqb_refl, lookup_delete_eq.
      split; reflexivity.
    + rewrite E. split; reflexivity.
  - destruct (Content.highlightedElements p !! x) as [o|] eqn:E.
    + cbn [Content.element Content.highlightedElements].
      unfold Content.setElement.
      destruct (Nat.eqb_spec e x); [contradiction|].
      rewrite lookup_delete_ne by congruence. split; reflexivity.
    + split; reflexivity.
Qed.

Lemma remove_all_at (keys : list nat) (p : Content.Page) (e : nat) :
  let p' := fold_left (fun p e => Content.removeHighlight e p) keys p in
  Content.element p' e
  = (if existsb (fun x => Nat.eqb x e) keys then
       match Content.highlightedElements p !! e with
       | Some original =>
           Content.mkElement original None
             (if startsWith (Content.title (Content.element p e))
                   (str "[URL Guard Warning]")
              then [] else Content.title (Content.element p e))
       | None => Content.element p e
       end
     else Content.element p e) /\
  Content.highlightedElements p' !! e
  = (if existsb (fun x => Nat.eqb x e) keys then None
     else Content.highlightedElements p !! e).
Proof.
  cbv zeta. revert p. induction keys as [|x keys IH]; intros p.
  - split; reflexivity.
  - cbn [fold_left existsb].
    destruct (IH (Content.removeHighlight x p)) as [IH1 IH2].
    destruct (removeHighlight_at x p e) as [R1 R2].
    rewrite IH1, IH2, R1, R2. rewrite (Nat.eqb_sym x e).
    destruct (Nat.eqb_spec e x) as [->|_]; cbn [orb].
    + destruct (existsb _ keys); split; reflexivity.
    + split; reflexivity.
Qed.

Lemma existsb_keys (m : gmap nat Content.Style) (e : nat) :
  existsb (fun x => Nat.eqb x e) (map fst (map_to_list m)) = true
  <-> is_Some (m !! e).
Proof.
  rewrite existsb_exists. split.
  - intros (x & Hin & Ex). apply Nat.eqb_eq in Ex. subst x.
    apply in_map_iff in Hin. destruct Hin as ([k o] & Ek & Hin).
    cbn in Ek. subst k. apply list_elem_of_In, elem_of_map_to_list in Hin.
    exists o. exact Hin.
  - intros [o Ho]. exists e. split; [|apply Nat.eqb_refl].
    apply in_map_iff. exists (e, o). split; [reflexivity|].
    apply list_elem_of_In, elem_of_map_to_list. exact Ho.
Qed.

Lemma clearAllHighlights_at (p : Content.Page) (e : nat) :
  Content.element (Content.clearAllHighlights p) e
  = match Content.highlightedElements p !! e with
    | Some original =>
        Content.mkElement original None
          (if startsWith (Content.title (Content.element p e))
                (str "[URL Guard Warning]")
           then [] else Content.title (Content.element p e))
    | None => Content.element p e
    end /\
  Content.highlightedElements (Content.clearAllHighlights p) !! e = None.
Proof.
  unfold Content.clearAllHighlights.
  destruct (remove_all_at (map fst (map_to_list (Content.highlightedElements p)))
              p e) as [R1 R2]. cbv zeta in R1, R2.
  rewrite R1, R2.
  pose proof (existsb_keys (Content.highlightedElements p) e) as Hk.
  destruct (existsb _ _).
  - split; reflexivity.
  - destruct (Content.highlightedElements p !! e) as [o|] eqn:E.
    + assert (false = true) by (apply Hk; eauto). discriminate.
    + split; reflexivity.
Qed.

Section ScanProperties.
Context {platform : Platform}.
Variable locationHostname : jsstring.

Lemma extractUrls_member (anchors : list (nat * jsstring)) (u : jsstring)
    (e : nat) :
  match snd (Content.extractUrls locationHostname anchors) !! u with
  | Some elements => existsb (fun x => Nat.eqb x e) elements
  | None => false
  end
  = existsb
      (fun anchor =>
         Nat.eqb (fst anchor) e && Content.external locationHostname (snd anchor)
         && jseq (snd anchor) u)
      anchors.
Proof.
  unfold Content.extractUrls.
  assert (H : forall found : list jsstring * gmap jsstring (list nat),
    match snd (fold_left
                 (fun found anchor =>
                    let href := snd anchor in
                    if Content.external locationHostname href then
                      (if arrayIncludes (fst found) href then fst found
                       else fst found ++ [href],
                       <[href := default [] (snd found !! href) ++ [fst anchor]]>
                         (snd found))
                    else found) anchors found) !! u with
    | Some elements => existsb (fun x => Nat.eqb x e) elements
    | None => false
    end
    = match snd found !! u with
      | Some elements => existsb (fun x => Nat.eqb x e) elements
      | None => false
      end
      || existsb
           (fun anchor =>
              Nat.eqb (fst anchor) e
              && Content.external locationHostname (snd anchor)
              && jseq (snd anchor) u)
           anchors).
  { induction anchors as [|[x href] anchors IH]; intros found.
    - cbn [fold_left existsb]. rewrite orb_false_r. reflexivity.
    - cbn [fold_left existsb fst snd]. rewrite IH. clear IH.
      destruct (Content.external locationHostname href);
        [|rewrite andb_false_r; reflexivity].
      cbn [snd]. rewrite andb_true_r.
      destruct (jseq href u) eqn:Ej.
      + apply jseq_eq in Ej. subst u. rewrite lookup_insert_eq.
        rewrite existsb_app. cbn [existsb]. rewrite orb_false_r, andb_true_r.
        destruct (snd found !! href); cbn [default existsb];
          rewrite ?orb_assoc; reflexivity.
      + rewrite andb_false_r. cbn [orb].
        rewrite lookup_insert_ne; [reflexivity|].
        intros ->. rewrite (proj2 (jseq_eq u u) eq_refl) in Ej. discriminate. }
  rewrite H. cbn [snd]. rewrite lookup_empty. reflexivity.
Qed.

Lemma extractUrls_none (anchors : list (nat * jsstring)) :
  fst (Content.extractUrls locationHostname anchors) = [] ->
  forall e u,
    existsb
      (fun anchor =>
         Nat.eqb (fst anchor) e && Content.external locationHostname (snd anchor)
         && jseq (snd anchor) u)
      anchors = false.
Proof.
  unfold Content.extractUrls.
  assert (H : forall found : list jsstring * gmap jsstring (list nat),
    fst (fold_left
           (fun found anchor =>
              let href := snd anchor in
              if Content.external locationHostname href then
                (if arrayIncludes (fst found) href then fst found
                 else fst found ++ [href],
                 <[href := default [] (snd found !! href) ++ [fst anchor]]>
                   (snd found))
              else found) anchors found) = [] ->
    fst found = [] /\
    forallb (fun anchor => negb (Content.external locationHostname (snd anchor)))
      anchors = true).
  { induction anchors as [|[x href] anchors IH]; intros found.
    - cbn [fold_left forallb]. auto.
    - cbn [fold_left forallb fst snd]. intros Hf. apply IH in Hf.
      destruct Hf as [Hf Hall]. rewrite Hall, andb_true_r.
      destruct (Content.external locationHostname href); [|auto].
      cbn [fst] in Hf. destruct (arrayIncludes (fst found) href) eqn:Ei.
      + rewrite Hf in Ei. discriminate.
      + destruct (fst found); discriminate. }
  intros Hf e u. apply H in Hf. destruct Hf as [_ Hall].
  apply not_true_is_false. intros Hex. apply existsb_exists in Hex.
  destruct Hex as (a & Hin & Ha).
  rewrite forallb_forall in Hall. specialize (Hall a Hin).
  destruct (Content.external locationHostname (snd a));
    [discriminate | rewrite andb_false_r in Ha; discriminate].
Qed.

Lemma processResult_at (anchors : list (nat * jsstring))
    (result : Background.Entry) (p : Content.Page) (e : nat) :
  let p' :=
    Content.processResult (snd (Content.extractUrls locationHostname anchors))
      p result in
  if Content.targets locationHostname anchors result e then
    (forall r, result = Background.Analyzed r ->
       Content.element p' e
       = Content.highlighted (Content.highlightStyleOf r)
           (Content.tooltipTextOf r)) /\
    (exists r, result = Background.Analyzed r) /\
    Content.highlightedElements p' !! e = Some (Content.originalStyle p e)
  else
    Content.element p' e = Content.element p e /\
    Content.highlightedElements p' !! e = Content.highlightedElements p !! e.
Proof.
  cbv zeta. unfold Content.targets, Content.processResult.
  destruct result as [r|u message]; cbn [Background.entryIsSuspicious
                                           Background.entryUrl];
    [|split; reflexivity].
  destruct (Background.resultsIsSuspicious r); cbn [andb]; [|split; reflexivity].
  rewrite <- extractUrls_member.
  destruct (snd (Content.extractUrls locationHostname anchors)
              !! Background.resultsUrl r) as [elements|]; [|split; reflexivity].
  destruct (highlight_all_at elements
              (Content.HIGHLIGHT_STYLES (Content.highlightStyleOf r))
              (Content.tooltipTextOf r) p e) as [H1 H2]. cbv zeta in H1, H2.
  rewrite H1, H2. destruct (existsb _ elements).
  - split; [intros r' [= <-]; reflexivity|]. split; [eauto | reflexivity].
  - split; reflexivity.
Qed.

Lemma originalStyle_processResult (anchors : list (nat * jsstring))
    (result : Background.Entry) (p : Content.Page) (e : nat) :
  Content.originalStyle
    (Content.processResult (snd (Content.extractUrls locationHostname anchors))
       p result) e
  = Content.originalStyle p e.
Proof.
  pose proof (processResult_at anchors result p e) as H. cbv zeta in H.
  unfold Content.originalStyle at 1.
  destruct (Content.targets locationHostname anchors result e).
  - destruct H as (_ & _ & ->). reflexivity.
  - destruct H as [-> ->]. reflexivity.
Qed.

Lemma originalStyle_results (anchors : list (nat * jsstring))
    (results : list Background.Entry) (p : Content.Page) (e : nat) :
  Content.originalStyle
    (fold_left
       (Content.processResult (snd (Content.extractUrls locationHostname anchors)))
       results p) e
  = Content.originalStyle p e.
Proof.
  revert p. induction results as [|r results IH]; intros p; [reflexivity|].
  cbn [fold_left]. rewrite IH. apply originalStyle_processResult.
Qed.

Lemma results_untouched (anchors : list (nat * jsstring))
    (results : list Background.Entry) (p : Content.Page) (e : nat) :
  Forall (fun r => Content.targets locationHostname anchors r e = false) results ->
  let p' :=
    fold_left
      (Content.processResult (snd (Content.extractUrls locationHostname anchors)))
      results p in
  Content.element p' e = Content.element p e /\
  Content.highlightedElements p' !! e = Content.highlightedElements p !! e.
Proof.
  cbv zeta. intros H. revert p.
  induction H as [|r results Hr _ IH]; intros p; [split; reflexivity|].
  cbn [fold_left].
  destruct (IH (Content.processResult
                  (snd (Content.extractUrls locationHostname anchors)) p r))
    as [-> ->].
  pose proof (processResult_at anchors r p e) as Hp. cbv zeta in Hp.
  rewrite Hr in Hp. exact Hp.
Qed.

Lemma results_last (anchors : list (nat * jsstring))
    (before after : list Background.Entry) (r : Background.Results)
    (p : Content.Page) (e : nat) :
  Content.targets locationHostname anchors (Background.Analyzed r) e = true ->
  Forall (fun r' => Content.targets locationHostname anchors r' e = false) after ->
  let p' :=
    fold_left
      (Content.processResult (snd (Content.extractUrls locationHostname anchors)))
      (before ++ Background.Analyzed r :: after) p in
  Content.element p' e
  = Content.highlighted (Content.highlightStyleOf r) (Content.tooltipTextOf r) /\
  Content.highlightedElements p' !! e = Some (Content.originalStyle p e).
Proof.
  cbv zeta. intros Hr Hafter. rewrite fold_left_app. cbn [fold_left].
  set (p1 := fold_left _ before p).
  destruct (results_untouched anchors after
              (Content.processResult
                 (snd (Content.extractUrls locationHostname anchors)) p1
                 (Background.Analyzed r)) e Hafter)
    as [-> ->].
  pose proof (processResult_at anchors (Background.Analyzed r) p1 e) as Hp.
  cbv zeta in Hp. rewrite Hr in Hp. destruct Hp as (H1 & _ & H2).
  rewrite (H1 r eq_refl), H2. split; [reflexivity|]. f_equal.
  apply originalStyle_results.
Qed.

Lemma results_keep (anchors : list (nat * jsstring))
    (results : list Background.Entry) (p : Content.Page) (e : nat)
    (o : Content.Style) :
  Content.highlightedElements p !! e = Some o ->
  Content.highlightedElements
    (fold_left
       (Content.processResult (snd (Content.extractUrls locationHostname anchors)))
       results p) !! e = Some o.
Proof.
  revert p. induction results as [|r results IH]; intros p Ho; [exact Ho|].
  cbn [fold_left]. apply IH.
  pose proof (processResult_at anchors r p e) as Hp. cbv zeta in Hp.
  destruct (Content.targets locationHostname anchors r e).
  - destruct Hp as (_ & _ & ->). unfold Content.originalStyle. rewrite Ho.
    reflexivity.
  - destruct Hp as [_ ->]. exact Ho.
Qed.

(** The results that a scan with a check enabled goes through. *)
Lemma scanPage_enabled (settings : Background.Settings)
    (anchors : list (nat * jsstring))
    (sendMessage : outcome (option (list Background.Entry)))
    (p : Content.Page) :
  Background.malwareScanEnabled settings
  || Background.typosquatCheckEnabled settings = true ->
  exists results,
    Content.scanPage locationHostname settings anchors sendMessage p
    = fold_left
        (Content.processResult
           (snd (Content.extractUrls locationHostname anchors)))
        results p /\
    (results = Content.received sendMessage \/
     results = [] /\ forall r e,
       Content.targets locationHostname anchors r e = false).
Proof.
  intros Hon. unfold Content.scanPage.
  replace (negb (Background.malwareScanEnabled settings)
           && negb (Background.typosquatCheckEnabled settings)) with false
    by (destruct (Background.malwareScanEnabled settings),
          (Background.typosquatCheckEnabled settings); try reflexivity;
        discriminate Hon).
  pose proof (extractUrls_none anchors) as Hnone.
  destruct (Content.extractUrls locationHostname anchors) as [urls urlElements].
  cbn [fst snd] in *.
  destruct urls as [|u urls].
  - exists []. split; [reflexivity|]. right. split; [reflexivity|].
    intros r e. unfold Content.targets. rewrite (Hnone eq_refl).
    apply andb_false_r.
  - cbn [length Nat.eqb]. exists (Content.received sendMessage).
    split; [|left; reflexivity].
    destruct sendMessage as [[results|]|message]; reflexivity.
Qed.

Lemma originalStyle_scanPage (settings : Background.Settings)
    (anchors : list (nat * jsstring))
    (sendMessage : outcome (option (list Background.Entry)))
    (p : Content.Page) (e : nat) :
  Content.originalStyle
    (Content.scanPage locationHostname settings anchors sendMessage p) e
  = Content.originalStyle p e.
Proof.
  destruct (Background.malwareScanEnabled settings
            || Background.typosquatCheckEnabled settings) eqn:Hon.
  - destruct (scanPage_enabled settings anchors sendMessage p Hon)
      as (results & -> & _).
    apply originalStyle_results.
  - apply orb_false_iff in Hon. destruct Hon as [H1 H2].
    unfold Content.scanPage. rewrite H1, H2. cbn [negb andb].
    destruct (clearAllHighlights_at p e) as [He Hm].
    unfold Content.originalStyle. rewrite He, Hm.
    destruct (Content.highlightedElements p !! e); reflexivity.
Qed.

Lemma originalStyle_scanPages
    (scans : list (Background.Settings * list (nat * jsstring)
                   * outcome (option (list Background.Entry))))
    (p : Content.Page) (e : nat) :
  Content.originalStyle (Content.scanPages locationHostname scans p) e
  = Content.originalStyle p e.
Proof.
  unfold Content.scanPages. revert p.
  induction scans as [|scan scans IH]; intros p; [reflexivity|].
  cbn [fold_left]. rewrite IH. apply originalStyle_scanPage.
Qed.

(** X17. While a check is enabled, a scan never removes a highlight: an
    element that is highlighted stays so, with the original style that was
    stored for it.  An element that no result of the response targets (a
    suspicious result whose URL is the [href] of the element, an anchor that
    [extractUrls] keeps) is left as it is.  An element that some result
    targets ends with the highlight of the last such result: red from a
    score of 70, amber below, the joined reasons as warning attribute and,
    behind the prefix, as title; and the style stored for it is the one it
    had before its first highlight. *)
Theorem scanPage_highlights (settings : Background.Settings)
    (anchors : list (nat * jsstring))
    (sendMessage : outcome (option (list Background.Entry)))
    (p : Content.Page) (e : nat) :
  Background.malwareScanEnabled settings
  || Background.typosquatCheckEnabled settings = true ->
  (forall o,
     Content.highlightedElements p !! e = Some o ->
     Content.highlightedElements
       (Content.scanPage locationHostname settings anchors sendMessage p) !! e
     = Some o) /\
  (Forall (fun r => Content.targets locationHostname anchors r e = false)
     (Content.received sendMessage) ->
   Content.element
     (Content.scanPage locationHostname settings anchors sendMessage p) e
   = Content.element p e /\
   Content.highlightedElements
     (Content.scanPage locationHostname settings anchors sendMessage p) !! e
   = Content.highlightedElements p !! e) /\
  (forall before r after,
     Content.received sendMessage = before ++ Background.Analyzed r :: after ->
     Content.targets locationHostname anchors (Background.Analyzed r) e = true ->
     Forall (fun r' => Content.targets locationHostname anchors r' e = false)
       after ->
     Content.element
       (Content.scanPage locationHostname settings anchors sendMessage p) e
     = Content.mkElement
         (Content.HIGHLIGHT_STYLES
            (if Background.resultsRiskScore r >=? 70 then Content.suspicious
             else Content.warning))
         (Some (join (str "; ") (Background.resultsReasons r)))
         (str "[URL Guard Warning] "
          ++ join (str "; ") (Background.resultsReasons r)) /\
     Content.highlightedElements
       (Content.scanPage locationHostname settings anchors sendMessage p) !! e
     = Some (default (Content.style (Content.element p e))
               (Content.highlightedElements p !! e))).
Proof.
  intros Hon.
  destruct (scanPage_enabled settings anchors sendMessage p Hon)
    as (results & -> & [->|[-> Hnone]]).
  - split; [intros o; apply results_keep|].
    split; [apply results_untouched|].
    intros before r after -> Hr Hafter.
    apply (results_last anchors before after r p e Hr Hafter).
  - cbn [fold_left]. split; [auto|]. split; [auto|].
    intros before r after _ Hr. rewrite Hnone in Hr. discriminate.
Qed.

(** X26. A scan never loses the style of the page: whatever the settings
    and the response, the style that removing the highlight would give an
    element back is the same after the scan as before, so also after any
    number of scans.  A scan with both checks disabled empties
    [highlightedElements], gives every highlighted element its stored style
    back, removes its warning attribute and empties its title if it starts
    with the warning prefix, and leaves the other elements alone; after any
    scans on a page without highlights, it shows every element in the style
    it had at the start. *)
Theorem scanPage_keeps_original_style
    (scans : list (Background.Settings * list (nat * jsstring)
                   * outcome (option (list Background.Entry))))
    (settings : Background.Settings) (anchors : list (nat * jsstring))
    (sendMessage : outcome (option (list Background.Entry)))
    (p : Content.Page) (e : nat) :
  Content.originalStyle
    (Content.scanPage locationHostname settings anchors sendMessage p) e
  = Content.originalStyle p e /\
  Content.originalStyle (Content.scanPages locationHostname scans p) e
  = Content.originalStyle p e /\
  (Background.malwareScanEnabled settings = false ->
   Background.typosquatCheckEnabled settings = false ->
   Content.highlightedElements
     (Content.scanPage locationHostname settings anchors sendMessage p) = ∅ /\
   Content.element
     (Content.scanPage locationHostname settings anchors sendMessage p) e
   = match Content.highlightedElements p !! e with
     | Some original =>
         Content.mkElement original None
           (if startsWith (Content.title (Content.element p e))
                 (str "[URL Guard Warning]")
            then [] else Content.title (Content.element p e))
     | None => Content.element p e
     end /\
   (Content.highlightedElements p = ∅ ->
    Content.style
      (Content.element
         (Content.scanPage locationHostname settings anchors sendMessage
            (Content.scanPages locationHostname scans p)) e)
    = Content.style (Content.element p e))).
Proof.
  split; [apply originalStyle_scanPage|].
  split; [apply originalStyle_scanPages|].
  intros H1 H2.
  assert (Hclear : forall q,
    Content.scanPage locationHostname settings anchors sendMessage q
    = Content.clearAllHighlights q).
  { intros q. unfold Content.scanPage. rewrite H1, H2. reflexivity. }
  rewrite !Hclear. split; [|split].
  - apply map_empty. intros e'. apply clearAllHighlights_at.
  - apply clearAllHighlights_at.
  - intros Hempty.
    destruct (clearAllHighlights_at
                (Content.scanPages locationHostname scans p) e) as [He _].
    pose proof (originalStyle_scanPages scans p e) as Ho.
    unfold Content.originalStyle in Ho. rewrite Hempty, lookup_empty in Ho.
    cbn [default] in Ho. unfold id in Ho. rewrite He.
    destruct (Content.highlightedElements
                (Content.scanPages locationHostname scans p) !! e);
      cbn [default] in Ho; unfold id in Ho; cbn [Content.style]; exact Ho.
Qed.

End ScanProperties.

Lemma scanPage_highlights_witness :
  let u := str "https://paypal-login.com" in
  let r :=
    Background.mkResults u None None true 60 [containsReason (str "paypal")] in
  let p :=
    Content.mkPage
      (fun _ => Content.mkElement (Content.mkStyle [] [] []) None (str "Pay"))
      ∅ in
  let p' :=
    @Content.scanPage samplePlatform (str "example.org")
      (Background.mkSettings false true) [(7%nat, u)]
      (Resolved (Some [Background.Analyzed r])) p in
  Content.element p' 7
  = Content.mkElement (Content.HIGHLIGHT_STYLES Content.warning)
      (Some (containsReason (str "paypal")))
      (str "[URL Guard Warning] " ++ containsReason (str "paypal")) /\
  Content.highlightedElements p' !! 7%nat = Some (Content.mkStyle [] [] []).
Proof.
  cbv zeta.
  pose proof (@scanPage_highlights samplePlatform (str "example.org")
           (Background.mkSettings false true)
           [(7%nat, str "https://paypal-login.com")]
           (Resolved (Some [Background.Analyzed
              (Background.mkResults (str "https://paypal-login.com") None None
                 true 60 [containsReason (str "paypal")])]))
           (Content.mkPage
              (fun _ => Content.mkElement (Content.mkStyle [] [] []) None
                          (str "Pay")) ∅)
           7%nat eq_refl) as (_ & _ & H).
  apply (H [] (Background.mkResults (str "https://paypal-login.com") None None
                 true 60 [containsReason (str "paypal")]) []).
  - reflexivity.
  - vm_compute. reflexivity.
  - constructor.
Defined.
